(** * Persisto: stage manager, database registry and query classification

    A shallow embedding of the Go packages [utils], [databases] and [stages]
    of persisto, and the properties of their placement logic.

    Conventions of the embedding:
    - a Go [uint] is a [Z] in the range [0, 2^64) and its arithmetic wraps;
    - a Go [string] is a [string] of bytes, read as UTF-8 where the
      functions of package [strings] do; the case tables of package
      [unicode], which are data, are a parameter;
    - a Go [error] result is an [option error], [None] standing for [nil];
    - everything outside the process (the SQL engine, the three storage
      back ends, the record mutex) is reached through calls that are logged
      in a [World] and answered from a script of replies, so that a property
      proved for every world holds whatever the environment answers;
    - a pointer to a [Database] is passed and returned as a record value;
    - calls to the logger are left out. *)

From Stdlib Require Import ZArith List String Ascii Bool Lia Sorted.
Import ListNotations.

Open Scope string_scope.
Open Scope Z_scope.

(* ================================================================== *)
(** ** Machine integers *)

Definition uint_modulus : Z := 2 ^ 64.

Definition is_uint (n : Z) : Prop := 0 <= n < uint_modulus.

Definition uint_wrap (n : Z) : Z := n mod uint_modulus.

(** [stage--] on a [uint]. *)
Definition uint_dec (n : Z) : Z := uint_wrap (n - 1).

(** [count++] on a [uint]. *)
Definition uint_inc (n : Z) : Z := uint_wrap (n + 1).

Definition int64_min : Z := - 2 ^ 63.
Definition int64_max : Z := 2 ^ 63 - 1.

(** Two's complement wrap-around of a 64-bit signed product or sum. *)
Definition int64_wrap (n : Z) : Z := (n + 2 ^ 63) mod 2 ^ 64 - 2 ^ 63.

(** [time.Time.Sub] saturates at the ends of [time.Duration]. *)
Definition int64_saturate (n : Z) : Z :=
  if n <? int64_min then int64_min
  else if int64_max <? n then int64_max
  else n.

(* ================================================================== *)
(** ** Packages [unicode/utf8], [unicode] and [strings] *)

Module GoStrings.

(** A byte of a Go string, as a number. *)
Definition byte_of (c : ascii) : Z := Z.of_N (N_of_ascii c).

(** The conversion [byte(x)], which keeps the low eight bits. *)
Definition of_byte (b : Z) : ascii := ascii_of_N (Z.to_N (b mod 256)).

(** [s[n:]], the text without its first [n] bytes. *)
Fixpoint drop (n : nat) (s : string) : string :=
  match n with
  | O => s
  | S n' => match s with EmptyString => EmptyString | String _ s' => drop n' s' end
  end.

(** [s[:n]], the first [n] bytes of the text. *)
Fixpoint take (n : nat) (s : string) : string :=
  match n with
  | O => EmptyString
  | S n' => match s with EmptyString => EmptyString | String c s' => String c (take n' s') end
  end.

(** [s[i]] for an index inside the text. *)
Definition byte_at (s : string) (i : nat) : Z :=
  match String.get i s with
  | Some c => byte_of c
  | None => 0
  end.

(** *** Package [unicode/utf8] *)

Definition RuneError : Z := 65533.
Definition RuneSelf : Z := 128.
Definition MaxRune : Z := 1114111.
Definition surrogateMin : Z := 55296.
Definition surrogateMax : Z := 57343.

(** An entry of the table [first], with the range [acceptRanges] gives for
    the second byte: an ASCII byte, a byte that starts no rune, or the first
    byte of an encoding of [size] bytes whose second byte lies between [lo]
    and [hi]. *)
Inductive first_byte : Type :=
| AsciiByte
| InvalidByte
| LeadByte (size : nat) (lo hi : Z).

Definition locb : Z := 128.
Definition hicb : Z := 191.

Definition first (s0 : Z) : first_byte :=
  if s0 <? 128 then AsciiByte               (* 0x00-0x7F *)
  else if s0 <? 194 then InvalidByte        (* 0x80-0xC1 *)
  else if s0 <? 224 then LeadByte 2 locb hicb   (* 0xC2-0xDF *)
  else if s0 =? 224 then LeadByte 3 160 hicb    (* 0xE0 *)
  else if s0 <? 237 then LeadByte 3 locb hicb   (* 0xE1-0xEC *)
  else if s0 =? 237 then LeadByte 3 locb 159    (* 0xED *)
  else if s0 <? 240 then LeadByte 3 locb hicb   (* 0xEE-0xEF *)
  else if s0 =? 240 then LeadByte 4 144 hicb    (* 0xF0 *)
  else if s0 <? 244 then LeadByte 4 locb hicb   (* 0xF1-0xF3 *)
  else if s0 =? 244 then LeadByte 4 locb 143    (* 0xF4 *)
  else InvalidByte.                         (* 0xF5-0xFF *)

(** [utf8.DecodeRuneInString]: the first rune of the text and the number of
    bytes it takes; [(RuneError, 1)] for bytes that are no valid encoding. *)
Definition DecodeRuneInString (s : string) : Z * nat :=
  match s with
  | EmptyString => (RuneError, 0%nat)
  | String c0 t0 =>
      let s0 := byte_of c0 in
      match first s0 with
      | AsciiByte => (s0, 1%nat)
      | InvalidByte => (RuneError, 1%nat)
      | LeadByte sz lo hi =>
          if (String.length s <? sz)%nat then (RuneError, 1%nat)
          else
            match t0 with
            | EmptyString => (RuneError, 1%nat)
            | String c1 t1 =>
                let s1 := byte_of c1 in
                if (s1 <? lo) || (hi <? s1) then (RuneError, 1%nat)
                else if (sz <=? 2)%nat then
                  (Z.lor (Z.shiftl (Z.land s0 31) 6) (Z.land s1 63), 2%nat)
                else
                  match t1 with
                  | EmptyString => (RuneError, 1%nat)
                  | String c2 t2 =>
                      let s2 := byte_of c2 in
                      if (s2 <? locb) || (hicb <? s2) then (RuneError, 1%nat)
                      else if (sz <=? 3)%nat then
                        (Z.lor (Z.shiftl (Z.land s0 15) 12)
                           (Z.lor (Z.shiftl (Z.land s1 63) 6) (Z.land s2 63)), 3%nat)
                      else
                        match t2 with
                        | EmptyString => (RuneError, 1%nat)
                        | String c3 _ =>
                            let s3 := byte_of c3 in
                            if (s3 <? locb) || (hicb <? s3) then (RuneError, 1%nat)
                            else
                              (Z.lor (Z.shiftl (Z.land s0 7) 18)
                                 (Z.lor (Z.shiftl (Z.land s1 63) 12)
                                    (Z.lor (Z.shiftl (Z.land s2 63) 6) (Z.land s3 63))),
                               4%nat)
                        end
                  end
            end
      end
  end.

(** [utf8.RuneStart]: the byte is not a continuation byte. *)
Definition RuneStart (b : Z) : bool := negb (Z.land b 192 =? 128).

(** The loop [for start--; start >= lim; start--] of
    [DecodeLastRuneInString], entered after the first decrement, with at
    most [n] tests left: it stops at a byte that starts a rune. *)
Fixpoint back_to_start (n : nat) (s : string) (lim start : Z) : Z :=
  match n with
  | O => start
  | S n' =>
      if start <? lim then start
      else if RuneStart (byte_at s (Z.to_nat start)) then start
      else back_to_start n' s lim (start - 1)
  end.

(** [utf8.DecodeLastRuneInString]: the last rune of the text and the number
    of bytes it takes. *)
Definition DecodeLastRuneInString (s : string) : Z * nat :=
  let end_ := Z.of_nat (String.length s) in
  if end_ =? 0 then (RuneError, 0%nat)
  else
    let start := end_ - 1 in
    let r := byte_at s (Z.to_nat start) in
    if r <? RuneSelf then (r, 1%nat)
    else
      let lim := end_ - 4 in
      let lim := if lim <? 0 then 0 else lim in
      let start := back_to_start 4 s lim (start - 1) in
      let start := if start <? 0 then 0 else start in
      let '(r, size) := DecodeRuneInString (drop (Z.to_nat start) s) in
      if negb (start + Z.of_nat size =? end_) then (RuneError, 1%nat)
      else (r, size).

(** [utf8.AppendRune], what [strings.Builder.WriteRune] appends, for a
    rune that is not negative. *)
Definition EncodeRune (r : Z) : string :=
  if r <=? 127 then String (of_byte r) ""
  else if r <=? 2047 then
    String (of_byte (Z.lor 192 (Z.shiftr r 6)))
      (String (of_byte (Z.lor 128 (Z.land r 63))) "")
  else
    let r := if (MaxRune <? r) || ((surrogateMin <=? r) && (r <=? surrogateMax))
             then RuneError else r in
    if r <=? 65535 then
      String (of_byte (Z.lor 224 (Z.shiftr r 12)))
        (String (of_byte (Z.lor 128 (Z.land (Z.shiftr r 6) 63)))
           (String (of_byte (Z.lor 128 (Z.land r 63))) ""))
    else
      String (of_byte (Z.lor 240 (Z.shiftr r 18)))
        (String (of_byte (Z.lor 128 (Z.land (Z.shiftr r 12) 63)))
           (String (of_byte (Z.lor 128 (Z.land (Z.shiftr r 6) 63)))
              (String (of_byte (Z.lor 128 (Z.land r 63))) ""))).

(** *** Package [unicode] *)

(** [unicode.IsSpace]: the eight characters of Latin-1 the function lists,
    and beyond Latin-1 the characters of the table [White_Space]. *)
Definition unicode_IsSpace (r : Z) : bool :=
  if (0 <=? r) && (r <=? 255) then
    ((9 <=? r) && (r <=? 13)) || (r =? 32) || (r =? 133) || (r =? 160)
  else
    (r =? 5760) || ((8192 <=? r) && (r <=? 8202)) || (r =? 8232) || (r =? 8233)
    || (r =? 8239) || (r =? 8287) || (r =? 12288).

(** The case tables of package [unicode] are data outside the sources:
    [To_UpperCase] stands for [unicode.To(unicode.UpperCase, r)], the upper
    case the tables give a rune. *)
Record CaseTables : Type := mkCaseTables {
  To_UpperCase : Z -> Z
}.

(** [unicode.ToUpper]. *)
Definition unicode_ToUpper (T : CaseTables) (r : Z) : Z :=
  if r <=? 127 then
    if (97 <=? r) && (r <=? 122) then r - 32 else r
  else To_UpperCase T r.

(** *** Package [strings] *)

Definition is_lower (c : ascii) : bool :=
  let n := byte_of c in (97 <=? n) && (n <=? 122).

Fixpoint is_ascii (s : string) : bool :=
  match s with
  | EmptyString => true
  | String c s' => (byte_of c <? RuneSelf) && is_ascii s'
  end.

Fixpoint has_lower (s : string) : bool :=
  match s with
  | EmptyString => false
  | String c s' => is_lower c || has_lower s'
  end.

(** The loop of [strings.ToUpper] over a text of ASCII bytes. *)
Fixpoint upper_bytes (s : string) : string :=
  match s with
  | EmptyString => EmptyString
  | String c s' =>
      String (if is_lower c then of_byte (byte_of c - 32) else c) (upper_bytes s')
  end.

(** [strings.Map]: the text read rune by rune, as [range] does, with the
    encoding of what [mapping] gives for each rune in place of the rune; a
    negative result is dropped.  A byte that is no valid encoding is read as
    [RuneError] and so comes out as the encoding of what [mapping] gives
    for it. *)
Fixpoint Map_runes (fuel : nat) (mapping : Z -> Z) (s : string) : string :=
  match fuel with
  | O => EmptyString
  | S fuel' =>
      match s with
      | EmptyString => EmptyString
      | String _ _ =>
          let '(c, width) := DecodeRuneInString s in
          let r := mapping c in
          (if 0 <=? r then EncodeRune r else EmptyString)
          ++ Map_runes fuel' mapping (drop width s)
      end
  end.

Definition Map (mapping : Z -> Z) (s : string) : string :=
  Map_runes (String.length s) mapping s.

(** [strings.ToUpper]: a text of ASCII bytes is mapped byte by byte
    (unchanged when it has no lower-case letter), any other text rune by
    rune with [unicode.ToUpper]. *)
Definition ToUpper (T : CaseTables) (s : string) : string :=
  if is_ascii s then
    if has_lower s then upper_bytes s else s
  else Map (unicode_ToUpper T) s.

(** [strings.TrimLeftFunc]: the text from the first rune, as [range] reads
    the runes, that [f] rejects; the empty text when there is none. *)
Fixpoint TrimLeft_runes (fuel : nat) (f : Z -> bool) (s : string) : string :=
  match fuel with
  | O => EmptyString
  | S fuel' =>
      match s with
      | EmptyString => EmptyString
      | String _ _ =>
          let '(r, width) := DecodeRuneInString s in
          if f r then TrimLeft_runes fuel' f (drop width s) else s
      end
  end.

Definition TrimLeftFunc (s : string) (f : Z -> bool) : string :=
  TrimLeft_runes (String.length s) f s.

(** [lastIndexFunc(s, f, false)], the loop [for i := len(s); i > 0;]
    entered at [i]: the index of the last rune, read from the end of the
    text, that [f] rejects; [None] stands for -1. *)
Fixpoint lastIndexFunc (fuel : nat) (s : string) (f : Z -> bool) (i : nat) : option nat :=
  match fuel with
  | O => None
  | S fuel' =>
      match i with
      | O => None
      | S _ =>
          let '(r, size) := DecodeLastRuneInString (take i s) in
          let i := (i - size)%nat in
          if f r then lastIndexFunc fuel' s f i else Some i
      end
  end.

(** [strings.TrimRightFunc]. *)
Definition TrimRightFunc (s : string) (f : Z -> bool) : string :=
  match lastIndexFunc (String.length s) s f (String.length s) with
  | Some i =>
      if RuneSelf <=? byte_at s i then
        let '(_, wid) := DecodeRuneInString (drop i s) in take (i + wid) s
      else take (i + 1) s
  | None => EmptyString
  end.

(** [strings.TrimFunc]. *)
Definition TrimFunc (s : string) (f : Z -> bool) : string :=
  TrimRightFunc (TrimLeftFunc s f) f.

(** The table [asciiSpace]: tab, line feed, vertical tab, form feed,
    carriage return and space. *)
Definition asciiSpace (c : Z) : bool := ((9 <=? c) && (c <=? 13)) || (c =? 32).

(** The second loop of [strings.TrimSpace], [for ; stop > start; stop--],
    on the text [s[start:]]: it passes the white space of ASCII at the end;
    at a byte beyond ASCII the function returns
    [TrimRightFunc(s[start:stop], unicode.IsSpace)], and at any other byte
    [s[start:stop]]. *)
Fixpoint trim_space_stop (s : string) (stop : nat) : string :=
  match stop with
  | O => take 0 s
  | S stop' =>
      let c := byte_at s stop' in
      if RuneSelf <=? c then TrimRightFunc (take stop s) unicode_IsSpace
      else if asciiSpace c then trim_space_stop s stop'
      else take stop s
  end.

(** [strings.TrimSpace].  The first loop, [for ; start < len(s); start++],
    passes the white space of ASCII at the front; at a byte beyond ASCII the
    function returns [TrimFunc(s[start:], unicode.IsSpace)], and at any
    other byte it goes on to the second loop. *)
Fixpoint TrimSpace (s : string) : string :=
  match s with
  | EmptyString => EmptyString
  | String c0 s' =>
      let c := byte_of c0 in
      if RuneSelf <=? c then TrimFunc s unicode_IsSpace
      else if asciiSpace c then TrimSpace s'
      else trim_space_stop s (String.length s)
  end.

(** [strings.HasPrefix(s, prefix)]. *)
Fixpoint HasPrefix (s pre : string) {struct pre} : bool :=
  match pre with
  | EmptyString => true
  | String p pre' =>
      match s with
      | EmptyString => false
      | String c s' => Ascii.eqb c p && HasPrefix s' pre'
      end
  end.

(** [strings.HasSuffix(s, suffix)]: the suffix is compared with the tail
    of [s] that has its length. *)
Definition HasSuffix (s suf : string) : bool :=
  (String.length suf <=? String.length s)%nat
  && String.eqb (drop (String.length s - String.length suf) s) suf.

(** [strings.Contains(s, substr)]. *)
Fixpoint Contains (s sub : string) : bool :=
  HasPrefix s sub
  || match s with
     | EmptyString => false
     | String _ s' => Contains s' sub
     end.

End GoStrings.

Import GoStrings.

(* ================================================================== *)
(** ** Errors *)

(** A Go [error] value: either one handed back by a library (the SQL
    engine, a storage back end), or one built by [fmt.Errorf], kept as the
    format and its arguments. *)
Inductive error : Type :=
| ExtError (msg : string)
| Errorf (format : string) (args : list fmt_arg)
with fmt_arg : Type :=
| ArgUint (n : Z)
| ArgUints (ns : list Z)
| ArgString (s : string)
| ArgError (e : error).

Definition is_nil (err : option error) : bool :=
  match err with None => true | Some _ => false end.

(* ================================================================== *)
(** ** The world outside the process *)

(** The calls the placement code makes to its environment.  A database
    handle is named by the connection string it was opened with, a mutex by
    the name of the record that owns it. *)
Inductive call : Type :=
| CallLock (record : string)
| CallUnlock (record : string)
| CallOpen (conn : string)
| CallPing (conn : string)
| CallExec (conn query : string) (args : list string)
| CallQuery (conn query : string)
| CallQueryRow (conn query : string)
| CallClose (conn : string)
| CallMemoryDelete (key : string)
| CallLocalDelete (path : string)
| CallRemoteDelete (key : string)
| CallSleep (milliseconds : Z).

(** What the environment answers to a call that can fail or yields a value. *)
Inductive reply : Type :=
| ROk
| RFail (msg : string)
| RInt (n : Z)
| RText (s : string).

Record World : Type := mkWorld {
  script : list reply;   (* the answers still to come, in order *)
  calls : list call;     (* the calls made so far, oldest first *)
  clock : Z              (* the reading of time.Now(), in nanoseconds *)
}.

(** Computations of the program: a state monad over the world. *)
Definition M (A : Type) : Type := World -> A * World.

Definition ret {A : Type} (a : A) : M A := fun w => (a, w).

Definition bind {A B : Type} (m : M A) (k : A -> M B) : M B :=
  fun w => let (a, w') := m w in k a w'.

Notation "x <- c1 ;; c2" := (bind c1 (fun x => c2))
  (at level 61, c1 at next level, right associativity).
Notation "' pat <- c1 ;; c2" := (bind c1 (fun x => match x with pat => c2 end))
  (at level 61, pat pattern, c1 at next level, right associativity).
Notation "c1 ;; c2" := (bind c1 (fun _ => c2))
  (at level 61, right associativity).

Definition log_call (c : call) (w : World) : World :=
  mkWorld (script w) (calls w ++ [c])%list (clock w).

(** A call that returns nothing the program looks at. *)
Definition tell (c : call) : M unit := fun w => (tt, log_call c w).

(** A call whose answer is the next reply of the script; a world whose
    script is exhausted answers [ROk]. *)
Definition ask (c : call) : M reply :=
  fun w =>
    match script w with
    | [] => (ROk, log_call c w)
    | r :: rs => (r, mkWorld rs (calls w ++ [c])%list (clock w))
    end.

Definition reply_error (r : reply) : option error :=
  match r with RFail msg => Some (ExtError msg) | _ => None end.

Definition reply_failure (r : reply) : option string :=
  match r with RFail msg => Some msg | _ => None end.

Definition reply_int (r : reply) : Z :=
  match r with RInt n => n | _ => 0 end.

Definition reply_text (r : reply) : string :=
  match r with RText s => s | _ => EmptyString end.

(** [defer cleanup] around the rest of a function body. *)
Definition deferring {A : Type} (cleanup : M unit) (body : M A) : M A :=
  r <- body ;; cleanup ;; ret r.

(** *** [sync.RWMutex] *)
Definition mutex_Lock (record : string) : M unit := tell (CallLock record).
Definition mutex_Unlock (record : string) : M unit := tell (CallUnlock record).

(** *** [database/sql] *)
Definition sql_Open (conn : string) : M (option error) :=
  r <- ask (CallOpen conn) ;; ret (reply_error r).

Definition db_Ping (conn : string) : M (option error) :=
  r <- ask (CallPing conn) ;; ret (reply_error r).

Definition db_Exec (conn query : string) (args : list string) : M (option string) :=
  r <- ask (CallExec conn query args) ;; ret (reply_failure r).

Definition db_Query (conn query : string) : M (option error) :=
  r <- ask (CallQuery conn query) ;; ret (reply_error r).

(** [db.QueryRow(query).Scan(&n)] for an integer column. *)
Definition db_QueryRowInt (conn query : string) : M (Z * option error) :=
  r <- ask (CallQueryRow conn query) ;; ret (reply_int r, reply_error r).

(** [db.QueryRow(query).Scan(&s)] for a text column. *)
Definition db_QueryRowText (conn query : string) : M (string * option error) :=
  r <- ask (CallQueryRow conn query) ;; ret (reply_text r, reply_error r).

Definition db_Close (conn : string) : M unit := tell (CallClose conn).

(** *** The storage back ends *)
Definition memoryvfs_Delete (key : string) : M unit := tell (CallMemoryDelete key).

Definition localvfs_Delete (path : string) : M (option error) :=
  r <- ask (CallLocalDelete path) ;; ret (reply_error r).

Definition remotevfs_Delete (key : string) : M (option error) :=
  r <- ask (CallRemoteDelete key) ;; ret (reply_error r).

(** *** Package [time] *)
Definition time_Now : M Z := fun w => (clock w, w).

Definition time_Sleep (milliseconds : Z) : M unit := tell (CallSleep milliseconds).

Definition time_Second : Z := 1000000000.

(** [time.Since(t)], given the reading of the clock. *)
Definition time_Since (now t : Z) : Z := int64_saturate (now - t).

(* ================================================================== *)
(** ** Configuration and records *)

(** The fields of [utils.Config] the placement code reads. *)
Record Config : Type := mkConfig {
  Memory_StageNumber : Z;
  Local_StageNumber : Z;
  Remote_StageNumber : Z;
  Local_DirectoryPath : string;
  PersistenceStage : Z;
  StageTimeoutSeconds : Z;
  AutoStageMovement : bool;
  AutoSyncEnabled : bool;
  RequestCountThreshold : Z
}.

(** The stage helpers of package [utils] that package [stages] calls.  Their
    source is not part of the verified files, so the stage manager is
    stated over any implementation of them. *)
Record StageUtils : Type := mkStageUtils {
  IsValidStage : Z -> bool;
  GetValidStageRange : Z * Z;
  IsClosestStage : Z -> bool;
  IsFarthestStage : Z -> bool;
  GetNextCloserStage : Z -> Z;
  GetNextFartherStage : Z -> Z;
  GetFarthestStage : Z;
  GetLocalStage : Z;
  GetRemoteStage : Z;
  IsRemovableStage : Z -> bool;
  GetRemovableStages : list Z
}.

(** [databases.Database]; the mutex of the record lives in the world. *)
Record Database : Type := mkDatabase {
  Path : string;
  Name : string;
  Stage : Z;
  LastAccessed : Z;
  RequestCount : Z
}.

Definition SetPath (db : Database) (path : string) : Database :=
  mkDatabase path (Name db) (Stage db) (LastAccessed db) (RequestCount db).

Definition SetStage (db : Database) (stage : Z) : Database :=
  mkDatabase (Path db) (Name db) stage (LastAccessed db) (RequestCount db).

Definition SetLastAccessed (db : Database) (t : Z) : Database :=
  mkDatabase (Path db) (Name db) (Stage db) t (RequestCount db).

Definition SetRequestCount (db : Database) (count : Z) : Database :=
  mkDatabase (Path db) (Name db) (Stage db) (LastAccessed db) count.

Definition DEFAULT_DATABASE_PATH : string := "./storage".

(* ================================================================== *)
(** ** Package [utils] *)

Definition writeOperations : list string :=
  ["INSERT"; "UPDATE"; "DELETE"; "CREATE"; "DROP"; "ALTER"].

(** The [for _, op := range writeOperations] loop of [IsWriteOperation]. *)
Fixpoint has_prefix_among (query : string) (ops : list string) : bool :=
  match ops with
  | [] => false
  | op :: ops' => if HasPrefix query op then true else has_prefix_among query ops'
  end.

(** [IsWriteOperation]; [T] stands for the case tables [strings.ToUpper]
    reads. *)
Definition IsWriteOperation (T : CaseTables) (query : string) : bool :=
  let query := ToUpper T (TrimSpace query) in
  has_prefix_among query writeOperations.

Definition VerifyDatabaseIntegrity (connectionString : string) : M (option error) :=
  err <- sql_Open connectionString ;;
  match err with
  | Some e => ret (Some (Errorf "failed to open database for integrity check: %v" [ArgError e]))
  | None =>
      deferring (db_Close connectionString)
        (err <- db_Ping connectionString ;;
         match err with
         | Some e => ret (Some (Errorf "database ping failed during integrity check: %v" [ArgError e]))
         | None =>
             err <- db_Query connectionString "SELECT name FROM sqlite_master WHERE type='table'" ;;
             match err with
             | Some e => ret (Some (Errorf "failed to query sqlite_master: %v" [ArgError e]))
             | None =>
                 '(result, err) <- db_QueryRowText connectionString "PRAGMA integrity_check" ;;
                 match err with
                 | Some e => ret (Some (Errorf "failed to run integrity check: %v" [ArgError e]))
                 | None =>
                     if negb (result =? "ok")%string
                     then ret (Some (Errorf "database integrity check failed: %s" [ArgString result]))
                     else ret None
                 end
             end
         end)
  end.

(* ================================================================== *)
(** ** Package [databases]: the record and the registry *)

Section Databases.

Variable cfg : Config.

(** [Database.GetConnectionString]: a Go [switch] takes the first case
    that matches. *)
Definition GetConnectionString (database : Database) : string * option error :=
  if Stage database =? Memory_StageNumber cfg then
    ("file:/" ++ Name database ++ "?vfs=memory", None)
  else if Stage database =? Local_StageNumber cfg then
    ("file:" ++ Path database ++ "?vfs=disk", None)
  else if Stage database =? Remote_StageNumber cfg then
    let dbName := Name database in
    let dbName := if negb (HasSuffix dbName ".db") then dbName ++ ".db" else dbName in
    ("file:" ++ dbName ++ "?vfs=r2", None)
  else
    ("file:" ++ Path database ++ "?vfs=disk", None).

(** [Databases.FindByName], on the [Items] of the registry. *)
Fixpoint FindByName (items : list Database) (name : string)
  : option Database * option error :=
  match items with
  | [] => (None, Some (Errorf "Database not found" []))
  | item :: items' =>
      if (Name item =? name)%string then (Some item, None)
      else FindByName items' name
  end.

(** [Database.initialize]. *)
Definition initialize (database : Database) : M (option error) :=
  let '(connectionString, err) := GetConnectionString database in
  match err with
  | Some e => ret (Some e)
  | None =>
      err <- sql_Open connectionString ;;
      match err with
      | Some e => ret (Some e)
      | None =>
          deferring (db_Close connectionString)
            (err <- db_Ping connectionString ;;
             match err with
             | Some e => ret (Some e)
             | None =>
                 if Stage database =? Remote_StageNumber cfg then
                   err <- db_Exec connectionString
                            "CREATE TABLE IF NOT EXISTS _persisto_init (id INTEGER PRIMARY KEY)" [] ;;
                   match err with
                   | Some msg => ret (Some (ExtError msg))
                   | None =>
                       err <- db_Exec connectionString "DROP TABLE IF EXISTS _persisto_init" [] ;;
                       match err with
                       | Some msg => ret (Some (ExtError msg))
                       | None => ret None
                       end
                   end
                 else
                   err <- db_Exec connectionString "SELECT 1" [] ;;
                   match err with
                   | Some msg => ret (Some (ExtError msg))
                   | None => ret None
                   end
             end)
      end
  end.

(** [Databases.CreateDatabaseAndInitialize]: the result is the new
    record (or [nil]), the error, and the [Items] of the registry
    afterwards. *)
Definition CreateDatabaseAndInitialize (items : list Database) (name : string) (stage : Z)
  : M (option Database * option error * list Database) :=
  let path :=
    if stage =? Memory_StageNumber cfg then Some ("/" ++ name)
    else if stage =? Local_StageNumber cfg then
      Some (DEFAULT_DATABASE_PATH ++ "/" ++ name ++ ".db")
    else if stage =? Remote_StageNumber cfg then Some name
    else None in
  match path with
  | None =>
      ret (None, Some (Errorf "invalid stage: %d. Valid stages are 1-3" [ArgUint stage]), items)
  | Some path =>
      now <- time_Now ;;
      let database := mkDatabase path name stage now 0 in
      err <- initialize database ;;
      match err with
      | Some e => ret (None, Some e, items)
      | None => ret (Some database, None, (items ++ [database])%list)
      end
  end.

(** The loop of [removeFromDatabasesList]: the first item that has the
    name is cut out, [append(Items[:i], Items[i+1:]...)]. *)
Fixpoint remove_first_named (items : list Database) (name : string) : list Database :=
  match items with
  | [] => []
  | item :: items' =>
      if (Name item =? name)%string then items'
      else item :: remove_first_named items' name
  end.

(** [Database.removeFromDatabasesList]; [Dbs] is the global registry,
    [None] when it is [nil]. *)
Definition removeFromDatabasesList (Dbs : option (list Database)) (database : Database)
  : option error * option (list Database) :=
  match Dbs with
  | None => (Some (Errorf "databases list is not initialized" []), None)
  | Some items => (None, Some (remove_first_named items (Name database)))
  end.

(** [Database.handleAccess]. *)
Definition handleAccess (database : Database) : M (option error * Database) :=
  mutex_Lock (Name database) ;;
  now <- time_Now ;;
  let database := SetLastAccessed database now in
  let database := SetRequestCount database (uint_inc (RequestCount database)) in
  mutex_Unlock (Name database) ;;
  ret (None, database).

End Databases.

(* ================================================================== *)
(** ** Package [routes]: creating a database *)



Section Routes.

Variable cfg : Config.

(** [stages.GetConfigDefaultStage()]: the field
    [Settings.DefaultDatabaseCreationStage] of the configuration, which the
    record [Config] above does not carry. *)
Variable GetConfigDefaultStage : Z.


End Routes.

(* ================================================================== *)
(** ** Package [stages]: the stage manager *)

Section Stages.

Variable cfg : Config.
Variable U : StageUtils.

Definition GetConnectionStringForStage (database : Database) (stage : Z)
  : string * option error :=
  let name := Name database in
  if stage =? GetLocalStage U then
    let localPath := Local_DirectoryPath cfg ++ "/" ++ name ++ ".db" in
    ("file:" ++ localPath ++ "?vfs=disk", None)
  else if stage =? GetRemoteStage U then
    let dbName := name in
    let dbName := if negb (HasSuffix dbName ".db") then dbName ++ ".db" else dbName in
    ("file:" ++ dbName ++ "?vfs=r2", None)
  else
    (EmptyString, Some (Errorf "invalid stage: %d" [ArgUint stage])).

Definition deleteTargetFile (name : string) (targetStage : Z) : M (option error) :=
  if targetStage =? GetLocalStage U then
    let localPath := Local_DirectoryPath cfg ++ "/" ++ name ++ ".db" in
    _ <- localvfs_Delete localPath ;;
    ret None
  else if targetStage =? GetRemoteStage U then
    let remoteName := name in
    let remoteName :=
      if negb (HasSuffix remoteName ".db") then remoteName ++ ".db" else remoteName in
    _ <- remotevfs_Delete remoteName ;;
    ret None
  else
    ret (Some (Errorf "unsupported stage for deletion: %d" [ArgUint targetStage])).

Definition maxRetries : Z := 3.

Definition copy_failed (lastErr : option string) : option error :=
  Some (Errorf "failed to copy database: %v"
          match lastErr with Some msg => [ArgError (ExtError msg)] | None => [] end).

(** The retry loop of [executeDatabaseCopy]; [remaining] counts the
    attempts that are left, [attempt] is the loop variable. *)
Fixpoint executeDatabaseCopy_loop (remaining : nat) (attempt : Z)
    (sourceDB targetConnection : string) (lastErr : option string) : M (option error) :=
  match remaining with
  | O => ret (copy_failed lastErr)
  | S remaining' =>
      lastErr <- db_Exec sourceDB "VACUUM INTO ?" [targetConnection] ;;
      match lastErr with
      | None => ret None
      | Some msg =>
          if Contains msg "output file already exists" && (attempt <? maxRetries - 1) then
            time_Sleep 100 ;;
            executeDatabaseCopy_loop remaining' (attempt + 1) sourceDB targetConnection lastErr
          else
            ret (copy_failed lastErr)
      end
  end.

Definition executeDatabaseCopy (sourceDB targetConnection : string) : M (option error) :=
  executeDatabaseCopy_loop (Z.to_nat maxRetries) 0 sourceDB targetConnection None.

Definition copyDataBetweenStages (database : Database) (sourceStage targetStage : Z)
  : M (option error) :=
  let '(sourceConnection, err) := GetConnectionStringForStage database sourceStage in
  match err with
  | Some e => ret (Some (Errorf "failed to get source connection string: %v" [ArgError e]))
  | None =>
      let '(targetConnection, err) := GetConnectionStringForStage database targetStage in
      match err with
      | Some e => ret (Some (Errorf "failed to get target connection string: %v" [ArgError e]))
      | None =>
          _ <- deleteTargetFile (Name database) targetStage ;;
          err <- sql_Open sourceConnection ;;
          match err with
          | Some e => ret (Some (Errorf "failed to open source database: %v" [ArgError e]))
          | None =>
              deferring (db_Close sourceConnection)
                (err <- db_Ping sourceConnection ;;
                 match err with
                 | Some e => ret (Some (Errorf "failed to ping source database: %v" [ArgError e]))
                 | None => executeDatabaseCopy sourceConnection targetConnection
                 end)
          end
      end
  end.

(** [syncToStage] copies the database from its current stage to the
    target stage and leaves the record as it is. *)
Definition syncToStage (database : Database) (targetStage : Z) : M (option error) :=
  let '(sourceConnection, err) := GetConnectionString cfg database in
  match err with
  | Some e => ret (Some (Errorf "failed to get source connection string: %v" [ArgError e]))
  | None =>
      err <- sql_Open sourceConnection ;;
      match err with
      | Some e => ret (Some (Errorf "failed to open source database: %v" [ArgError e]))
      | None =>
          deferring (db_Close sourceConnection)
            (err <- db_Ping sourceConnection ;;
             match err with
             | Some e => ret (Some (Errorf "source database ping failed: %v" [ArgError e]))
             | None =>
                 let '(targetConn, err) := GetConnectionStringForStage database targetStage in
                 match err with
                 | Some e =>
                     ret (Some (Errorf "failed to get target connection string: %v" [ArgError e]))
                 | None =>
                     err <- sql_Open targetConn ;;
                     match err with
                     | Some e =>
                         ret (Some (Errorf "failed to open target database: %v" [ArgError e]))
                     | None =>
                         deferring (db_Close targetConn)
                           (err <- db_Ping targetConn ;;
                            match err with
                            | Some e =>
                                ret (Some (Errorf "target database ping failed: %v" [ArgError e]))
                            | None =>
                                let originalStage := Stage database in
                                err <- copyDataBetweenStages database originalStage targetStage ;;
                                match err with
                                | Some e =>
                                    ret (Some (Errorf "failed to copy database data: %v"
                                                 [ArgError e]))
                                | None => ret None
                                end
                            end)
                     end
                 end
             end)
      end
  end.

Definition updateDatabasePath (database : Database) (targetStage : Z) : Database :=
  let name := Name database in
  if targetStage =? GetLocalStage U then
    SetPath database (Local_DirectoryPath cfg ++ "/" ++ name ++ ".db")
  else if targetStage =? GetRemoteStage U then
    SetPath database name
  else database.

Definition MoveToStage (database : Database) (targetStage : Z)
  : M (option error * Database) :=
  if negb (IsValidStage U targetStage) then
    let '(minStage, maxStage) := GetValidStageRange U in
    ret (Some (Errorf "invalid stage: %d. Valid stages are %d-%d"
                 [ArgUint targetStage; ArgUint minStage; ArgUint maxStage]), database)
  else if Stage database =? targetStage then
    ret (None, database)
  else
    let originalStage := Stage database in
    err <- syncToStage database targetStage ;;
    match err with
    | Some e =>
        ret (Some (Errorf "failed to sync database to target stage: %v" [ArgError e]), database)
    | None =>
        let database := SetStage database targetStage in
        let database := updateDatabasePath database targetStage in
        if targetStage <? originalStage then
          let '(connectionString, err) := GetConnectionString cfg database in
          match err with
          | Some e =>
              let database := SetStage database originalStage in
              let database := updateDatabasePath database originalStage in
              ret (Some (Errorf "failed to get connection string after move: %v" [ArgError e]),
                   database)
          | None =>
              _ <- VerifyDatabaseIntegrity connectionString ;;
              ret (None, database)
          end
        else
          ret (None, database)
    end.

Definition PromoteToCloserStage (database : Database) : M Database :=
  deferring (mutex_Unlock (Name database))
    (mutex_Lock (Name database) ;;
     if IsClosestStage U (Stage database) then ret database
     else
       let targetStage := GetNextCloserStage U (Stage database) in
       if targetStage =? 0 then ret database
       else
         let database := SetRequestCount database 0 in
         let '(sourceConn, err) := GetConnectionString cfg database in
         match err with
         | Some _ => ret database
         | None =>
             err <- sql_Open sourceConn ;;
             match err with
             | Some _ => ret database
             | None =>
                 err <- db_Ping sourceConn ;;
                 match err with
                 | Some _ => ret database
                 | None =>
                     db_Close sourceConn ;;
                     '(_, database) <- MoveToStage database targetStage ;;
                     ret database
                 end
             end
         end).

Definition verifyDatabaseAtStage (database : Database) (stage : Z)
  : M (option error * Database) :=
  let originalStage := Stage database in
  let database := SetStage database stage in
  err <-
    (let '(connStr, err) := GetConnectionStringForStage database stage in
     match err with
     | Some e =>
         ret (Some (Errorf "failed to get connection string for stage %d: %v"
                      [ArgUint stage; ArgError e]))
     | None =>
         err <- sql_Open connStr ;;
         match err with
         | Some e =>
             ret (Some (Errorf "failed to open database at stage %d: %v"
                          [ArgUint stage; ArgError e]))
         | None =>
             deferring (db_Close connStr)
               (err <- db_Ping connStr ;;
                match err with
                | Some e =>
                    ret (Some (Errorf "failed to ping database at stage %d: %v"
                                 [ArgUint stage; ArgError e]))
                | None =>
                    '(tableCount, err) <- db_QueryRowInt connStr
                      "SELECT COUNT(*) FROM sqlite_master WHERE type='table' AND name NOT LIKE 'sqlite_%'" ;;
                    match err with
                    | Some e =>
                        ret (Some (Errorf "failed to count tables at stage %d: %v"
                                     [ArgUint stage; ArgError e]))
                    | None =>
                        if tableCount =? 0 then
                          ret (Some (Errorf
                                 "database at stage %d exists but has no tables (possible data loss)"
                                 [ArgUint stage]))
                        else ret None
                    end
                end)
         end
     end) ;;
  ret (err, SetStage database originalStage).

(** The pre-demotion loop of [demoteToFartherStage]:
    [for stage := ...; stage != 0 && stage <= GetFarthestStage(); stage = GetNextFartherStage(stage)].
    A failed sync or verification is logged and the loop goes on. *)
Fixpoint demote_sync_loop (fuel : nat) (database : Database) (stage : Z)
  : World -> option (Database * World) :=
  fun w =>
    match fuel with
    | O => None
    | S fuel' =>
        if negb (stage =? 0) && (stage <=? GetFarthestStage U) then
          let (err, w1) := syncToStage database stage w in
          match err with
          | Some _ => demote_sync_loop fuel' database (GetNextFartherStage U stage) w1
          | None =>
              let '((_, database'), w2) := verifyDatabaseAtStage database stage w1 in
              demote_sync_loop fuel' database' (GetNextFartherStage U stage) w2
          end
        else Some (database, w)
    end.

Definition timeoutDuration : Z := int64_wrap (StageTimeoutSeconds cfg * time_Second).

Definition demoteToFartherStage (fuel : nat) (database : Database)
  : World -> option (Database * World) :=
  fun w =>
    let name := Name database in
    let (_, w) := mutex_Lock name w in
    let unlocking (database : Database) (w : World) :=
      let (_, w) := mutex_Unlock name w in Some (database, w) in
    if IsFarthestStage U (Stage database) then unlocking database w
    else
      let (now, w) := time_Now w in
      let timeSinceAccess := time_Since now (LastAccessed database) in
      if timeSinceAccess <? timeoutDuration then unlocking database w
      else
        let targetStage := GetNextFartherStage U (Stage database) in
        if targetStage =? 0 then unlocking database w
        else
          let synced :=
            if AutoSyncEnabled cfg && negb (IsFarthestStage U (Stage database)) then
              demote_sync_loop fuel database (GetNextFartherStage U (Stage database)) w
            else Some (database, w) in
          match synced with
          | None => None
          | Some (database, w) =>
              let database := SetRequestCount database 0 in
              let '((_, database), w) := MoveToStage database targetStage w in
              unlocking database w
          end.

(** The loop of [SyncToUpperStages]; [attempts] collects the stages
    [syncToStage] was called for, with the result of each call. *)
Fixpoint sync_upper_loop (fuel : nat) (database : Database) (stage : Z)
    (attempts : list (Z * option error))
  : World -> option (list (Z * option error) * World) :=
  fun w =>
    match fuel with
    | O => None
    | S fuel' =>
        if negb (stage =? 0) && (stage <=? GetFarthestStage U) then
          let (err, w1) := syncToStage database stage w in
          match err with
          | Some e => Some ((attempts ++ [(stage, Some e)])%list, w1)
          | None =>
              sync_upper_loop fuel' database (GetNextFartherStage U stage)
                (attempts ++ [(stage, None)])%list w1
          end
        else Some (attempts, w)
    end.

Definition SyncToUpperStages (fuel : nat) (database : Database)
  : World -> option (Database * list (Z * option error) * World) :=
  fun w =>
    if negb (AutoSyncEnabled cfg) then Some (database, [], w)
    else
      let (_, w) := mutex_Lock (Name database) w in
      match sync_upper_loop fuel database (GetNextFartherStage U (Stage database)) [] w with
      | None => None
      | Some (attempts, w) =>
          let (_, w) := mutex_Unlock (Name database) w in
          Some (database, attempts, w)
      end.

(** *** Removal of the copy a stage holds *)

Definition removeFromMemoryStage (database : Database) : M (option error) :=
  memoryvfs_Delete (Name database) ;;
  ret None.

Definition removeFromLocalStage (database : Database) : M (option error) :=
  err <- localvfs_Delete (Path database) ;;
  match err with
  | Some e => ret (Some (Errorf "failed to remove local file: %v" [ArgError e]))
  | None => ret None
  end.

Definition removeFromR2Stage (database : Database) : M (option error) :=
  let r2Key := Name database in
  let r2Key := if negb (HasSuffix r2Key ".db") then r2Key ++ ".db" else r2Key in
  err <- remotevfs_Delete r2Key ;;
  match err with
  | Some e => ret (Some (Errorf "failed to delete database from R2: %v" [ArgError e]))
  | None => ret None
  end.

(** [RemoveFromStage] over the configured removable stages. *)
Definition RemoveFromStage (database : Database) (stage : Z) : M (option error) :=
  if negb (IsRemovableStage U stage) then
    let removableStages := GetRemovableStages U in
    ret (Some (Errorf "invalid stage: %d. Valid removable stages are %v"
                 [ArgUint stage; ArgUints removableStages]))
  else if stage =? Stage database then
    ret (Some (Errorf "cannot remove database from its current active stage %d"
                 [ArgUint stage]))
  else if stage =? GetLocalStage U then removeFromLocalStage database
  else if stage =? GetRemoteStage U then removeFromR2Stage database
  else ret None.

End Stages.

(** The revision of [RemoveFromStage] with the memory tier and the fixed
    range of stages 1 to 3. *)
Module FixedTiers.

Definition RemoveFromStage (cfg : Config) (database : Database) (stage : Z)
  : M (option error) :=
  if (stage <? 1) || (stage >? 3) then
    ret (Some (Errorf "invalid stage: %d. Valid stages are 1-3" [ArgUint stage]))
  else if stage =? Stage database then
    ret (Some (Errorf "cannot remove database from its current active stage %d"
                 [ArgUint stage]))
  else if stage =? Memory_StageNumber cfg then removeFromMemoryStage database
  else if stage =? Local_StageNumber cfg then removeFromLocalStage database
  else if stage =? Remote_StageNumber cfg then removeFromR2Stage database
  else ret None.

End FixedTiers.

(* ================================================================== *)
(** ** Package [databases]: deletion *)

Section Deletion.

Variable cfg : Config.

(** [stages.RemoveFromStage], whichever revision is linked. *)
Variable RemoveFromStage : Database -> Z -> M (option error).

(** The loop of [Database.Delete],
    [for stage := persistentStage; stage >= database.Stage; stage--],
    on an unsigned [stage].  [removals] collects the stages
    [RemoveFromStage] was called for, with the result of each call. *)
Fixpoint Delete_loop (fuel : nat) (database : Database) (stage : Z)
    (removals : list (Z * option error))
  : World -> option (list (Z * option error) * World) :=
  fun w =>
    match fuel with
    | O => None
    | S fuel' =>
        if stage >=? Stage database then
          let (err, w1) := RemoveFromStage database stage w in
          Delete_loop fuel' database (uint_dec stage) (removals ++ [(stage, err)])%list w1
        else Some (removals, w)
    end.

(** [Database.Delete]: the error, the registry afterwards, the removals
    that were tried, and the world. *)
Definition Delete (fuel : nat) (Dbs : option (list Database)) (database : Database)
  : World -> option (option error * option (list Database) * list (Z * option error) * World) :=
  fun w =>
    let (_, w) := mutex_Lock (Name database) w in
    let persistentStage := PersistenceStage cfg in
    match Delete_loop fuel database persistentStage [] w with
    | None => None
    | Some (removals, w) =>
        let (err, Dbs') := removeFromDatabasesList Dbs database in
        let (_, w) := mutex_Unlock (Name database) w in
        match err with
        | Some e =>
            Some (Some (Errorf "failed to remove database from in-memory list: %v" [ArgError e]),
                  Dbs', removals, w)
        | None => Some (None, Dbs', removals, w)
        end
    end.

End Deletion.

(* ================================================================== *)
(** ** Reference definitions the properties are stated with *)

(** The names of the records of a registry. *)
Definition names (items : list Database) : list string := map Name items.

(** The world [w'] is [w] after some more calls. *)
Definition extends (w w' : World) : Prop :=
  exists more : list call, calls w' = (calls w ++ more)%list.

(** A computation that only adds calls to the log. *)
Definition appending {A : Type} (m : M A) : Prop :=
  forall w : World, extends w (snd (m w)).

(** The environment fails the connectivity probe of a promotion: it answers
    the open with a failure, or the open without one and the ping with a
    failure. *)
Definition probe_fails (w : World) : bool :=
  match script w with
  | RFail _ :: _ => true
  | _ :: RFail _ :: _ => true
  | _ => false
  end.

(** The first token of a statement, as the classification of statements is
    worded: the run of characters up to the first white space, after the
    leading white space. *)
Fixpoint take_token (fuel : nat) (s : string) : string :=
  match fuel with
  | O => EmptyString
  | S fuel' =>
      match s with
      | EmptyString => EmptyString
      | String _ _ =>
          let '(r, width) := DecodeRuneInString s in
          if unicode_IsSpace r then EmptyString
          else take width s ++ take_token fuel' (drop width s)
      end
  end.

Definition first_token (query : string) : string :=
  let s := TrimLeftFunc query unicode_IsSpace in
  take_token (String.length s) s.

Definition first_token_is_write (T : CaseTables) (query : string) : bool :=
  existsb (String.eqb (ToUpper T (first_token query))) writeOperations.

(** *** What the decoder of UTF-8 reads *)

(** The second byte an encoding of three bytes accepts after [s0], and the
    one an encoding of four bytes accepts. *)
Definition accept3 (s0 s1 : Z) : Prop :=
  (s0 = 224 /\ 160 <= s1 <= 191) \/ (225 <= s0 <= 236 /\ 128 <= s1 <= 191)
  \/ (s0 = 237 /\ 128 <= s1 <= 159) \/ (238 <= s0 <= 239 /\ 128 <= s1 <= 191).

Definition accept4 (s0 s1 : Z) : Prop :=
  (s0 = 240 /\ 144 <= s1 <= 191) \/ (241 <= s0 <= 243 /\ 128 <= s1 <= 191)
  \/ (s0 = 244 /\ 128 <= s1 <= 143).

(** What [DecodeRuneInString] has read when it returns a rune of [n]
    bytes. *)
Inductive decoded : string -> Z -> nat -> Prop :=
| decoded_ascii c t :
    byte_of c < 128 -> decoded (String c t) (byte_of c) 1
| decoded_invalid c t :
    128 <= byte_of c -> decoded (String c t) RuneError 1
| decoded_2 c0 c1 t :
    194 <= byte_of c0 <= 223 -> 128 <= byte_of c1 <= 191 ->
    decoded (String c0 (String c1 t)) (byte_of c0 mod 32 * 64 + byte_of c1 mod 64) 2
| decoded_3 c0 c1 c2 t :
    accept3 (byte_of c0) (byte_of c1) -> 128 <= byte_of c2 <= 191 ->
    decoded (String c0 (String c1 (String c2 t)))
      (byte_of c0 mod 16 * 4096 + byte_of c1 mod 64 * 64 + byte_of c2 mod 64) 3
| decoded_4 c0 c1 c2 c3 t :
    accept4 (byte_of c0) (byte_of c1) -> 128 <= byte_of c2 <= 191 ->
    128 <= byte_of c3 <= 191 ->
    decoded (String c0 (String c1 (String c2 (String c3 t))))
      (byte_of c0 mod 8 * 262144 + byte_of c1 mod 64 * 4096 + byte_of c2 mod 64 * 64
       + byte_of c3 mod 64) 4.

(** *** White space *)

(** The white-space characters of [unicode.IsSpace]. *)
Definition space_runes : list Z :=
  [9; 10; 11; 12; 13; 32; 133; 160; 5760;
   8192; 8193; 8194; 8195; 8196; 8197; 8198; 8199; 8200; 8201; 8202;
   8232; 8233; 8239; 8287; 12288].

(** Their encodings in UTF-8. *)
Definition white_space_chars : list string := map EncodeRune space_runes.

(** A text made of white-space characters only. *)
Inductive white_space : string -> Prop :=
| white_space_nil : white_space ""
| white_space_cons (e s : string) :
    In e white_space_chars -> white_space s -> white_space (e ++ s).

(** The bytes that occur in the encoding of a white-space character. *)
Definition is_white_byte (c : ascii) : bool :=
  let n := byte_of c in
  ((9 <=? n) && (n <=? 13)) || (n =? 32) || ((128 <=? n) && (n <=? 138))
  || existsb (Z.eqb n) [194; 133; 160; 225; 154; 226; 168; 169; 175; 129; 159; 227].

Fixpoint white_bytes (s : string) : bool :=
  match s with
  | EmptyString => true
  | String c s' => is_white_byte c && white_bytes s'
  end.

(** Where [TrimRightFunc] cuts the text, given the index [lastIndexFunc]
    returns. *)
Definition cut_after (s : string) (j : nat) : nat :=
  if RuneSelf <=? byte_at s j
  then (j + snd (DecodeRuneInString (drop j s)))%nat
  else (j + 1)%nat.

(** *** Keywords, whatever the case of their letters *)

(** What the statements of this file need of the case tables of package
    [unicode]: the upper case of U+0131, the dotless i, is [I], the upper
    case of U+017F, the long s, is [S], and no other rune beyond ASCII has its
    upper case in ASCII. *)
Definition upper_case_of_unicode (T : CaseTables) : Prop :=
  To_UpperCase T 305 = 73
  /\ To_UpperCase T 383 = 83
  /\ forall r, 127 < r -> r <> 305 -> r <> 383 -> 127 < To_UpperCase T r.

(** The encodings of U+0131 and of U+017F. *)
Definition dotless_i : string := EncodeRune 305.
Definition long_s : string := EncodeRune 383.

(** The ways to write the upper-case letter [p] that [strings.ToUpper] takes
    to [p]: the letter itself, the lower-case letter and, for [I] and [S], the
    dotless i and the long s. *)
Definition spellings (p : ascii) : list string :=
  [String p ""; String (of_byte (byte_of p + 32)) ""]
  ++ (if Ascii.eqb p "I" then [dotless_i] else [])
  ++ (if Ascii.eqb p "S" then [long_s] else []).

(** [body] writes the word [op], letter by letter. *)
Fixpoint spells (body op : string) : Prop :=
  match op with
  | EmptyString => body = ""
  | String p op' =>
      exists l rest, In l (spellings p) /\ body = l ++ rest /\ spells rest op'
  end.

(** [query] starts, after white space and whatever the case of its
    letters, with the keyword [op]. *)
Definition starts_with_keyword (query op : string) : Prop :=
  exists blank body rest : string,
    query = blank ++ body ++ rest /\ white_space blank /\ spells body op.

(** A word of the letters [A] to [Z]. *)
Fixpoint upper_letters (s : string) : bool :=
  match s with
  | EmptyString => true
  | String c s' => (65 <=? byte_of c) && (byte_of c <=? 90) && upper_letters s'
  end.

(** The key of a database in the remote store: the name, with [.db] added
    unless the name ends with it already. *)
Definition remote_key (name : string) : string :=
  if HasSuffix name ".db" then name else name ++ ".db".

(** [stages] follows [next] in steps from [from]. *)
Fixpoint chain (next : Z -> Z) (from : Z) (stages : list Z) : Prop :=
  match stages with
  | [] => True
  | s :: stages' => s = next from /\ chain next s stages'
  end.

(** Every attempt but the last one succeeded. *)
Fixpoint stops_at_first_failure (attempts : list (Z * option error)) : Prop :=
  match attempts with
  | [] => True
  | [_] => True
  | (_, err) :: attempts' => err = None /\ stops_at_first_failure attempts'
  end.

Definition all_succeeded (attempts : list (Z * option error)) : Prop :=
  Forall (fun a => snd a = None) attempts.

(** [syncToStage] called for each stage of [stages] in turn, from the
    world [w], up to the first call that fails: the stages that were tried
    with the error of each call, and the world after the last call. *)
Fixpoint syncs_in_turn (cfg : Config) (U : StageUtils) (db : Database) (stages : list Z)
    (w : World) : list (Z * option error) * World :=
  match stages with
  | [] => ([], w)
  | stage :: stages' =>
      let (err, w1) := syncToStage cfg U db stage w in
      match err with
      | Some e => ([(stage, Some e)], w1)
      | None =>
          let (attempts, w2) := syncs_in_turn cfg U db stages' w1 in
          ((stage, None) :: attempts, w2)
      end
  end.

(** The stages from [high] down to [low], [count] of them. *)
Fixpoint countdown (count : nat) (high : Z) : list Z :=
  match count with
  | O => []
  | S count' => high :: countdown count' (high - 1)
  end.

Definition stages_down (high low : Z) : list Z :=
  countdown (Z.to_nat (high - low + 1)) high.

(** A helper for the next farther stage is well behaved when it answers 0
    (no such stage) or a stage farther than the one asked about. *)
Definition next_farther_ascends (U : StageUtils) : Prop :=
  forall s : Z, GetNextFartherStage U s = 0 \/ s < GetNextFartherStage U s.

(* ================================================================== *)
(** ** A configuration and worlds to run the definitions on *)

Definition default_config : Config :=
  mkConfig 1 2 3 "./storage" 3 300 true true 2.

Fixpoint least_above (s : Z) (tiers : list Z) : Z :=
  match tiers with
  | [] => 0
  | t :: tiers' =>
      let rest := least_above s tiers' in
      if s <? t then (if (rest =? 0) || (t <? rest) then t else rest) else rest
  end.

Fixpoint greatest_below (s : Z) (tiers : list Z) : Z :=
  match tiers with
  | [] => 0
  | t :: tiers' =>
      let rest := greatest_below s tiers' in
      if t <? s then (if rest <? t then t else rest) else rest
  end.

Definition tier_indices (cfg : Config) : list Z :=
  [Memory_StageNumber cfg; Local_StageNumber cfg; Remote_StageNumber cfg].

Definition closest_tier (cfg : Config) : Z := fold_right Z.min (Memory_StageNumber cfg) (tier_indices cfg).

Definition farthest_tier (cfg : Config) : Z := fold_right Z.max (Memory_StageNumber cfg) (tier_indices cfg).

Definition is_tier (cfg : Config) (s : Z) : bool := existsb (Z.eqb s) (tier_indices cfg).

(** Modelled from the spec: the stage helpers of package [utils]
    ([IsValidStage], [IsClosestStage], [GetNextFartherStage] and the
    others), whose source is not among the files.  The tiers are the
    configured indices of the memory, local and remote stores, totally
    ordered by index: a lower index is closer to the client, a higher one
    farther; the next closer or farther stage is the neighbouring index, and
    0 when there is none. *)
Definition config_utils (cfg : Config) : StageUtils :=
  mkStageUtils
    (is_tier cfg)
    (closest_tier cfg, farthest_tier cfg)
    (fun s => s =? closest_tier cfg)
    (fun s => s =? farthest_tier cfg)
    (fun s => greatest_below s (tier_indices cfg))
    (fun s => least_above s (tier_indices cfg))
    (farthest_tier cfg)
    (Local_StageNumber cfg)
    (Remote_StageNumber cfg)
    (is_tier cfg)
    (tier_indices cfg).

(** A world that lets every call succeed. *)
Definition calm_world (now : Z) : World := mkWorld [] [] now.

(** A world that answers the coming calls from [replies]. *)
Definition scripted_world (replies : list reply) (now : Z) : World := mkWorld replies [] now.

Definition sample_database (stage count : Z) : Database :=
  mkDatabase "u" "u" stage 0 count.

(** Case tables that know the two runes beyond ASCII whose upper case is
    an ASCII letter, and leave every other rune as it is. *)
Definition sample_case_tables : CaseTables :=
  mkCaseTables (fun r => if r =? 305 then 73 else if r =? 383 then 83 else r).

(** A statement that starts with a no-break space and writes [insert] with
    the dotless i and the long s. *)
Definition sample_statement : string :=
  EncodeRune 160 ++ " " ++ dotless_i ++ "n" ++ long_s ++ "ert into t values (1)".

(* ================================================================== *)
(** ** Package [databases]: running a statement *)

(** What a [sql.Result] answers to its two methods. *)
Record sql_Result : Type := mkResult {
  RowsAffected : Z * option error;
  LastInsertId : Z * option error
}.

(** [utils.ExecResultType]: the nil map, the empty map, or the map with the
    keys [RowsAffected] and [LastInsertID]. *)
Inductive ExecResultType : Type :=
| NilResult
| EmptyResult
| ResultMap (rowsAffected lastInsertID : Z).

Definition ExecResultToMap (result : sql_Result) : ExecResultType * option error :=
  let '(rowsAffected, err) := RowsAffected result in
  match err with
  | Some e => (NilResult, Some e)
  | None =>
      let '(lastInsertID, err) := LastInsertId result in
      let lastInsertID := match err with Some _ => 0 | None => lastInsertID end in
      (ResultMap rowsAffected lastInsertID, None)
  end.

(** A goroutine started with [go], on the record of the given name. *)
Inductive task : Type :=
| GoPromoteToCloserStage (record : string)
| GoSyncToUpperStages (record : string).

Section Execution.

Variable cfg : Config.

(** The case tables of package [unicode], which [IsWriteOperation] reads
    through [strings.ToUpper]. *)
Variable T : CaseTables.

(** The result object the driver hands back for an answer of the engine. *)
Variable driver_result : reply -> sql_Result.

(** [Database.Execute]: the output, the error, the record afterwards and
    the goroutines that were started. *)
Definition Execute (database : Database) (query : string)
  : M (ExecResultType * option error * Database * list task) :=
  '(_, database) <- handleAccess database ;;
  let '(connectionString, err) := GetConnectionString cfg database in
  match err with
  | Some e => ret (EmptyResult, Some e, database, [])
  | None =>
      err <- sql_Open connectionString ;;
      match err with
      | Some e => ret (EmptyResult, Some e, database, [])
      | None =>
          deferring (db_Close connectionString)
            (r <- ask (CallExec connectionString query []) ;;
             match reply_error r with
             | Some e => ret (EmptyResult, Some e, database, [])
             | None =>
                 let '(output, err) := ExecResultToMap (driver_result r) in
                 let promotion :=
                   if AutoStageMovement cfg
                      && (RequestCount database >=? RequestCountThreshold cfg)
                   then [GoPromoteToCloserStage (Name database)] else [] in
                 let sync :=
                   if AutoSyncEnabled cfg && IsWriteOperation T query
                   then [GoSyncToUpperStages (Name database)] else [] in
                 ret (output, err, database, (promotion ++ sync)%list)
             end)
      end
  end.

End Execution.

(* ================================================================== *)
(** ** The path helpers of the copy, in the revision with the memory tier *)

(** [strings.Split(s, sep)[0]] for a separator of one character: the text
    before the first separator, or all of it. *)
Fixpoint before_char (sep : ascii) (s : string) : string :=
  match s with
  | EmptyString => EmptyString
  | String c s' => if Ascii.eqb c sep then EmptyString else String c (before_char sep s')
  end.

(** [strings.TrimPrefix]. *)
Definition TrimPrefix (s pre : string) : string :=
  if HasPrefix s pre then drop (String.length pre) s else s.

(** [strings.TrimSuffix]. *)
Definition TrimSuffix (s suf : string) : string :=
  if HasSuffix s suf then take (String.length s - String.length suf) s else s.

Fixpoint has_char (c : ascii) (s : string) : bool :=
  match s with
  | EmptyString => false
  | String c' s' => Ascii.eqb c' c || has_char c s'
  end.

Module FixedTiersCopy.

Definition getLocalPath (name : string) : string := "./storage/" ++ name ++ ".db".

Definition GetConnectionStringForStage (cfg : Config) (database : Database) (stage : Z)
  : string * option error :=
  let name := Name database in
  if stage =? Memory_StageNumber cfg then
    ("file:/" ++ name ++ "?vfs=memory", None)
  else if stage =? Local_StageNumber cfg then
    let path := getLocalPath name in
    ("file:" ++ path ++ "?vfs=disk", None)
  else if stage =? Remote_StageNumber cfg then
    let dbName := name in
    let dbName := if negb (HasSuffix dbName ".db") then dbName ++ ".db" else dbName in
    ("file:" ++ dbName ++ "?vfs=r2", None)
  else
    (EmptyString, Some (Errorf "invalid stage: %d" [ArgUint stage])).

Definition getTargetPath (cfg : Config) (name : string) (targetStage : Z) : string :=
  if targetStage =? Memory_StageNumber cfg then "/" ++ name
  else if targetStage =? Local_StageNumber cfg then getLocalPath name
  else if targetStage =? Remote_StageNumber cfg then
    if HasSuffix name ".db" then name else name ++ ".db"
  else name.

Definition extractPathFromConnectionString (connStr : string) : string :=
  if HasPrefix connStr "file:" then
    let first := before_char "?"%char connStr in
    TrimPrefix first "file:"
  else connStr.

End FixedTiersCopy.

(* ================================================================== *)
(** ** Package [databases]: listing a tier *)

(** An entry of [localvfs.ListFiles]. *)
Record FileInfo : Type := mkFileInfo {
  file_Name : string;
  file_FullPath : string;
  file_IsDir : bool
}.

Section Listing.

Variable cfg : Config.

(** What the three stores answer to a listing; the packages [memoryvfs],
    [localvfs] and [remotevfs] are not part of the sources.  The memory
    store answers with entries of which the name alone is read, the remote
    store with entries that have the five fields of a record. *)
Variable memoryvfs_ListDatabases : list string.
Variable localvfs_ListFiles : string -> list FileInfo * option error.
Variable remotevfs_ListDatabases : list Database * option error.

(** The loop over the memory listing; [time.Now()] is read for each record. *)
Fixpoint list_memory (names : list string) (databases : list Database)
  : M (list Database) :=
  match names with
  | [] => ret databases
  | memDb :: rest =>
      now <- time_Now ;;
      list_memory rest
        (databases ++ [mkDatabase ("/" ++ memDb) memDb (Memory_StageNumber cfg) now 0])%list
  end.

(** The loop over the files of the local storage directory. *)
Fixpoint list_local (files : list FileInfo) (databases : list Database)
  : M (list Database) :=
  match files with
  | [] => ret databases
  | file :: rest =>
      if file_IsDir file then list_local rest databases
      else if HasSuffix (file_Name file) ".db" then
        let baseName := TrimSuffix (file_Name file) ".db" in
        now <- time_Now ;;
        list_local rest
          (databases
           ++ [mkDatabase (file_FullPath file) baseName (Local_StageNumber cfg) now 0])%list
      else list_local rest databases
  end.

(** The loop over the remote listing. *)
Fixpoint list_remote (entries : list Database) (databases : list Database) : list Database :=
  match entries with
  | [] => databases
  | r2Db :: rest =>
      list_remote rest
        (databases
         ++ [mkDatabase (Path r2Db) (Name r2Db) (Stage r2Db) (LastAccessed r2Db)
               (RequestCount r2Db)])%list
  end.

(** [ListDatabases]: the [Items] of the registry it returns, or [nil],
    and the error. *)
Definition ListDatabases (stageIndex : Z) : M (option (list Database) * option error) :=
  if stageIndex =? Memory_StageNumber cfg then
    databases <- list_memory memoryvfs_ListDatabases [] ;;
    ret (Some databases, None)
  else if stageIndex =? Local_StageNumber cfg then
    let '(files, err) := localvfs_ListFiles DEFAULT_DATABASE_PATH in
    match err with
    | Some e => ret (None, Some e)
    | None =>
        databases <- list_local files [] ;;
        ret (Some databases, None)
    end
  else if stageIndex =? Remote_StageNumber cfg then
    let '(r2Databases, err) := remotevfs_ListDatabases in
    match err with
    | Some _ =>
        ret (None, Some (Errorf "invalid stage index= %d. Valid stages are 1-3"
                           [ArgUint stageIndex]))
    | None => ret (Some (list_remote r2Databases []), None)
    end
  else
    ret (None, Some (Errorf "invalid stage index: %d. Valid stages are 1-3"
                       [ArgUint stageIndex])).

(** [SetupDatabases], the one time its body runs: the registry and the
    setup error it stores. *)
Definition SetupDatabases : M (option (list Database) * option error) :=
  ' (databases, err) <- ListDatabases (Remote_StageNumber cfg) ;;
  match err with
  | Some e => ret (None, Some e)
  | None => ret (databases, None)
  end.

End Listing.

(* ================================================================== *)
(** ** The stage manager in the revision with the memory tier *)

Module FixedTiersStages.

Section Moves.

Variable cfg : Config.

(** [copyDataBetweenStages] of this revision streams tables and rows
    between two engines; of the record it reads the name and writes nothing.
    The moves below depend on its error alone, and are stated over any
    computation in its place. *)
Variable copyDataBetweenStages : Database -> Z -> Z -> M (option error).

Definition copyDatabaseData (database : Database) (sourceStage targetStage : Z)
  : M (option error) :=
  copyDataBetweenStages database sourceStage targetStage.

Definition updateDatabasePath (database : Database) (targetStage : Z) : Database :=
  let name := Name database in
  if targetStage =? Memory_StageNumber cfg then SetPath database ("/" ++ name)
  else if targetStage =? Local_StageNumber cfg then
    SetPath database ("./storage/" ++ name ++ ".db")
  else if targetStage =? Remote_StageNumber cfg then SetPath database name
  else database.

Definition syncDown (database : Database) (targetStage : Z) : M (option error * Database) :=
  let '(sourceConnection, err) := GetConnectionString cfg database in
  match err with
  | Some e =>
      ret (Some (Errorf "failed to get source connection string: %v" [ArgError e]), database)
  | None =>
      err <- sql_Open sourceConnection ;;
      match err with
      | Some e => ret (Some (Errorf "failed to open source database: %v" [ArgError e]), database)
      | None =>
          deferring (db_Close sourceConnection)
            (err <- db_Ping sourceConnection ;;
             match err with
             | Some e =>
                 ret (Some (Errorf "source database ping failed: %v" [ArgError e]), database)
             | None =>
                 let originalStage := Stage database in
                 let database := SetStage database targetStage in
                 let '(targetConn, err) :=
                   FixedTiersCopy.GetConnectionStringForStage cfg database targetStage in
                 match err with
                 | Some e =>
                     let database := SetStage database originalStage in
                     ret (Some (Errorf "failed to get target connection string: %v"
                                  [ArgError e]), database)
                 | None =>
                     err <- sql_Open targetConn ;;
                     match err with
                     | Some e =>
                         let database := SetStage database originalStage in
                         ret (Some (Errorf "failed to open target database: %v" [ArgError e]),
                              database)
                     | None =>
                         deferring (db_Close targetConn)
                           (err <- db_Ping targetConn ;;
                            match err with
                            | Some e =>
                                let database := SetStage database originalStage in
                                ret (Some (Errorf "target database ping failed: %v"
                                             [ArgError e]), database)
                            | None =>
                                err <- copyDatabaseData database originalStage targetStage ;;
                                match err with
                                | Some e =>
                                    let database := SetStage database originalStage in
                                    ret (Some (Errorf "failed to copy database data: %v"
                                                 [ArgError e]), database)
                                | None =>
                                    let database := updateDatabasePath database targetStage in
                                    let '(connectionString, err) :=
                                      GetConnectionString cfg database in
                                    match err with
                                    | Some e =>
                                        let database := SetStage database originalStage in
                                        ret (Some (Errorf
                                                     "failed to get connection string after copy: %v"
                                                     [ArgError e]), database)
                                    | None =>
                                        _ <- VerifyDatabaseIntegrity connectionString ;;
                                        ret (None, database)
                                    end
                                end
                            end)
                     end
                 end
             end)
      end
  end.

Definition syncUp (database : Database) (targetStage : Z) : M (option error * Database) :=
  let '(sourceConnection, err) := GetConnectionString cfg database in
  match err with
  | Some e =>
      ret (Some (Errorf "failed to get source connection string: %v" [ArgError e]), database)
  | None =>
      err <- sql_Open sourceConnection ;;
      match err with
      | Some e => ret (Some (Errorf "failed to open source database: %v" [ArgError e]), database)
      | None =>
          deferring (db_Close sourceConnection)
            (let originalStage := Stage database in
             let database := SetStage database targetStage in
             let '(targetConn, err) :=
               FixedTiersCopy.GetConnectionStringForStage cfg database targetStage in
             match err with
             | Some e =>
                 let database := SetStage database originalStage in
                 ret (Some (Errorf "failed to get target connection string: %v" [ArgError e]),
                      database)
             | None =>
                 err <- sql_Open targetConn ;;
                 match err with
                 | Some e =>
                     let database := SetStage database originalStage in
                     ret (Some (Errorf "failed to open target database: %v" [ArgError e]),
                          database)
                 | None =>
                     deferring (db_Close targetConn)
                       (err <- copyDatabaseData database originalStage targetStage ;;
                        match err with
                        | Some e =>
                            let database := SetStage database originalStage in
                            ret (Some (Errorf "failed to copy database data: %v" [ArgError e]),
                                 database)
                        | None =>
                            let database := updateDatabasePath database targetStage in
                            ret (None, database)
                        end)
                 end
             end)
      end
  end.

Definition MoveToStage (database : Database) (targetStage : Z)
  : M (option error * Database) :=
  if (targetStage <? 1) || (targetStage >? 3) then
    ret (Some (Errorf "invalid stage: %d. Valid stages are 1-3" [ArgUint targetStage]), database)
  else if Stage database =? targetStage then ret (None, database)
  else if targetStage <? Stage database then syncDown database targetStage
  else syncUp database targetStage.

(** The loop of [SyncToAllLowerStages],
    [for stage := database.GetStage() - 1; stage >= 1; stage--], on an
    unsigned [stage]. *)
Fixpoint sync_lower_loop (fuel : nat) (originalStage : Z) (database : Database) (stage : Z)
  : World -> option (option error * Database * World) :=
  fun w =>
    match fuel with
    | O => None
    | S fuel' =>
        if stage >=? 1 then
          let '((err, database), w) := syncDown database stage w in
          match err with
          | Some e =>
              Some (Some (Errorf "failed to sync to stage %d: %v" [ArgUint stage; ArgError e]),
                    database, w)
          | None =>
              let database := SetStage database originalStage in
              sync_lower_loop fuel' originalStage database (uint_dec stage) w
          end
        else Some (None, database, w)
    end.

Definition SyncToAllLowerStages (fuel : nat) (database : Database)
  : World -> option (option error * Database * World) :=
  let originalStage := Stage database in
  sync_lower_loop fuel originalStage database (uint_dec (Stage database)).

End Moves.

End FixedTiersStages.

(* ================================================================== *)
(** ** Reference definitions for the properties of the calls *)

Definition is_mutex_call (c : call) : bool :=
  match c with
  | CallLock _ | CallUnlock _ => true
  | _ => false
  end.

Definition is_delete_call (c : call) : bool :=
  match c with
  | CallMemoryDelete _ | CallLocalDelete _ | CallRemoteDelete _ => true
  | _ => false
  end.

Definition not_mutex_call (c : call) : bool := negb (is_mutex_call c).

(** A call that leaves the copy at stage [current] alone: it is no deletion
    in the memory store, none in the local file system when [current] is the
    local stage, and none in the remote store when [current] is the remote
    stage. *)
Definition spares_stage (U : StageUtils) (current : Z) (c : call) : bool :=
  match c with
  | CallMemoryDelete _ => false
  | CallLocalDelete _ => negb (current =? GetLocalStage U)
  | CallRemoteDelete _ => negb (current =? GetRemoteStage U)
  | _ => true
  end.

(** The same for the revision that reads the tiers from the configuration:
    no deletion in the store that holds stage [current]. *)
Definition spares_tier (cfg : Config) (current : Z) (c : call) : bool :=
  match c with
  | CallMemoryDelete _ => negb (current =? Memory_StageNumber cfg)
  | CallLocalDelete _ => negb (current =? Local_StageNumber cfg)
  | CallRemoteDelete _ => negb (current =? Remote_StageNumber cfg)
  | _ => true
  end.

(** An answer that makes [executeDatabaseCopy] try again: a failure whose
    message says that the output file exists already. *)
Definition retryable (r : reply) : bool :=
  match reply_failure r with
  | Some msg => Contains msg "output file already exists"
  | None => false
  end.

(** The number of attempts [executeDatabaseCopy] makes against a script. *)
Definition copy_attempts (replies : list reply) : nat :=
  if retryable (nth 0 replies ROk) then
    if retryable (nth 1 replies ROk) then 3 else 2
  else 1.

(** The calls of [n] attempts: the statement, with a pause of 100 ms before
    each further attempt. *)
Fixpoint retry_calls (sourceDB targetConnection : string) (n : nat) : list call :=
  match n with
  | O => []
  | S O => [CallExec sourceDB "VACUUM INTO ?" [targetConnection]]
  | S n' =>
      CallExec sourceDB "VACUUM INTO ?" [targetConnection]
      :: CallSleep 100 :: retry_calls sourceDB targetConnection n'
  end.

(** The first failure among some answers, as an error. *)
Fixpoint first_failure (replies : list reply) : option error :=
  match replies with
  | [] => None
  | r :: replies' =>
      match reply_error r with
      | Some e => Some e
      | None => first_failure replies'
      end
  end.

(** The number of answers [initialize] asks for when nothing fails: the
    open, the ping, and one statement, or two in the remote tier. *)
Definition initialize_asks (cfg : Config) (stage : Z) : nat :=
  if stage =? Remote_StageNumber cfg then 4 else 3.

(** The path [CreateDatabaseAndInitialize] gives a new record. *)
Definition creation_path (cfg : Config) (name : string) (stage : Z) : string :=
  if stage =? Memory_StageNumber cfg then "/" ++ name
  else if stage =? Local_StageNumber cfg then "./storage/" ++ name ++ ".db"
  else name.

Definition is_configured_tier (cfg : Config) (stage : Z) : bool :=
  (stage =? Memory_StageNumber cfg) || (stage =? Local_StageNumber cfg)
  || (stage =? Remote_StageNumber cfg).

(** What a move of the revision with the memory tier leaves of the record:
    untouched with an error; at the target stage with the path of that tier,
    which then is a configured one, without. *)
Definition moved_or_restored (cfg : Config) (db : Database) (t : Z) (err : option error)
    (db' : Database) : Prop :=
  match err with
  | Some _ => db' = db
  | None =>
      db' = FixedTiersStages.updateDatabasePath cfg (SetStage db t) t
      /\ is_configured_tier cfg t = true
  end.

(** The files of a listing that [ListDatabases] turns into records. *)
Definition is_database_file (file : FileInfo) : bool :=
  negb (file_IsDir file) && HasSuffix (file_Name file) ".db".

(** No call deletes the file [path] of the local file system. *)
Definition keeps_file (path : string) (c : call) : bool :=
  match c with
  | CallLocalDelete deleted => negb (String.eqb deleted path)
  | _ => true
  end.

(** The calls that take an answer of the script. *)
Definition asks_reply (c : call) : bool :=
  match c with
  | CallOpen _ | CallPing _ | CallExec _ _ _ | CallQuery _ _ | CallQueryRow _ _
  | CallLocalDelete _ | CallRemoteDelete _ => true
  | _ => false
  end.

Definition is_handle_call (c : call) : bool :=
  match c with
  | CallOpen _ | CallClose _ => true
  | _ => false
  end.

Fixpoint remove_handle (conn : string) (held : list string) : list string :=
  match held with
  | [] => []
  | h :: held' => if (h =? conn)%string then held' else h :: remove_handle conn held'
  end.

(** The bookkeeping of database handles along a log of calls: the answers
    that are left and the handles that are open.  An open that is answered
    without a failure adds a handle, a close takes one away. *)
Definition handle_step (state : list reply * list string) (c : call)
  : list reply * list string :=
  let (replies, held) := state in
  match c with
  | CallOpen conn =>
      (tl replies, if is_nil (reply_error (hd ROk replies)) then conn :: held else held)
  | CallClose conn => (replies, remove_handle conn held)
  | _ => (if asks_reply c then tl replies else replies, held)
  end.

Definition handles_after (replies : list reply) (held : list string) (cs : list call)
  : list reply * list string :=
  fold_left handle_step cs (replies, held).

(** A computation that has closed, when it returns, every handle it
    opened. *)
Definition closes_its_handles {A : Type} (m : M A) : Prop :=
  forall (w : World) (held : list string),
    exists more : list call,
      calls (snd (m w)) = (calls w ++ more)%list
      /\ handles_after (script w) held more = (script (snd (m w)), held).

(** Every call the computation makes satisfies [P]. *)
Definition emits {A : Type} (P : call -> bool) (m : M A) : Prop :=
  forall w : World,
    exists more : list call,
      calls (snd (m w)) = (calls w ++ more)%list /\ Forall (fun c => P c = true) more.

(** The calls from [w] to [w'] are a lock of the mutex of [record], calls
    that satisfy [P], and an unlock of the mutex. *)
Definition bracketed (record : string) (P : call -> bool) (w w' : World) : Prop :=
  exists inner : list call,
    calls w' = (calls w ++ [CallLock record] ++ inner ++ [CallUnlock record])%list
    /\ Forall (fun c => P c = true) inner.

(* ================================================================== *)
(** * Properties *)

(** ** Machine integers *)

Lemma uint_wrap_range (n : Z) : is_uint (uint_wrap n).
Proof.
  unfold is_uint, uint_wrap, uint_modulus.
  apply Z.mod_pos_bound. reflexivity.
Qed.

Lemma uint_dec_exact (n : Z) : 1 <= n -> n <= uint_modulus -> uint_dec n = n - 1.
Proof.
  intros Hlow Hhigh. unfold uint_dec, uint_wrap.
  apply Z.mod_small. lia.
Qed.

Lemma uint_dec_zero : uint_dec 0 = uint_modulus - 1.
Proof. reflexivity. Qed.

Lemma time_Since_exact (now t : Z) :
  int64_min <= now - t <= int64_max -> time_Since now t = now - t.
Proof.
  intros [Hlow Hhigh]. unfold time_Since, int64_saturate.
  destruct (Z.ltb_spec (now - t) int64_min); [lia|].
  destruct (Z.ltb_spec int64_max (now - t)); [lia | reflexivity].
Qed.

Lemma int64_wrap_exact (n : Z) : int64_min <= n <= int64_max -> int64_wrap n = n.
Proof.
  unfold int64_min, int64_max, int64_wrap. intros H.
  rewrite Z.mod_small; lia.
Qed.

(** ** Strings *)

Lemma append_empty_r (s : string) : s ++ "" = s.
Proof. induction s as [|c s IH]; simpl; [reflexivity | now rewrite IH]. Qed.

Lemma append_assoc (a b c : string) : (a ++ b) ++ c = a ++ (b ++ c).
Proof. induction a as [|x a IH]; simpl; [reflexivity | now rewrite IH]. Qed.

Lemma append_length (a b : string) :
  String.length (a ++ b) = (String.length a + String.length b)%nat.
Proof. induction a as [|x a IH]; simpl; [reflexivity | now rewrite IH]. Qed.

Lemma HasPrefix_app (k rest : string) : HasPrefix (k ++ rest) k = true.
Proof.
  induction k as [|p k IH]; simpl; [reflexivity|].
  now rewrite Ascii.eqb_refl.
Qed.

Lemma HasPrefix_split (s k : string) :
  HasPrefix s k = true -> exists rest, s = k ++ rest.
Proof.
  revert s. induction k as [|p k IH]; intros s H.
  - now exists s.
  - destruct s as [|c s]; simpl in H; [discriminate|].
    apply andb_true_iff in H as [Hc Hk].
    apply Ascii.eqb_eq in Hc as ->.
    destruct (IH _ Hk) as [rest ->]. now exists rest.
Qed.

Lemma drop_split (n : nat) (s : string) : exists pre, s = pre ++ drop n s.
Proof.
  revert s. induction n as [|n IH]; intros s.
  - now exists "".
  - destruct s as [|c s]; [now exists ""|].
    destruct (IH s) as [pre Hpre]. exists (String c pre). simpl. now rewrite <- Hpre.
Qed.

Lemma drop_app (pre s : string) : drop (String.length pre) (pre ++ s) = s.
Proof. induction pre as [|c pre IH]; simpl; auto. Qed.

(** [HasSuffix] is the test that the text ends with the suffix. *)
Lemma HasSuffix_spec (s suf : string) :
  HasSuffix s suf = true <-> exists pre, s = pre ++ suf.
Proof.
  unfold HasSuffix. split.
  - intros H. apply andb_true_iff in H as [_ H].
    apply String.eqb_eq in H.
    destruct (drop_split (String.length s - String.length suf) s) as [pre Hpre].
    exists pre. now rewrite <- H.
  - intros [pre ->]. rewrite append_length.
    apply andb_true_iff. split.
    + apply Nat.leb_le. lia.
    + replace (String.length pre + String.length suf - String.length suf)%nat
        with (String.length pre) by lia.
      rewrite drop_app. apply String.eqb_refl.
Qed.

(** ** Text in UTF-8 *)

(** *** Bytes *)

Lemma byte_of_range (c : ascii) : 0 <= byte_of c < 256.
Proof.
  unfold byte_of. pose proof (N_ascii_bounded c) as H. lia.
Qed.

Lemma of_byte_byte_of (c : ascii) : of_byte (byte_of c) = c.
Proof.
  unfold of_byte. rewrite Z.mod_small by apply byte_of_range.
  unfold byte_of. rewrite N2Z.id. apply ascii_N_embedding.
Qed.

Lemma byte_of_of_byte (x : Z) : 0 <= x < 256 -> byte_of (of_byte x) = x.
Proof.
  intros H. unfold of_byte, byte_of. rewrite Z.mod_small by exact H.
  rewrite N_ascii_embedding by lia. lia.
Qed.

Lemma byte_of_inj (c d : ascii) : byte_of c = byte_of d -> c = d.
Proof. intros H. rewrite <- (of_byte_byte_of c), <- (of_byte_byte_of d). now rewrite H. Qed.

(** *** The bit operations of the UTF-8 coding *)

Lemma land_high_low (a b k : Z) : 0 <= k -> 0 <= b < 2 ^ k -> Z.land (a * 2 ^ k) b = 0.
Proof.
  intros Hk Hb. apply Z.bits_inj'. intros n Hn.
  rewrite Z.land_spec, Z.bits_0.
  destruct (Z.lt_ge_cases n k) as [Hlow|Hhigh].
  - rewrite Z.mul_pow2_bits_low by exact Hlow. reflexivity.
  - destruct (Z.eq_dec b 0) as [->|Hnz].
    + rewrite Z.bits_0. apply andb_false_r.
    + rewrite (Z.bits_above_log2 b n); [apply andb_false_r | lia |].
      apply Z.log2_lt_pow2; [lia|].
      apply Z.lt_le_trans with (2 ^ k); [lia|]. apply Z.pow_le_mono_r; lia.
Qed.

Lemma lor_high_low (a b k : Z) :
  0 <= k -> 0 <= b < 2 ^ k -> Z.lor (a * 2 ^ k) b = a * 2 ^ k + b.
Proof.
  intros Hk Hb. rewrite <- Zbitwise.Z.add_lor_land.
  rewrite land_high_low by assumption. lia.
Qed.

Lemma land_mask (x k : Z) : 0 <= k -> Z.land x (2 ^ k - 1) = x mod 2 ^ k.
Proof.
  intros Hk. rewrite <- Z.land_ones by exact Hk. f_equal.
  rewrite Z.ones_equiv. lia.
Qed.

Lemma lor_tag (tag x k : Z) :
  0 <= k -> 0 <= x < 2 ^ k -> tag mod 2 ^ k = 0 -> Z.lor tag x = tag + x.
Proof.
  intros Hk Hx Htag.
  replace tag with (tag / 2 ^ k * 2 ^ k) at 1.
  - rewrite lor_high_low by assumption.
    pose proof (Z.div_mod tag (2 ^ k)) as H. lia.
  - pose proof (Z.div_mod tag (2 ^ k)) as H. lia.
Qed.

Lemma land_63 (x : Z) : Z.land x 63 = x mod 64.
Proof. exact (land_mask x 6 ltac:(lia)). Qed.

Lemma land_31 (x : Z) : Z.land x 31 = x mod 32.
Proof. exact (land_mask x 5 ltac:(lia)). Qed.

Lemma land_15 (x : Z) : Z.land x 15 = x mod 16.
Proof. exact (land_mask x 4 ltac:(lia)). Qed.

Lemma land_7 (x : Z) : Z.land x 7 = x mod 8.
Proof. exact (land_mask x 3 ltac:(lia)). Qed.

Lemma shiftl_6 (x : Z) : Z.shiftl x 6 = x * 64.
Proof. exact (Z.shiftl_mul_pow2 x 6 ltac:(lia)). Qed.

Lemma shiftl_12 (x : Z) : Z.shiftl x 12 = x * 4096.
Proof. exact (Z.shiftl_mul_pow2 x 12 ltac:(lia)). Qed.

Lemma shiftl_18 (x : Z) : Z.shiftl x 18 = x * 262144.
Proof. exact (Z.shiftl_mul_pow2 x 18 ltac:(lia)). Qed.

Lemma shiftr_6 (x : Z) : Z.shiftr x 6 = x / 64.
Proof. exact (Z.shiftr_div_pow2 x 6 ltac:(lia)). Qed.

Lemma shiftr_12 (x : Z) : Z.shiftr x 12 = x / 4096.
Proof. exact (Z.shiftr_div_pow2 x 12 ltac:(lia)). Qed.

Lemma shiftr_18 (x : Z) : Z.shiftr x 18 = x / 262144.
Proof. exact (Z.shiftr_div_pow2 x 18 ltac:(lia)). Qed.

(** The value of an encoding of two, three and four bytes. *)
Lemma decode2_value (s0 s1 : Z) :
  Z.lor (Z.shiftl (Z.land s0 31) 6) (Z.land s1 63) = s0 mod 32 * 64 + s1 mod 64.
Proof.
  rewrite land_31, land_63, shiftl_6.
  apply (lor_high_low _ _ 6); [lia|]. apply Z.mod_pos_bound. lia.
Qed.

Lemma decode3_value (s0 s1 s2 : Z) :
  Z.lor (Z.shiftl (Z.land s0 15) 12) (Z.lor (Z.shiftl (Z.land s1 63) 6) (Z.land s2 63))
  = s0 mod 16 * 4096 + s1 mod 64 * 64 + s2 mod 64.
Proof.
  rewrite land_15, !land_63, shiftl_6, shiftl_12.
  pose proof (Z.mod_pos_bound s1 64 ltac:(lia)). pose proof (Z.mod_pos_bound s2 64 ltac:(lia)).
  rewrite (lor_high_low _ _ 6) by lia.
  rewrite (lor_high_low _ _ 12) by lia. lia.
Qed.

Lemma decode4_value (s0 s1 s2 s3 : Z) :
  Z.lor (Z.shiftl (Z.land s0 7) 18)
    (Z.lor (Z.shiftl (Z.land s1 63) 12) (Z.lor (Z.shiftl (Z.land s2 63) 6) (Z.land s3 63)))
  = s0 mod 8 * 262144 + s1 mod 64 * 4096 + s2 mod 64 * 64 + s3 mod 64.
Proof.
  rewrite land_7, !land_63, shiftl_6, shiftl_12, shiftl_18.
  pose proof (Z.mod_pos_bound s1 64 ltac:(lia)). pose proof (Z.mod_pos_bound s2 64 ltac:(lia)).
  pose proof (Z.mod_pos_bound s3 64 ltac:(lia)).
  rewrite (lor_high_low _ _ 6) by lia.
  rewrite (lor_high_low _ _ 12) by lia.
  rewrite (lor_high_low _ _ 18) by lia. lia.
Qed.

(** [EncodeRune] in arithmetic, by the number of bytes. *)
Lemma EncodeRune_1 (r : Z) : r <= 127 -> EncodeRune r = String (of_byte r) "".
Proof. intros H. unfold EncodeRune. now destruct (Z.leb_spec r 127); [|lia]. Qed.

Lemma EncodeRune_2 (r : Z) :
  128 <= r <= 2047 ->
  EncodeRune r = String (of_byte (192 + r / 64)) (String (of_byte (128 + r mod 64)) "").
Proof.
  intros H. unfold EncodeRune.
  destruct (Z.leb_spec r 127); [lia|]. destruct (Z.leb_spec r 2047); [|lia].
  rewrite shiftr_6, land_63.
  rewrite (lor_tag 192 _ 6), (lor_tag 128 _ 6); try reflexivity; try lia.
  - apply Z.mod_pos_bound. lia.
  - split; [apply Z.div_pos; lia|]. apply Z.div_lt_upper_bound; lia.
Qed.

Lemma EncodeRune_3 (r : Z) :
  2048 <= r <= 65535 -> ~ (surrogateMin <= r <= surrogateMax) ->
  EncodeRune r
  = String (of_byte (224 + r / 4096))
      (String (of_byte (128 + r / 64 mod 64)) (String (of_byte (128 + r mod 64)) "")).
Proof.
  intros H Hsur. unfold EncodeRune, MaxRune, surrogateMin, surrogateMax in *.
  destruct (Z.leb_spec r 127); [lia|]. destruct (Z.leb_spec r 2047); [lia|].
  destruct (Z.ltb_spec 1114111 r); [lia|].
  replace ((55296 <=? r) && (r <=? 57343)) with false
    by (symmetry; apply andb_false_iff;
        destruct (Z.leb_spec 55296 r); destruct (Z.leb_spec r 57343); auto; lia).
  simpl orb. cbv iota. destruct (Z.leb_spec r 65535); [|lia].
  rewrite shiftr_6, shiftr_12, !land_63.
  rewrite (lor_tag 224 _ 4), !(lor_tag 128 _ 6); try reflexivity; try lia.
  - apply Z.mod_pos_bound. lia.
  - apply Z.mod_pos_bound. lia.
  - split; [apply Z.div_pos; lia|]. apply Z.div_lt_upper_bound; lia.
Qed.

Lemma EncodeRune_4 (r : Z) :
  65536 <= r <= MaxRune ->
  EncodeRune r
  = String (of_byte (240 + r / 262144))
      (String (of_byte (128 + r / 4096 mod 64))
         (String (of_byte (128 + r / 64 mod 64)) (String (of_byte (128 + r mod 64)) ""))).
Proof.
  intros H. unfold EncodeRune, MaxRune, surrogateMin, surrogateMax in *.
  destruct (Z.leb_spec r 127); [lia|]. destruct (Z.leb_spec r 2047); [lia|].
  destruct (Z.ltb_spec 1114111 r); [lia|].
  replace ((55296 <=? r) && (r <=? 57343)) with false
    by (symmetry; apply andb_false_iff;
        destruct (Z.leb_spec 55296 r); destruct (Z.leb_spec r 57343); auto; lia).
  simpl orb. cbv iota. destruct (Z.leb_spec r 65535); [lia|].
  rewrite shiftr_6, shiftr_12, shiftr_18, !land_63.
  rewrite (lor_tag 240 _ 3), !(lor_tag 128 _ 6); try reflexivity; try lia.
  - apply Z.mod_pos_bound. lia.
  - apply Z.mod_pos_bound. lia.
  - apply Z.mod_pos_bound. lia.
  - split; [apply Z.div_pos; lia|]. apply Z.div_lt_upper_bound; lia.
Qed.

(** *** The decoder of UTF-8 *)

Lemma first_cases (s0 : Z) :
  0 <= s0 < 256 ->
  match first s0 with
  | AsciiByte => s0 < 128
  | InvalidByte => 128 <= s0
  | LeadByte sz lo hi =>
      (sz = 2%nat /\ 194 <= s0 <= 223 /\ lo = 128 /\ hi = 191)
      \/ (sz = 3%nat
          /\ ((s0 = 224 /\ lo = 160 /\ hi = 191) \/ (225 <= s0 <= 236 /\ lo = 128 /\ hi = 191)
              \/ (s0 = 237 /\ lo = 128 /\ hi = 159) \/ (238 <= s0 <= 239 /\ lo = 128 /\ hi = 191)))
      \/ (sz = 4%nat
          /\ ((s0 = 240 /\ lo = 144 /\ hi = 191) \/ (241 <= s0 <= 243 /\ lo = 128 /\ hi = 191)
              \/ (s0 = 244 /\ lo = 128 /\ hi = 143)))
  end.
Proof.
  intros H. unfold first, locb, hicb.
  repeat match goal with
         | |- context [?x <? ?y] => destruct (Z.ltb_spec x y)
         | |- context [?x =? ?y] => destruct (Z.eqb_spec x y)
         end; lia.
Qed.

Ltac split_tests :=
  repeat match goal with
         | |- context [(?x <? ?y) || (?z <? ?t)] =>
             destruct (Z.ltb_spec x y); destruct (Z.ltb_spec z t); cbn [orb]
         end.

Ltac step := cbn [fst snd Nat.ltb Nat.leb String.length orb negb].

Lemma decode_decoded (s : string) :
  s <> "" ->
  decoded s (fst (DecodeRuneInString s)) (snd (DecodeRuneInString s)).
Proof.
  destruct s as [|c0 t0]; [congruence|]. intros _.
  unfold DecodeRuneInString.
  pose proof (byte_of_range c0) as H0. pose proof (first_cases _ H0) as Hfirst.
  destruct (first (byte_of c0)) as [| |sz lo hi]; step.
  - now constructor.
  - now constructor.
  - destruct Hfirst as [(-> & Hs0 & -> & ->)|[(-> & Hs0)|(-> & Hs0)]].
    + destruct t0 as [|c1 t1]; step; [constructor; lia|].
      split_tests; step; try (constructor; lia).
      rewrite decode2_value. constructor; lia.
    + destruct t0 as [|c1 [|c2 t2]]; step; try (constructor; lia).
      assert (Hacc : (byte_of c1 <? lo) || (hi <? byte_of c1) = false
                       -> accept3 (byte_of c0) (byte_of c1)).
        { intros Hin. apply orb_false_iff in Hin as [Hlo Hhi].
          apply Z.ltb_ge in Hlo, Hhi. unfold accept3. lia. }
        destruct ((byte_of c1 <? lo) || (hi <? byte_of c1)); step; [constructor; lia|].
        unfold locb, hicb. split_tests; step; try (constructor; lia).
        rewrite decode3_value. constructor; [auto | lia].
    + destruct t0 as [|c1 [|c2 [|c3 t3]]]; step; try (constructor; lia).
      assert (Hacc : (byte_of c1 <? lo) || (hi <? byte_of c1) = false
                       -> accept4 (byte_of c0) (byte_of c1)).
        { intros Hin. apply orb_false_iff in Hin as [Hlo Hhi].
          apply Z.ltb_ge in Hlo, Hhi. unfold accept4. lia. }
        destruct ((byte_of c1 <? lo) || (hi <? byte_of c1)); step; [constructor; lia|].
        unfold locb, hicb. split_tests; step; try (constructor; lia).
        rewrite decode4_value. constructor; [auto | lia | lia].
Qed.

Lemma decode_inv (s : string) (r : Z) (n : nat) :
  s <> "" -> DecodeRuneInString s = (r, n) -> decoded s r n.
Proof.
  intros Hs H. pose proof (decode_decoded s Hs) as Hd. now rewrite H in Hd.
Qed.

Lemma first_ascii (s0 : Z) : 0 <= s0 < 128 -> first s0 = AsciiByte.
Proof. intros H. unfold first. destruct (Z.ltb_spec s0 128); [reflexivity | lia]. Qed.

Lemma first_2 (s0 : Z) : 194 <= s0 <= 223 -> first s0 = LeadByte 2 128 191.
Proof.
  intros H. unfold first, locb, hicb.
  repeat match goal with
         | |- context [?x <? ?y] => destruct (Z.ltb_spec x y)
         | |- context [?x =? ?y] => destruct (Z.eqb_spec x y)
         end; try lia; reflexivity.
Qed.

Lemma first_3 (s0 s1 : Z) :
  accept3 s0 s1 ->
  exists lo hi, first s0 = LeadByte 3 lo hi /\ lo <= s1 <= hi.
Proof.
  intros H. unfold first, locb, hicb, accept3 in *.
  repeat match goal with
         | |- context [?x <? ?y] => destruct (Z.ltb_spec x y)
         | |- context [?x =? ?y] => destruct (Z.eqb_spec x y)
         end; try lia; eexists _, _; (split; [reflexivity | lia]).
Qed.

Lemma first_4 (s0 s1 : Z) :
  accept4 s0 s1 ->
  exists lo hi, first s0 = LeadByte 4 lo hi /\ lo <= s1 <= hi.
Proof.
  intros H. unfold first, locb, hicb, accept4 in *.
  repeat match goal with
         | |- context [?x <? ?y] => destruct (Z.ltb_spec x y)
         | |- context [?x =? ?y] => destruct (Z.eqb_spec x y)
         end; try lia; eexists _, _; (split; [reflexivity | lia]).
Qed.

Lemma in_range (lo hi x : Z) : lo <= x <= hi -> (x <? lo) || (hi <? x) = false.
Proof.
  intros H. destruct (Z.ltb_spec x lo); [lia|]. destruct (Z.ltb_spec hi x); [lia | reflexivity].
Qed.

Lemma decode_ascii (c : ascii) (t : string) :
  byte_of c < 128 -> DecodeRuneInString (String c t) = (byte_of c, 1%nat).
Proof.
  intros H. unfold DecodeRuneInString.
  rewrite first_ascii; [reflexivity|]. pose proof (byte_of_range c). lia.
Qed.

Lemma decode_2 (c0 c1 : ascii) (t : string) :
  194 <= byte_of c0 <= 223 -> 128 <= byte_of c1 <= 191 ->
  DecodeRuneInString (String c0 (String c1 t))
  = (byte_of c0 mod 32 * 64 + byte_of c1 mod 64, 2%nat).
Proof.
  intros H0 H1. unfold DecodeRuneInString. rewrite first_2 by exact H0. step.
  rewrite in_range by exact H1. now rewrite decode2_value.
Qed.

Lemma decode_3 (c0 c1 c2 : ascii) (t : string) :
  accept3 (byte_of c0) (byte_of c1) -> 128 <= byte_of c2 <= 191 ->
  DecodeRuneInString (String c0 (String c1 (String c2 t)))
  = (byte_of c0 mod 16 * 4096 + byte_of c1 mod 64 * 64 + byte_of c2 mod 64, 3%nat).
Proof.
  intros H0 H2. unfold DecodeRuneInString.
  destruct (first_3 _ _ H0) as (lo & hi & -> & H1). step.
  rewrite in_range by exact H1. unfold locb, hicb. rewrite in_range by exact H2.
  now rewrite decode3_value.
Qed.

Lemma decode_4 (c0 c1 c2 c3 : ascii) (t : string) :
  accept4 (byte_of c0) (byte_of c1) -> 128 <= byte_of c2 <= 191 -> 128 <= byte_of c3 <= 191 ->
  DecodeRuneInString (String c0 (String c1 (String c2 (String c3 t))))
  = (byte_of c0 mod 8 * 262144 + byte_of c1 mod 64 * 4096 + byte_of c2 mod 64 * 64
     + byte_of c3 mod 64, 4%nat).
Proof.
  intros H0 H2 H3. unfold DecodeRuneInString.
  destruct (first_4 _ _ H0) as (lo & hi & -> & H1). step.
  rewrite in_range by exact H1. unfold locb, hicb. rewrite !in_range by assumption.
  now rewrite decode4_value.
Qed.

(** A rune takes at least one byte and no more than the text has. *)
Lemma decode_width (s : string) :
  s <> "" ->
  (1 <= snd (DecodeRuneInString s) <= String.length s)%nat.
Proof.
  intros Hs. pose proof (decode_decoded s Hs) as H.
  inversion H; simpl; lia.
Qed.

Ltac lia_mod := Z.div_mod_to_equations; lia.

(** The bytes of a rune that was read from a valid encoding are the bytes
    [EncodeRune] writes for it. *)
Lemma decode_encode (s : string) (r : Z) (n : nat) :
  s <> "" -> DecodeRuneInString s = (r, n) ->
  r <> RuneError \/ n <> 1%nat ->
  take n s = EncodeRune r.
Proof.
  intros Hs H Hvalid. apply decode_inv in H; [|exact Hs].
  inversion H as [c t Hc|c t Hc|c0 c1 t H0 H1|c0 c1 c2 t H0 H2|c0 c1 c2 c3 t H0 H2 H3]; subst.
  - pose proof (byte_of_range c). rewrite EncodeRune_1 by lia.
    cbn [take]. now rewrite of_byte_byte_of.
  - tauto.
  - pose proof (byte_of_range c0). pose proof (byte_of_range c1).
    rewrite EncodeRune_2 by lia_mod. cbn [take]. f_equal; [|f_equal].
    + rewrite <- (of_byte_byte_of c0) at 1. f_equal. lia_mod.
    + rewrite <- (of_byte_byte_of c1) at 1. f_equal. lia_mod.
  - pose proof (byte_of_range c0). pose proof (byte_of_range c1).
    pose proof (byte_of_range c2). unfold accept3 in H0.
    rewrite EncodeRune_3 by (unfold surrogateMin, surrogateMax; lia_mod).
    cbn [take]. f_equal; [|f_equal; [|f_equal]].
    + rewrite <- (of_byte_byte_of c0) at 1. f_equal. lia_mod.
    + rewrite <- (of_byte_byte_of c1) at 1. f_equal. lia_mod.
    + rewrite <- (of_byte_byte_of c2) at 1. f_equal. lia_mod.
  - pose proof (byte_of_range c0). pose proof (byte_of_range c1).
    pose proof (byte_of_range c2). pose proof (byte_of_range c3). unfold accept4 in H0.
    rewrite EncodeRune_4 by (unfold MaxRune; lia_mod).
    cbn [take]. f_equal; [|f_equal; [|f_equal; [|f_equal]]].
    + rewrite <- (of_byte_byte_of c0) at 1. f_equal. lia_mod.
    + rewrite <- (of_byte_byte_of c1) at 1. f_equal. lia_mod.
    + rewrite <- (of_byte_byte_of c2) at 1. f_equal. lia_mod.
    + rewrite <- (of_byte_byte_of c3) at 1. f_equal. lia_mod.
Qed.

(** *** Slices of a text *)

Lemma take_drop (n : nat) (s : string) : take n s ++ drop n s = s.
Proof.
  revert s. induction n as [|n IH]; intros s; [reflexivity|].
  destruct s as [|c s]; [reflexivity|]. simpl. now rewrite IH.
Qed.

Lemma take_length (n : nat) (s : string) :
  String.length (take n s) = Nat.min n (String.length s).
Proof.
  revert s. induction n as [|n IH]; intros [|c s]; simpl; auto.
Qed.

Lemma drop_length (n : nat) (s : string) :
  String.length (drop n s) = (String.length s - n)%nat.
Proof.
  revert s. induction n as [|n IH]; intros [|c s]; simpl; auto.
Qed.

Lemma take_all (n : nat) (s : string) : (String.length s <= n)%nat -> take n s = s.
Proof.
  revert s. induction n as [|n IH]; intros [|c s] H; simpl in *; try reflexivity; try lia.
  rewrite IH; [reflexivity | lia].
Qed.

Lemma drop_all (n : nat) (s : string) : (String.length s <= n)%nat -> drop n s = "".
Proof.
  revert s. induction n as [|n IH]; intros [|c s] H; simpl in *; try reflexivity; try lia.
  apply IH. lia.
Qed.

Lemma take_app (pre s : string) : take (String.length pre) (pre ++ s) = pre.
Proof. induction pre as [|c pre IH]; simpl; [reflexivity | now rewrite IH]. Qed.

Lemma take_app_more (pre s : string) (n : nat) :
  take (String.length pre + n) (pre ++ s) = pre ++ take n s.
Proof. induction pre as [|c pre IH]; simpl; [reflexivity | now rewrite IH]. Qed.

Lemma drop_drop (n m : nat) (s : string) : drop n (drop m s) = drop (m + n) s.
Proof.
  revert s. induction m as [|m IH]; intros s; [reflexivity|].
  destruct s as [|c s]; simpl; [now destruct n | apply IH].
Qed.

Lemma drop_take (n m : nat) (s : string) : drop n (take (n + m) s) = take m (drop n s).
Proof.
  revert s. induction n as [|n IH]; intros s; [reflexivity|].
  destruct s as [|c s]; simpl; [now destruct m | apply IH].
Qed.

Lemma take_take (n : nat) (s : string) : take n (take n s) = take n s.
Proof.
  revert s. induction n as [|n IH]; intros [|c s]; simpl; try reflexivity. now rewrite IH.
Qed.

Lemma empty_length (s : string) : String.length s = 0%nat -> s = "".
Proof. now destruct s. Qed.

(** A rune that takes two bytes or more is read the same when the text goes
    on after it. *)
Lemma decode_take (s : string) (r : Z) (n : nat) :
  (2 <= n)%nat -> DecodeRuneInString (take n s) = (r, n) -> DecodeRuneInString s = (r, n).
Proof.
  intros Hn H.
  assert (Hs : take n s <> "").
  { intros Hempty. rewrite Hempty in H. simpl in H. injection H as _ <-. lia. }
  apply decode_inv in H; [|exact Hs].
  inversion H as [c t Hc Heq|c t Hc Heq|c0 c1 t H0 H1 Heq|c0 c1 c2 t H0 H2 Heq
                  |c0 c1 c2 c3 t H0 H2 H3 Heq]; subst; try lia.
  - destruct s as [|d0 [|d1 s]]; try discriminate. simpl in Heq.
    injection Heq as -> -> _. now apply decode_2.
  - destruct s as [|d0 [|d1 [|d2 s]]]; try discriminate. simpl in Heq.
    injection Heq as -> -> -> _. now apply decode_3.
  - destruct s as [|d0 [|d1 [|d2 [|d3 s]]]]; try discriminate. simpl in Heq.
    injection Heq as -> -> -> -> _. now apply decode_4.
Qed.

(** A rune below [RuneSelf] was read from the one byte that is its value. *)
Lemma decode_small (s : string) (r : Z) (n : nat) :
  s <> "" -> DecodeRuneInString s = (r, n) -> r < 128 ->
  n = 1%nat /\ exists c t, s = String c t /\ byte_of c = r.
Proof.
  intros Hs H Hr. apply decode_inv in H; [|exact Hs].
  inversion H as [c t Hc|c t Hc|c0 c1 t H0 H1|c0 c1 c2 t H0 H2|c0 c1 c2 c3 t H0 H2 H3]; subst.
  - eauto.
  - unfold RuneError in Hr. lia.
  - pose proof (byte_of_range c0). pose proof (byte_of_range c1). lia_mod.
  - pose proof (byte_of_range c0). pose proof (byte_of_range c1).
    pose proof (byte_of_range c2). unfold accept3 in H0. lia_mod.
  - pose proof (byte_of_range c0). pose proof (byte_of_range c1).
    pose proof (byte_of_range c2). pose proof (byte_of_range c3). unfold accept4 in H0. lia_mod.
Qed.

(** A rune read from one byte is that byte, below [RuneSelf], or the error. *)
Lemma decode_one_byte (s : string) (r : Z) :
  s <> "" -> DecodeRuneInString s = (r, 1%nat) -> r < 128 \/ r = RuneError.
Proof.
  intros Hs H. apply decode_inv in H; [|exact Hs].
  inversion H; subst; auto.
Qed.

(** *** White space *)

Lemma IsSpace_runes (r : Z) : unicode_IsSpace r = true <-> In r space_runes.
Proof.
  split.
  - unfold unicode_IsSpace. intros H.
    destruct ((0 <=? r) && (r <=? 255)) eqn:Hlatin.
    + repeat rewrite ?orb_true_iff, ?andb_true_iff, ?Z.eqb_eq, ?Z.leb_le in H.
      unfold space_runes. simpl In. lia.
    + repeat rewrite ?orb_true_iff, ?andb_true_iff, ?Z.eqb_eq, ?Z.leb_le in H.
      unfold space_runes. simpl In. lia.
  - unfold space_runes. simpl In. intros H.
    repeat (destruct H as [<-|H]; [reflexivity|]). contradiction.
Qed.

Lemma white_space_chars_decode (e : string) :
  In e white_space_chars ->
  e <> "" /\ white_bytes e = true
  /\ exists r, unicode_IsSpace r = true
               /\ forall t, DecodeRuneInString (e ++ t) = (r, String.length e).
Proof.
  unfold white_space_chars, space_runes. simpl map. simpl In. intros H.
  repeat (destruct H as [<-|H];
          [split; [discriminate|]; split; [reflexivity|];
           eexists; split; [|intros t; reflexivity]; reflexivity|]).
  contradiction.
Qed.

Lemma decode_space (s : string) (r : Z) (n : nat) :
  s <> "" -> DecodeRuneInString s = (r, n) -> unicode_IsSpace r = true ->
  In (take n s) white_space_chars.
Proof.
  intros Hs H Hspace.
  rewrite (decode_encode s r n Hs H).
  - apply in_map. now apply IsSpace_runes.
  - left. intros ->. discriminate.
Qed.

(** *** [strings.TrimLeftFunc] *)

Lemma TrimLeft_runes_fuel (f : Z -> bool) (fuel1 : nat) :
  forall (fuel2 : nat) (s : string),
    (String.length s <= fuel1)%nat -> (String.length s <= fuel2)%nat ->
    TrimLeft_runes fuel1 f s = TrimLeft_runes fuel2 f s.
Proof.
  induction fuel1 as [|fuel1 IH]; intros fuel2 s H1 H2.
  - assert (Hs : s = "") by (apply empty_length; lia). subst. now destruct fuel2.
  - destruct s as [|c t]; [now destruct fuel2|].
    destruct fuel2 as [|fuel2]; [simpl in H2; lia|].
    cbn [TrimLeft_runes].
    pose proof (decode_width (String c t) ltac:(discriminate)) as Hw.
    destruct (DecodeRuneInString (String c t)) as [r n]. cbn [snd] in Hw.
    destruct (f r); [|reflexivity].
    apply IH; rewrite drop_length; cbn [String.length] in *; lia.
Qed.

Lemma TrimLeftFunc_step (f : Z -> bool) (s : string) :
  s <> "" ->
  TrimLeftFunc s f
  = (if f (fst (DecodeRuneInString s))
     then TrimLeftFunc (drop (snd (DecodeRuneInString s)) s) f else s).
Proof.
  intros Hs. unfold TrimLeftFunc. destruct s as [|c t]; [congruence|].
  cbn [String.length TrimLeft_runes].
  pose proof (decode_width (String c t) Hs) as Hw.
  destruct (DecodeRuneInString (String c t)) as [r n]. cbn [fst snd] in *.
  destruct (f r); [|reflexivity].
  apply TrimLeft_runes_fuel; rewrite drop_length; cbn [String.length] in *; lia.
Qed.

(** What [TrimLeftFunc] takes off is white space. *)
Lemma TrimLeftFunc_split (s : string) :
  exists blank, s = blank ++ TrimLeftFunc s unicode_IsSpace /\ white_space blank.
Proof.
  remember (String.length s) as len eqn:Hlen.
  revert s Hlen. induction len as [len IH] using lt_wf_ind. intros s Hlen.
  destruct s as [|c t]; [exists ""; split; [reflexivity | constructor]|].
  rewrite TrimLeftFunc_step by discriminate.
  pose proof (decode_width (String c t) ltac:(discriminate)) as Hw.
  destruct (DecodeRuneInString (String c t)) as [r n] eqn:Hdec. cbn [fst snd] in *.
  destruct (unicode_IsSpace r) eqn:Hspace.
  - destruct (IH (String.length (drop n (String c t)))
                ltac:(rewrite drop_length; cbn [String.length] in *; lia) _ eq_refl)
      as (blank & Hrest & Hblank).
    exists (take n (String c t) ++ blank). split.
    + rewrite append_assoc, <- Hrest. now rewrite take_drop.
    + constructor; [|exact Hblank].
      apply (decode_space _ r); try assumption. discriminate.
  - exists "". split; [reflexivity | constructor].
Qed.

(** White space at the front of a text is taken off. *)
Lemma TrimLeftFunc_white (blank s : string) :
  white_space blank ->
  TrimLeftFunc (blank ++ s) unicode_IsSpace = TrimLeftFunc s unicode_IsSpace.
Proof.
  induction 1 as [|e blank He Hblank IH]; [reflexivity|].
  destruct (white_space_chars_decode e He) as (Hne & _ & r & Hspace & Hdec).
  rewrite append_assoc. rewrite TrimLeftFunc_step.
  - rewrite Hdec. cbn [fst snd]. rewrite Hspace, drop_app. exact IH.
  - destruct e; [congruence | discriminate].
Qed.

(** *** [strings.TrimRightFunc] *)

Lemma white_bytes_app (a b : string) :
  white_bytes (a ++ b) = white_bytes a && white_bytes b.
Proof. induction a as [|c a IH]; simpl; [reflexivity | now rewrite IH, andb_assoc]. Qed.

Lemma white_bytes_drop (n : nat) (s : string) :
  white_bytes s = true -> white_bytes (drop n s) = true.
Proof.
  revert s. induction n as [|n IH]; intros s H; [exact H|].
  destruct s as [|c s]; [reflexivity|]. simpl in *.
  apply andb_true_iff in H as [_ H]. now apply IH.
Qed.

Lemma white_bytes_drop_more (i k : nat) (s : string) :
  (i <= k)%nat -> white_bytes (drop i s) = true -> white_bytes (drop k s) = true.
Proof.
  intros Hik H. replace k with (i + (k - i))%nat by lia.
  rewrite <- drop_drop. now apply white_bytes_drop.
Qed.

Lemma byte_at_drop (s : string) (j : nat) :
  (j < String.length s)%nat ->
  exists c t, drop j s = String c t /\ byte_at s j = byte_of c.
Proof.
  revert s. induction j as [|j IH]; intros [|c s] H; simpl in H; try lia.
  - exists c, s. split; reflexivity.
  - destruct (IH s ltac:(lia)) as (d & t & Hdrop & Hbyte).
    exists d, t. split; [exact Hdrop|]. unfold byte_at in *. simpl. exact Hbyte.
Qed.

Lemma back_to_start_le (n : nat) (s : string) (lim start : Z) :
  back_to_start n s lim start <= start.
Proof.
  revert start. induction n as [|n IH]; intros start; simpl; [lia|].
  destruct (start <? lim); [lia|].
  destruct (RuneStart _); [lia|]. specialize (IH (start - 1)). lia.
Qed.

(** What [DecodeLastRuneInString] returns: the error for one byte, or the
    rune that [DecodeRuneInString] reads from the last [size] bytes. *)
Lemma DecodeLastRuneInString_spec (u : string) (r : Z) (size : nat) :
  u <> "" -> DecodeLastRuneInString u = (r, size) ->
  (r = RuneError /\ size = 1%nat)
  \/ ((size <= String.length u)%nat
      /\ DecodeRuneInString (drop (String.length u - size) u) = (r, size)).
Proof.
  intros Hu. unfold DecodeLastRuneInString.
  assert (Hlen : (0 < String.length u)%nat) by (destruct u; [congruence | simpl; lia]).
  destruct (Z.eqb_spec (Z.of_nat (String.length u)) 0) as [Hzero|_]; [lia|].
  replace (Z.to_nat (Z.of_nat (String.length u) - 1)) with (String.length u - 1)%nat by lia.
  destruct (byte_at_drop u (String.length u - 1) ltac:(lia)) as (c & t & Hdrop & Hbyte).
  assert (Ht : t = "").
  { apply empty_length. apply (f_equal String.length) in Hdrop.
    rewrite drop_length in Hdrop. simpl in Hdrop. lia. }
  subst t. rewrite Hbyte. unfold RuneSelf.
  destruct (Z.ltb_spec (byte_of c) 128) as [Hascii|Hhigh].
  - intros H. injection H as <- <-. right. split; [lia|].
    rewrite Hdrop. now apply decode_ascii.
  - set (start := back_to_start 4 u _ _).
    set (start' := if start <? 0 then 0 else start).
    assert (Hstart : 0 <= start') by (unfold start'; destruct (Z.ltb_spec start 0); lia).
    destruct (DecodeRuneInString (drop (Z.to_nat start') u)) as [r0 size0] eqn:Hdec.
    destruct (Z.eqb_spec (start' + Z.of_nat size0) (Z.of_nat (String.length u))) as [Hend|Hend];
      cbn [negb]; intros H; injection H as <- <-; [|now left].
    right. split; [lia|].
    replace (String.length u - size0)%nat with (Z.to_nat start') by lia. exact Hdec.
Qed.

Lemma cut_after_reaches (s : string) (i : nat) (r : Z) (size : nat) :
  (1 <= i <= String.length s)%nat ->
  DecodeLastRuneInString (take i s) = (r, size) ->
  (i <= cut_after s (i - size))%nat.
Proof.
  intros Hi H.
  assert (Hlen : String.length (take i s) = i) by (rewrite take_length; lia).
  assert (Hu : take i s <> "") by (intros Hempty; rewrite Hempty in Hlen; simpl in Hlen; lia).
  apply DecodeLastRuneInString_spec in H; [|exact Hu]. rewrite Hlen in H.
  unfold cut_after.
  assert (Hwidth : forall j, (j < String.length s)%nat ->
                             (1 <= snd (DecodeRuneInString (drop j s)))%nat).
  { intros j Hj. apply decode_width. intros Hempty.
    apply (f_equal String.length) in Hempty. rewrite drop_length in Hempty. simpl in Hempty. lia. }
  destruct H as [[-> ->]|[Hsize Hdec]].
  - destruct (RuneSelf <=? byte_at s (i - 1)); [|lia].
    specialize (Hwidth (i - 1)%nat ltac:(lia)). lia.
  - destruct (Nat.le_gt_cases size 1) as [Hsmall|Hbig].
    + destruct (RuneSelf <=? byte_at s (i - size)); [|lia].
      destruct (Nat.eq_dec size 0) as [->|Hnz]; [lia|].
      specialize (Hwidth (i - size)%nat ltac:(lia)). lia.
    + replace i with ((i - size) + size)%nat in Hdec at 2 by lia.
      rewrite drop_take in Hdec. apply decode_take in Hdec; [|lia].
      destruct (byte_at_drop s (i - size) ltac:(lia)) as (c & t & Hdrop & Hbyte).
      unfold RuneSelf. rewrite Hbyte. destruct (Z.leb_spec 128 (byte_of c)) as [_|Hascii].
      * rewrite Hdec. cbn [snd]. lia.
      * rewrite Hdrop, decode_ascii in Hdec by exact Hascii. injection Hdec as _ <-. lia.
Qed.

Lemma lastIndexFunc_white (s : string) (fuel : nat) :
  forall i : nat,
    (i <= fuel)%nat -> (i <= String.length s)%nat -> white_bytes (drop i s) = true ->
    match lastIndexFunc fuel s unicode_IsSpace i with
    | Some j => white_bytes (drop (cut_after s j) s) = true
    | None => white_bytes s = true
    end.
Proof.
  induction fuel as [|fuel IH]; intros i Hfuel Hi Hwhite.
  - assert (i = 0%nat) by lia. subst. exact Hwhite.
  - destruct i as [|i0]; [exact Hwhite|]. cbn [lastIndexFunc].
    set (i := S i0) in *.
    destruct (DecodeLastRuneInString (take i s)) as [r size] eqn:Hlast.
    destruct (unicode_IsSpace r) eqn:Hspace.
    + assert (Hlen : String.length (take i s) = i) by (rewrite take_length; lia).
      assert (Hu : take i s <> "")
        by (intros Hempty; rewrite Hempty in Hlen; simpl in Hlen; unfold i in Hlen; lia).
      apply DecodeLastRuneInString_spec in Hlast; [|exact Hu]. rewrite Hlen in Hlast.
      destruct Hlast as [[-> _]|[Hsize Hdec]]; [discriminate|].
      assert (Hne : drop (i - size) (take i s) <> "").
      { intros Hempty. rewrite Hempty in Hdec. simpl in Hdec. injection Hdec as <- _.
        discriminate. }
      pose proof (decode_width _ Hne) as Hw. rewrite Hdec in Hw. cbn [snd] in Hw.
      pose proof (decode_space _ _ _ Hne Hdec Hspace) as Hin.
      apply white_space_chars_decode in Hin as (_ & Hbytes & _).
      rewrite take_all in Hbytes by (rewrite drop_length, Hlen; lia).
      apply IH; [lia | lia |].
      rewrite <- (take_drop size (drop (i - size) s)), white_bytes_app.
      rewrite drop_drop. replace (i - size + size)%nat with i by lia.
      rewrite Hwhite, andb_true_r.
      rewrite <- drop_take. replace (i - size + size)%nat with i by lia. exact Hbytes.
    + eapply white_bytes_drop_more; [|exact Hwhite].
      apply (cut_after_reaches s i r size); [unfold i; lia | exact Hlast].
Qed.

(** [TrimRightFunc] keeps a front part of the text, and the bytes it takes
    off are bytes of white-space characters. *)
Lemma TrimRightFunc_split (s : string) :
  exists n, TrimRightFunc s unicode_IsSpace = take n s /\ white_bytes (drop n s) = true.
Proof.
  unfold TrimRightFunc.
  pose proof (lastIndexFunc_white s (String.length s) (String.length s)
                (Nat.le_refl _) (Nat.le_refl _)) as H.
  rewrite drop_all in H by lia. specialize (H eq_refl).
  destruct (lastIndexFunc _ s unicode_IsSpace _) as [j|].
  - exists (cut_after s j). split; [|exact H]. unfold cut_after.
    destruct (RuneSelf <=? byte_at s j); [|reflexivity].
    now destruct (DecodeRuneInString (drop j s)).
  - exists 0%nat. split; [reflexivity | exact H].
Qed.

(** A text that holds a byte of no white-space character keeps
    everything up to that byte. *)
Lemma TrimRightFunc_keeps (pre rest : string) (c : ascii) :
  is_white_byte c = false ->
  exists rest',
    TrimRightFunc (pre ++ String c rest) unicode_IsSpace = pre ++ String c rest'
    /\ exists cut, rest = rest' ++ cut.
Proof.
  intros Hc. destruct (TrimRightFunc_split (pre ++ String c rest)) as (n & -> & Hwhite).
  destruct (Nat.le_gt_cases n (String.length pre)) as [Hlow|Hhigh].
  - exfalso.
    apply (white_bytes_drop_more n (String.length pre)) in Hwhite; [|exact Hlow].
    rewrite drop_app in Hwhite. simpl in Hwhite. now rewrite Hc in Hwhite.
  - replace n with (String.length pre + S (n - String.length pre - 1))%nat by lia.
    rewrite take_app_more. cbn [take].
    exists (take (n - String.length pre - 1) rest). split; [reflexivity|].
    exists (drop (n - String.length pre - 1) rest). now rewrite take_drop.
Qed.

(** *** [strings.TrimSpace] *)

Lemma IsSpace_ascii (c : Z) : 0 <= c < 128 -> unicode_IsSpace c = asciiSpace c.
Proof.
  intros Hc. unfold unicode_IsSpace, asciiSpace.
  replace ((0 <=? c) && (c <=? 255)) with true
    by (symmetry; apply andb_true_iff; split; apply Z.leb_le; lia).
  replace (c =? 133) with false by (symmetry; apply Z.eqb_neq; lia).
  replace (c =? 160) with false by (symmetry; apply Z.eqb_neq; lia).
  now rewrite !orb_false_r.
Qed.

Lemma take_app_le (v w : string) (n : nat) :
  (n <= String.length v)%nat -> take n (v ++ w) = take n v.
Proof.
  revert v. induction n as [|n IH]; intros v Hn; [reflexivity|].
  destruct v as [|c v]; cbn [String.length] in Hn; [lia|].
  cbn [append take]. rewrite IH by lia. reflexivity.
Qed.

Lemma drop_app_le (v w : string) (n : nat) :
  (n <= String.length v)%nat -> drop n (v ++ w) = drop n v ++ w.
Proof.
  revert v. induction n as [|n IH]; intros v Hn; [reflexivity|].
  destruct v as [|c v]; cbn [String.length] in Hn; [lia|].
  cbn [append drop]. apply IH. lia.
Qed.

Lemma byte_at_app (v w : string) (j : nat) :
  (j < String.length v)%nat -> byte_at (v ++ w) j = byte_at v j.
Proof.
  revert v. induction j as [|j IH]; intros v Hj;
    (destruct v as [|c v]; cbn [String.length] in Hj; [lia|]).
  - reflexivity.
  - unfold byte_at in *. cbn [append String.get]. apply IH. lia.
Qed.

Lemma byte_at_last (v : string) (c : ascii) :
  byte_at (v ++ String c "") (String.length v) = byte_of c.
Proof.
  induction v as [|d v IH]; [reflexivity|].
  unfold byte_at in *. cbn [append String.length String.get]. exact IH.
Qed.

Lemma take_snoc (s : string) (n : nat) (c : ascii) (t : string) :
  drop n s = String c t -> take (S n) s = take n s ++ String c "".
Proof.
  revert s. induction n as [|n IH]; intros s H.
  - cbn [drop] in H. subst s. reflexivity.
  - destruct s as [|d s]; [discriminate|]. cbn [drop] in H.
    change (take (S (S n)) (String d s)) with (String d (take (S n) s)).
    rewrite (IH s H). reflexivity.
Qed.

(** A byte of ASCII after a text does not change the first rune of the
    text. *)
Lemma decode_snoc_ascii (u : string) (c : ascii) :
  u <> "" -> byte_of c < 128 ->
  DecodeRuneInString (u ++ String c "") = DecodeRuneInString u.
Proof.
  intros Hu Hc. destruct u as [|c0 t0]; [congruence|].
  pose proof (first_cases (byte_of c0) (byte_of_range c0)) as Hfirst.
  unfold DecodeRuneInString. cbn [append].
  destruct (first (byte_of c0)) as [| |sz lo hi]; [reflexivity | reflexivity |].
  assert (Hlo : 128 <= lo) by (destruct Hfirst as [H|[H|H]]; lia).
  assert (Hlow : (byte_of c <? lo) = true) by (apply Z.ltb_lt; lia).
  assert (Hcont : (byte_of c <? locb) = true) by (apply Z.ltb_lt; unfold locb; lia).
  assert (Hsz : sz = 2%nat \/ sz = 3%nat \/ sz = 4%nat)
    by (destruct Hfirst as [H|[H|H]]; lia).
  destruct t0 as [|c1 t1].
  { cbn [append String.length].
    destruct Hsz as [-> | [-> | ->]]; cbn [Nat.ltb Nat.leb]; rewrite ?Hlow; reflexivity. }
  destruct t1 as [|c2 t2].
  { cbn [append String.length].
    destruct Hsz as [-> | [-> | ->]]; cbn [Nat.ltb Nat.leb];
      destruct ((byte_of c1 <? lo) || (hi <? byte_of c1)); rewrite ?Hcont; reflexivity. }
  destruct t2 as [|c3 t3].
  { cbn [append String.length].
    destruct Hsz as [-> | [-> | ->]]; cbn [Nat.ltb Nat.leb];
      destruct ((byte_of c1 <? lo) || (hi <? byte_of c1));
      destruct ((byte_of c2 <? locb) || (hicb <? byte_of c2)); rewrite ?Hcont; reflexivity. }
  cbn [append String.length].
  destruct Hsz as [-> | [-> | ->]]; cbn [Nat.ltb Nat.leb]; reflexivity.
Qed.

Lemma DecodeLastRuneInString_ascii (v : string) (c : ascii) :
  byte_of c < 128 -> DecodeLastRuneInString (v ++ String c "") = (byte_of c, 1%nat).
Proof.
  intros Hc. unfold DecodeLastRuneInString.
  rewrite append_length. cbn [String.length].
  replace (Z.of_nat (String.length v + 1) =? 0) with false by (symmetry; apply Z.eqb_neq; lia).
  replace (Z.to_nat (Z.of_nat (String.length v + 1) - 1)) with (String.length v) by lia.
  rewrite byte_at_last.
  replace (byte_of c <? RuneSelf) with true by (symmetry; apply Z.ltb_lt; unfold RuneSelf; lia).
  reflexivity.
Qed.

Lemma DecodeLastRuneInString_size (u : string) :
  u <> "" -> (1 <= snd (DecodeLastRuneInString u) <= String.length u)%nat.
Proof.
  intros Hu. unfold DecodeLastRuneInString.
  assert (Hlen : (0 < String.length u)%nat)
    by (destruct u; [congruence | cbn [String.length]; lia]).
  destruct (Z.eqb_spec (Z.of_nat (String.length u)) 0) as [Hzero|_]; [lia|].
  destruct (_ <? RuneSelf); [cbn [snd]; lia|].
  match goal with
  | |- context [back_to_start ?n ?s ?lim ?st] =>
      pose proof (back_to_start_le n s lim st) as Hle;
      set (start := back_to_start n s lim st) in *
  end.
  set (start' := if start <? 0 then 0 else start).
  assert (Hstart : 0 <= start' < Z.of_nat (String.length u))
    by (unfold start'; destruct (Z.ltb_spec start 0); lia).
  assert (Hrest : drop (Z.to_nat start') u <> "").
  { intros Hempty. apply (f_equal String.length) in Hempty.
    rewrite drop_length in Hempty. cbn [String.length] in Hempty. lia. }
  pose proof (decode_width _ Hrest) as Hw. rewrite drop_length in Hw.
  destruct (DecodeRuneInString (drop (Z.to_nat start') u)) as [r0 size0]. cbn [snd] in Hw.
  destruct (negb _); cbn [snd]; lia.
Qed.

(** The index [lastIndexFunc] returns lies below the index it was entered
    at. *)
Lemma lastIndexFunc_below (s : string) (f : Z -> bool) (fuel : nat) :
  forall i j : nat,
    (i <= String.length s)%nat -> lastIndexFunc fuel s f i = Some j -> (j < i)%nat.
Proof.
  induction fuel as [|fuel IH]; intros i j Hi H; [discriminate|].
  destruct i as [|i]; [discriminate|]. cbn [lastIndexFunc] in H.
  assert (Hu : take (S i) s <> "").
  { intros Hempty. apply (f_equal String.length) in Hempty.
    rewrite take_length in Hempty. cbn [String.length] in Hempty. lia. }
  pose proof (DecodeLastRuneInString_size _ Hu) as Hsize.
  rewrite take_length in Hsize.
  destruct (DecodeLastRuneInString (take (S i) s)) as [r size]. cbn [snd] in Hsize.
  destruct (f r).
  - apply IH in H; lia.
  - injection H as <-. destruct size; lia.
Qed.

(** What follows the index [lastIndexFunc] is entered at plays no part. *)
Lemma lastIndexFunc_app (v w : string) (f : Z -> bool) (fuel : nat) :
  forall i : nat,
    (i <= String.length v)%nat ->
    lastIndexFunc fuel (v ++ w) f i = lastIndexFunc fuel v f i.
Proof.
  induction fuel as [|fuel IH]; intros i Hi; [reflexivity|].
  destruct i as [|i]; [reflexivity|]. cbn [lastIndexFunc].
  rewrite take_app_le by exact Hi.
  destruct (DecodeLastRuneInString (take (S i) v)) as [r size].
  destruct (f r); [|reflexivity]. apply IH. lia.
Qed.

(** [TrimRightFunc] takes off a white-space byte of ASCII at the end. *)
Lemma TrimRightFunc_snoc_space (v : string) (c : ascii) :
  byte_of c < 128 -> unicode_IsSpace (byte_of c) = true ->
  TrimRightFunc (v ++ String c "") unicode_IsSpace = TrimRightFunc v unicode_IsSpace.
Proof.
  intros Hc Hspace. unfold TrimRightFunc.
  rewrite append_length. cbn [String.length].
  replace (String.length v + 1)%nat with (S (String.length v)) by lia.
  cbn [lastIndexFunc]. rewrite take_all by (rewrite append_length; cbn [String.length]; lia).
  rewrite DecodeLastRuneInString_ascii by exact Hc. rewrite Hspace.
  replace (S (String.length v) - 1)%nat with (String.length v) by lia.
  rewrite lastIndexFunc_app by lia.
  destruct (lastIndexFunc (String.length v) v unicode_IsSpace (String.length v)) as [j|] eqn:Hlast;
    [|reflexivity].
  apply lastIndexFunc_below in Hlast; [|lia].
  rewrite byte_at_app by exact Hlast.
  destruct (RuneSelf <=? byte_at v j).
  - rewrite drop_app_le by lia.
    assert (Hrest : drop j v <> "").
    { intros Hempty. apply (f_equal String.length) in Hempty.
      rewrite drop_length in Hempty. cbn [String.length] in Hempty. lia. }
    rewrite decode_snoc_ascii by assumption.
    pose proof (decode_width _ Hrest) as Hw. rewrite drop_length in Hw.
    destruct (DecodeRuneInString (drop j v)) as [r wid]. cbn [snd] in Hw.
    apply take_app_le. lia.
  - apply take_app_le. lia.
Qed.

(** [TrimRightFunc] stops at a byte of ASCII that is no white space. *)
Lemma TrimRightFunc_snoc_letter (v : string) (c : ascii) :
  byte_of c < 128 -> unicode_IsSpace (byte_of c) = false ->
  TrimRightFunc (v ++ String c "") unicode_IsSpace = v ++ String c "".
Proof.
  intros Hc Hspace. unfold TrimRightFunc.
  rewrite append_length. cbn [String.length].
  replace (String.length v + 1)%nat with (S (String.length v)) by lia.
  cbn [lastIndexFunc]. rewrite take_all by (rewrite append_length; cbn [String.length]; lia).
  rewrite DecodeLastRuneInString_ascii by exact Hc. rewrite Hspace.
  replace (S (String.length v) - 1)%nat with (String.length v) by lia.
  rewrite byte_at_last.
  replace (RuneSelf <=? byte_of c) with false by (symmetry; apply Z.leb_gt; unfold RuneSelf; lia).
  apply take_all. rewrite append_length. cbn [String.length]. lia.
Qed.

(** The loop of [TrimSpace] over the end of the text returns what
    [TrimRightFunc] returns for the part of the text it has not passed. *)
Lemma trim_space_stop_spec (s : string) (stop : nat) :
  (stop <= String.length s)%nat ->
  trim_space_stop s stop = TrimRightFunc (take stop s) unicode_IsSpace.
Proof.
  induction stop as [|stop IH]; intros Hstop; [reflexivity|].
  destruct (byte_at_drop s stop ltac:(lia)) as (c & t & Hdrop & Hbyte).
  cbn [trim_space_stop]. rewrite Hbyte.
  destruct (Z.leb_spec RuneSelf (byte_of c)) as [|Hc]; [reflexivity|].
  unfold RuneSelf in Hc. pose proof (byte_of_range c) as Hrange.
  rewrite (take_snoc s stop c t Hdrop).
  rewrite <- IsSpace_ascii by lia.
  destruct (unicode_IsSpace (byte_of c)) eqn:Hspace.
  - rewrite TrimRightFunc_snoc_space by assumption. apply IH. lia.
  - now rewrite TrimRightFunc_snoc_letter by assumption.
Qed.

(** [strings.TrimSpace] returns what [TrimFunc(s, unicode.IsSpace)]
    returns: its loops over the bytes of ASCII at the two ends of the text
    are a short cut. *)
Lemma TrimSpace_TrimFunc (s : string) : TrimSpace s = TrimFunc s unicode_IsSpace.
Proof.
  induction s as [|c0 s IH]; [reflexivity|].
  cbn [TrimSpace].
  destruct (Z.leb_spec RuneSelf (byte_of c0)) as [|Hc]; [reflexivity|].
  unfold RuneSelf in Hc. pose proof (byte_of_range c0) as Hrange.
  unfold TrimFunc. rewrite TrimLeftFunc_step by discriminate.
  rewrite decode_ascii by exact Hc. cbn [fst snd drop].
  rewrite <- IsSpace_ascii by lia.
  destruct (unicode_IsSpace (byte_of c0)).
  - exact IH.
  - rewrite trim_space_stop_spec by lia. now rewrite take_all by lia.
Qed.

(** *** [strings.Map] and [strings.ToUpper] *)

Lemma Map_runes_fuel (f : Z -> Z) (fuel1 : nat) :
  forall (fuel2 : nat) (s : string),
    (String.length s <= fuel1)%nat -> (String.length s <= fuel2)%nat ->
    Map_runes fuel1 f s = Map_runes fuel2 f s.
Proof.
  induction fuel1 as [|fuel1 IH]; intros fuel2 s H1 H2.
  - assert (Hs : s = "") by (apply empty_length; lia). subst. now destruct fuel2.
  - destruct s as [|c t]; [now destruct fuel2|].
    destruct fuel2 as [|fuel2]; [simpl in H2; lia|].
    cbn [Map_runes].
    pose proof (decode_width (String c t) ltac:(discriminate)) as Hw.
    destruct (DecodeRuneInString (String c t)) as [r n]. cbn [snd] in Hw.
    f_equal. apply IH; rewrite drop_length; cbn [String.length] in *; lia.
Qed.

Lemma Map_step (f : Z -> Z) (s : string) :
  s <> "" ->
  Map f s
  = (if 0 <=? f (fst (DecodeRuneInString s))
     then EncodeRune (f (fst (DecodeRuneInString s))) else "")
    ++ Map f (drop (snd (DecodeRuneInString s)) s).
Proof.
  intros Hs. unfold Map. destruct s as [|c t]; [congruence|].
  cbn [String.length Map_runes].
  pose proof (decode_width (String c t) Hs) as Hw.
  destruct (DecodeRuneInString (String c t)) as [r n]. cbn [fst snd] in *.
  f_equal. apply Map_runes_fuel; rewrite drop_length; cbn [String.length] in *; lia.
Qed.

Lemma upper_bytes_same (s : string) : has_lower s = false -> upper_bytes s = s.
Proof.
  induction s as [|c s IH]; simpl; [reflexivity|]. intros H.
  apply orb_false_iff in H as [-> H]. now rewrite IH.
Qed.

Lemma Map_ascii (T : CaseTables) (s : string) :
  is_ascii s = true -> Map (unicode_ToUpper T) s = upper_bytes s.
Proof.
  induction s as [|c s IH]; [reflexivity|]. cbn [is_ascii]. intros H.
  apply andb_true_iff in H as [Hc Hs]. unfold RuneSelf in Hc. apply Z.ltb_lt in Hc.
  rewrite Map_step by discriminate. rewrite decode_ascii by exact Hc. cbn [fst snd drop].
  rewrite IH by exact Hs. cbn [upper_bytes]. unfold unicode_ToUpper, is_lower.
  pose proof (byte_of_range c) as Hrange.
  destruct (Z.leb_spec (byte_of c) 127); [|lia].
  destruct ((97 <=? byte_of c) && (byte_of c <=? 122)) eqn:Hlower.
  - apply andb_true_iff in Hlower as [H1 H2]. apply Z.leb_le in H1, H2.
    destruct (Z.leb_spec 0 (byte_of c - 32)); [|lia].
    now rewrite EncodeRune_1 by lia.
  - destruct (Z.leb_spec 0 (byte_of c)); [|lia].
    rewrite EncodeRune_1 by lia. now rewrite of_byte_byte_of.
Qed.

(** [strings.ToUpper] is [strings.Map] with [unicode.ToUpper] on every
    text: on ASCII bytes the loop over the bytes gives the same. *)
Lemma ToUpper_Map (T : CaseTables) (s : string) :
  ToUpper T s = Map (unicode_ToUpper T) s.
Proof.
  unfold ToUpper. destruct (is_ascii s) eqn:Hascii; [|reflexivity].
  rewrite Map_ascii by exact Hascii.
  destruct (has_lower s) eqn:Hlower; [reflexivity|].
  symmetry. now apply upper_bytes_same.
Qed.

Lemma EncodeRune_high (r : Z) :
  127 < r -> exists c t, EncodeRune r = String c t /\ 128 <= byte_of c.
Proof.
  intros Hr.
  destruct (Z.le_gt_cases r 2047) as [H2|H2].
  { rewrite EncodeRune_2 by lia. eexists _, _. split; [reflexivity|].
    rewrite byte_of_of_byte; lia_mod. }
  unfold EncodeRune.
  destruct (Z.leb_spec r 127); [lia|]. destruct (Z.leb_spec r 2047); [lia|].
  destruct ((MaxRune <? r) || ((surrogateMin <=? r) && (r <=? surrogateMax))) eqn:Hbad.
  { eexists _, _. split; [reflexivity|]. vm_compute. discriminate. }
  apply orb_false_iff in Hbad as [Hmax Hsur]. apply Z.ltb_ge in Hmax. unfold MaxRune in Hmax.
  destruct (Z.leb_spec r 65535).
  - eexists _, _. split; [reflexivity|].
    rewrite shiftr_12, (lor_tag 224 _ 4) by lia_mod.
    rewrite byte_of_of_byte; lia_mod.
  - eexists _, _. split; [reflexivity|].
    rewrite shiftr_18, (lor_tag 240 _ 3) by lia_mod.
    rewrite byte_of_of_byte; lia_mod.
Qed.

(** *** The spellings of a keyword *)

Lemma IsSpace_letter (r : Z) : 65 <= r <= 122 -> unicode_IsSpace r = false.
Proof.
  intros Hr. destruct (unicode_IsSpace r) eqn:H; [|reflexivity].
  apply IsSpace_runes in H. unfold space_runes in H. simpl in H. lia.
Qed.

Lemma is_white_byte_letter (c : ascii) : 65 <= byte_of c <= 122 -> is_white_byte c = false.
Proof.
  intros Hc. destruct (is_white_byte c) eqn:H; [|reflexivity].
  unfold is_white_byte in H. cbn [existsb] in H.
  repeat rewrite ?orb_true_iff, ?andb_true_iff, ?Z.eqb_eq, ?Z.leb_le in H. lia.
Qed.

(** A way to write a letter is one rune, which is no white space and whose
    upper case is the letter; its last byte is no byte of a white-space
    character. *)
Lemma spelling_rune (T : CaseTables) (p : ascii) (l : string) :
  upper_case_of_unicode T ->
  65 <= byte_of p <= 90 ->
  In l (spellings p) ->
  exists c,
    (forall x, DecodeRuneInString (l ++ x) = (c, String.length l))
    /\ unicode_ToUpper T c = byte_of p
    /\ unicode_IsSpace c = false
    /\ exists pre d, l = pre ++ String d "" /\ is_white_byte d = false.
Proof.
  intros (Hi & Hs & _) Hp Hin. unfold spellings in Hin.
  apply in_app_or in Hin as [[<-|[<-|[]]]|Hin].
  - (* the letter itself *)
    exists (byte_of p). split; [|split; [|split]].
    + intros x. apply decode_ascii. lia.
    + unfold unicode_ToUpper.
      destruct (Z.leb_spec (byte_of p) 127); [|lia].
      destruct (Z.leb_spec 97 (byte_of p)); [lia | reflexivity].
    + apply IsSpace_letter. lia.
    + exists "", p. split; [reflexivity|]. apply is_white_byte_letter. lia.
  - (* the lower-case letter *)
    assert (Hq : byte_of (of_byte (byte_of p + 32)) = byte_of p + 32)
      by (apply byte_of_of_byte; lia).
    exists (byte_of p + 32). split; [|split; [|split]].
    + intros x. cbn [append String.length]. rewrite decode_ascii; rewrite Hq; [reflexivity | lia].
    + unfold unicode_ToUpper.
      destruct (Z.leb_spec (byte_of p + 32) 127); [|lia].
      destruct (Z.leb_spec 97 (byte_of p + 32)); [|lia].
      destruct (Z.leb_spec (byte_of p + 32) 122); [|lia]. cbn [andb]. lia.
    + apply IsSpace_letter. lia.
    + exists "", (of_byte (byte_of p + 32)). split; [reflexivity|].
      apply is_white_byte_letter. lia.
  - apply in_app_or in Hin as [Hin|Hin].
    + (* the dotless i *)
      destruct (Ascii.eqb_spec p "I") as [->|_]; [|contradiction].
      destruct Hin as [<-|[]]. exists 305. split; [|split; [|split]].
      * intros x. reflexivity.
      * exact Hi.
      * reflexivity.
      * exists (String (of_byte 196) ""), (of_byte 177). split; reflexivity.
    + (* the long s *)
      destruct (Ascii.eqb_spec p "S") as [->|_]; [|contradiction].
      destruct Hin as [<-|[]]. exists 383. split; [|split; [|split]].
      * intros x. reflexivity.
      * exact Hs.
      * reflexivity.
      * exists (String (of_byte 197) ""), (of_byte 191). split; reflexivity.
Qed.

Lemma spelling_length (p : ascii) (l : string) :
  In l (spellings p) -> l <> "".
Proof.
  unfold spellings. intros Hin.
  apply in_app_or in Hin as [[<-|[<-|[]]]|Hin]; try discriminate.
  apply in_app_or in Hin as [Hin|Hin].
  - destruct (Ascii.eqb p "I"); [|contradiction]. destruct Hin as [<-|[]]. discriminate.
  - destruct (Ascii.eqb p "S"); [|contradiction]. destruct Hin as [<-|[]]. discriminate.
Qed.

Lemma nonempty_app (l x : string) : l <> "" -> l ++ x <> "".
Proof. destruct l; [congruence | discriminate]. Qed.

(** [strings.ToUpper] on a text that starts with a way to write a word of
    upper-case letters. *)
Lemma Map_spelled (T : CaseTables) (op : string) :
  upper_case_of_unicode T -> upper_letters op = true ->
  forall body x, spells body op ->
                 Map (unicode_ToUpper T) (body ++ x) = op ++ Map (unicode_ToUpper T) x.
Proof.
  intros HT. induction op as [|p op IH]; intros Hop body x Hbody.
  - simpl in Hbody. now subst.
  - cbn [upper_letters] in Hop. apply andb_true_iff in Hop as [Hp Hop].
    apply andb_true_iff in Hp as [Hp1 Hp2]. apply Z.leb_le in Hp1, Hp2.
    destruct Hbody as (l & rest & Hl & -> & Hrest).
    destruct (spelling_rune T p l HT (conj Hp1 Hp2) Hl) as (c & Hdec & Hup & _).
    rewrite append_assoc.
    rewrite Map_step by (apply nonempty_app; eapply spelling_length; eassumption).
    rewrite Hdec. cbn [fst snd]. rewrite Hup, drop_app.
    destruct (Z.leb_spec 0 (byte_of p)); [|lia].
    rewrite EncodeRune_1 by lia. rewrite of_byte_byte_of. cbn [append].
    now rewrite IH.
Qed.

(** A text whose upper case starts with a word of upper-case letters starts
    with a way to write the word. *)
Lemma Map_prefix_spelled (T : CaseTables) (op : string) :
  upper_case_of_unicode T -> upper_letters op = true ->
  forall s, HasPrefix (Map (unicode_ToUpper T) s) op = true ->
            exists body rest, s = body ++ rest /\ spells body op.
Proof.
  intros HT. induction op as [|p op IH]; intros Hop s Hprefix.
  - exists "", s. split; reflexivity.
  - cbn [upper_letters] in Hop. apply andb_true_iff in Hop as [Hp Hop].
    apply andb_true_iff in Hp as [Hp1 Hp2]. apply Z.leb_le in Hp1, Hp2.
    destruct s as [|c0 t0]; [discriminate|].
    set (s := String c0 t0) in *.
    assert (Hs : s <> "") by discriminate.
    rewrite Map_step in Hprefix by exact Hs.
    pose proof (decode_width s Hs) as Hw.
    destruct (DecodeRuneInString s) as [c n] eqn:Hdec. cbn [fst snd] in *.
    assert (Hnext : forall l,
               In l (spellings p) -> s = l ++ drop n s ->
               HasPrefix (Map (unicode_ToUpper T) (drop n s)) op = true ->
               exists body rest, s = body ++ rest /\ spells body (String p op)).
    { intros l Hl Hsplit Hrest. destruct (IH Hop _ Hrest) as (body & rest & Hdrop & Hbody).
      exists (l ++ body), rest. split.
      - rewrite append_assoc, <- Hdrop. exact Hsplit.
      - exists l, body. auto. }
    destruct (Z.lt_ge_cases c 128) as [Hsmall|Hbig].
    + (* one byte of ASCII *)
      destruct (decode_small s c n Hs Hdec Hsmall) as (-> & d & t & Hd & Hbyte).
      unfold s in Hd. injection Hd as <- <-. subst c.
      pose proof (byte_of_range c0) as Hrange.
      unfold unicode_ToUpper in Hprefix.
      destruct (Z.leb_spec (byte_of c0) 127); [|lia].
      destruct ((97 <=? byte_of c0) && (byte_of c0 <=? 122)) eqn:Hlower.
      * apply andb_true_iff in Hlower as [H1 H2]. apply Z.leb_le in H1, H2.
        destruct (Z.leb_spec 0 (byte_of c0 - 32)); [|lia].
        rewrite EncodeRune_1 in Hprefix by lia. cbn [append HasPrefix] in Hprefix.
        apply andb_true_iff in Hprefix as [Hc Hrest]. apply Ascii.eqb_eq in Hc.
        apply (Hnext (String c0 "")); [|reflexivity | exact Hrest].
        unfold spellings. right. left. f_equal.
        rewrite <- Hc, byte_of_of_byte by lia.
        replace (byte_of c0 - 32 + 32) with (byte_of c0) by lia.
        now rewrite of_byte_byte_of.
      * destruct (Z.leb_spec 0 (byte_of c0)); [|lia].
        rewrite EncodeRune_1 in Hprefix by lia. cbn [append HasPrefix] in Hprefix.
        apply andb_true_iff in Hprefix as [Hc Hrest]. apply Ascii.eqb_eq in Hc.
        rewrite of_byte_byte_of in Hc. subst p.
        apply (Hnext (String c0 "")); [|reflexivity | exact Hrest].
        unfold spellings. now left.
    + (* a rune beyond ASCII *)
      unfold unicode_ToUpper in Hprefix.
      destruct (Z.leb_spec c 127); [lia|].
      destruct HT as (Hi & Hlong & Hother).
      destruct (Z.eq_dec c 305) as [->|Hnot_i]; [|destruct (Z.eq_dec c 383) as [->|Hnot_s]].
      * rewrite Hi in Hprefix. cbn [Z.leb Z.compare] in Hprefix.
        change (EncodeRune 73) with "I" in Hprefix. cbn [append HasPrefix] in Hprefix.
        apply andb_true_iff in Hprefix as [Hc Hrest]. apply Ascii.eqb_eq in Hc. subst p.
        pose proof (decode_encode s 305 n Hs Hdec ltac:(left; discriminate)) as Htake.
        assert (Hn : n = 2%nat).
        { apply (f_equal String.length) in Htake. rewrite take_length in Htake.
          change (String.length (EncodeRune 305)) with 2%nat in Htake. lia. }
        apply (Hnext dotless_i); [| |exact Hrest].
        -- unfold spellings. right. right. now left.
        -- unfold dotless_i. rewrite <- Htake. symmetry. apply take_drop.
      * rewrite Hlong in Hprefix. cbn [Z.leb Z.compare] in Hprefix.
        change (EncodeRune 83) with "S" in Hprefix. cbn [append HasPrefix] in Hprefix.
        apply andb_true_iff in Hprefix as [Hc Hrest]. apply Ascii.eqb_eq in Hc. subst p.
        pose proof (decode_encode s 383 n Hs Hdec ltac:(left; discriminate)) as Htake.
        assert (Hn : n = 2%nat).
        { apply (f_equal String.length) in Htake. rewrite take_length in Htake.
          change (String.length (EncodeRune 383)) with 2%nat in Htake. lia. }
        apply (Hnext long_s); [| |exact Hrest].
        -- unfold spellings. right. right. now left.
        -- unfold long_s. rewrite <- Htake. symmetry. apply take_drop.
      * specialize (Hother c ltac:(lia) Hnot_i Hnot_s).
        destruct (Z.leb_spec 0 (To_UpperCase T c)); [|lia].
        destruct (EncodeRune_high _ Hother) as (d & t & Henc & Hd).
        rewrite Henc in Hprefix. cbn [append HasPrefix] in Hprefix.
        apply andb_true_iff in Hprefix as [Hc _]. apply Ascii.eqb_eq in Hc. subst d. lia.
Qed.


(** ** Classification of statements *)

Lemma has_prefix_among_spec (query : string) (ops : list string) :
  has_prefix_among query ops = true <-> exists op, In op ops /\ HasPrefix query op = true.
Proof.
  induction ops as [|op ops IH]; simpl.
  - split; [discriminate | now intros (? & [] & _)].
  - destruct (HasPrefix query op) eqn:Hop.
    + split; [|reflexivity]. intros _. exists op. auto.
    + rewrite IH. split.
      * intros (op' & Hin & H). exists op'. auto.
      * intros (op' & [<- | Hin] & H); [congruence|]. exists op'. auto.
Qed.


Lemma writeOperations_upper (op : string) :
  In op writeOperations -> upper_letters op = true /\ exists p op', op = String p op'.
Proof.
  unfold writeOperations. simpl.
  intros [<-|[<-|[<-|[<-|[<-|[<-|[]]]]]]]; (split; [reflexivity | eauto]).
Qed.

(** The last byte of a way to write a word is no byte of a white-space
    character. *)
Lemma spells_last (T : CaseTables) (op : string) :
  upper_case_of_unicode T -> upper_letters op = true ->
  forall body p op', op = String p op' -> spells body op ->
                     exists pre d, body = pre ++ String d "" /\ is_white_byte d = false.
Proof.
  intros HT. induction op as [|q op IH]; intros Hop body p op' Heq Hbody; [discriminate|].
  cbn [upper_letters] in Hop. apply andb_true_iff in Hop as [Hq Hop].
  apply andb_true_iff in Hq as [Hq1 Hq2]. apply Z.leb_le in Hq1, Hq2.
  destruct Hbody as (l & rest & Hl & -> & Hrest).
  destruct op as [|q' op''].
  - simpl in Hrest. subst rest. rewrite append_empty_r.
    destruct (spelling_rune T q l HT (conj Hq1 Hq2) Hl) as (_ & _ & _ & _ & Hlast).
    exact Hlast.
  - destruct (IH Hop rest q' op'' eq_refl Hrest) as (pre & d & -> & Hd).
    exists (l ++ pre), d. split; [now rewrite append_assoc | exact Hd].
Qed.

(** A way to write a word starts with a rune that is no white space. *)
Lemma TrimLeftFunc_spelled (T : CaseTables) (p : ascii) (op body x : string) :
  upper_case_of_unicode T -> upper_letters (String p op) = true ->
  spells body (String p op) ->
  TrimLeftFunc (body ++ x) unicode_IsSpace = body ++ x.
Proof.
  intros HT Hop (l & rest & Hl & -> & Hrest).
  cbn [upper_letters] in Hop. apply andb_true_iff in Hop as [Hp _].
  apply andb_true_iff in Hp as [Hp1 Hp2]. apply Z.leb_le in Hp1, Hp2.
  destruct (spelling_rune T p l HT (conj Hp1 Hp2) Hl) as (c & Hdec & _ & Hspace & _).
  rewrite !append_assoc. rewrite TrimLeftFunc_step.
  - rewrite Hdec. cbn [fst]. now rewrite Hspace.
  - apply nonempty_app. eapply spelling_length; eassumption.
Qed.

Lemma HasPrefix_keyword_spec (T : CaseTables) (query op : string) :
  upper_case_of_unicode T ->
  In op writeOperations ->
  HasPrefix (ToUpper T (TrimSpace query)) op = true <-> starts_with_keyword query op.
Proof.
  intros HT Hin. destruct (writeOperations_upper op Hin) as (Hupper & p & op' & Hop).
  rewrite ToUpper_Map, TrimSpace_TrimFunc. unfold TrimFunc. split.
  - intros H. apply (Map_prefix_spelled T op HT Hupper) in H as (body & rest & Htrim & Hbody).
    destruct (TrimRightFunc_split (TrimLeftFunc query unicode_IsSpace)) as (n & Hright & _).
    destruct (TrimLeftFunc_split query) as (blank & Hleft & Hblank).
    exists blank, body, (rest ++ drop n (TrimLeftFunc query unicode_IsSpace)).
    split; [|split; [exact Hblank | exact Hbody]].
    rewrite <- (append_assoc body rest), <- Htrim, Hright, take_drop. exact Hleft.
  - intros (blank & body & rest & -> & Hblank & Hbody).
    rewrite TrimLeftFunc_white by exact Hblank.
    subst op. rewrite (TrimLeftFunc_spelled T p op') by assumption.
    destruct (spells_last T _ HT Hupper body p op' eq_refl Hbody) as (pre & d & -> & Hd).
    rewrite append_assoc. cbn [append].
    destruct (TrimRightFunc_keeps pre rest d Hd) as (rest' & -> & _).
    change (pre ++ String d rest') with (pre ++ String d "" ++ rest').
    rewrite <- append_assoc.
    rewrite (Map_spelled T _ HT Hupper _ _ Hbody). apply HasPrefix_app.
Qed.


(** C5, as the code has it.  For every statement [q], a string of any
    bytes, [IsWriteOperation q] is true exactly when [q], after its leading
    white space (the characters of [unicode.IsSpace]), starts with one of
    INSERT, UPDATE, DELETE, CREATE, DROP, ALTER, each letter written in upper
    or in lower case or, as [strings.ToUpper] follows the case tables of
    Unicode, the dotless i for I and the long s for S; and false otherwise.
    The keyword is matched as a prefix: it need not be the whole first
    token. *)
Theorem IsWriteOperation_prefix_spec (T : CaseTables) (q : string) :
  upper_case_of_unicode T ->
  (IsWriteOperation T q = true <->
     exists op, In op writeOperations /\ starts_with_keyword q op)
  /\ (IsWriteOperation T q = false <->
        ~ exists op, In op writeOperations /\ starts_with_keyword q op).
Proof.
  intros HT.
  assert (Htrue : IsWriteOperation T q = true <->
                  exists op, In op writeOperations /\ starts_with_keyword q op).
  { unfold IsWriteOperation. rewrite has_prefix_among_spec. split.
    - intros (op & Hin & H). exists op. split; [exact Hin|].
      now apply (HasPrefix_keyword_spec T).
    - intros (op & Hin & H). exists op. split; [exact Hin|].
      now apply (HasPrefix_keyword_spec T). }
  split; [exact Htrue|].
  rewrite <- Htrue. destruct (IsWriteOperation T q); split; congruence.
Qed.

Lemma sample_case_tables_fit : upper_case_of_unicode sample_case_tables.
Proof.
  split; [reflexivity|]. split; [reflexivity|].
  intros r Hr Hi Hs. simpl.
  destruct (Z.eqb_spec r 305); [contradiction|].
  destruct (Z.eqb_spec r 383); [contradiction | exact Hr].
Qed.

Lemma IsWriteOperation_prefix_spec_witness :
  upper_case_of_unicode sample_case_tables
  /\ IsWriteOperation sample_case_tables sample_statement = true
  /\ exists op, In op writeOperations /\ starts_with_keyword sample_statement op.
Proof.
  split; [exact sample_case_tables_fit|]. split; [vm_compute; reflexivity|].
  apply (IsWriteOperation_prefix_spec sample_case_tables sample_statement
           sample_case_tables_fit).
  vm_compute. reflexivity.
Defined.

(** C5, as it is worded, fails: [droplet] is classified as a write although
    its first token is none of the six keywords. *)
Lemma IsWriteOperation_not_first_token :
  first_token "droplet" = "droplet"
  /\ (forall T, first_token_is_write T "droplet" = false)
  /\ (forall T, IsWriteOperation T "droplet" = true).
Proof. repeat split. Qed.

(** ** Connection strings *)

Lemma remote_key_spec (name : string) :
  ((exists pre, name = pre ++ ".db") -> remote_key name = name)
  /\ (~ (exists pre, name = pre ++ ".db") -> remote_key name = name ++ ".db").
Proof.
  unfold remote_key. destruct (HasSuffix name ".db") eqn:H.
  - split; [reflexivity|]. intros Hno. apply HasSuffix_spec in H. contradiction.
  - split; [|reflexivity]. intros Hyes. apply HasSuffix_spec in Hyes. congruence.
Qed.

(** C10, as the code has it.  [GetConnectionString] returns a nil error for
    every record.  The URI is [file:/<name>?vfs=memory] when the stage is the
    memory tier; else [file:<path>?vfs=disk] when it is the local tier; else,
    when it is the remote tier, [file:<key>?vfs=r2] where the key is the name
    itself if the name ends with [.db] and the name followed by [.db] if it
    does not; and [file:<path>?vfs=disk] when the stage is none of the
    three. *)
Theorem GetConnectionString_never_fails (cfg : Config) (db : Database) :
  let uri := fst (GetConnectionString cfg db) in
  snd (GetConnectionString cfg db) = None
  /\ (Stage db = Memory_StageNumber cfg ->
      uri = "file:/" ++ Name db ++ "?vfs=memory")
  /\ (Stage db <> Memory_StageNumber cfg -> Stage db = Local_StageNumber cfg ->
      uri = "file:" ++ Path db ++ "?vfs=disk")
  /\ (Stage db <> Memory_StageNumber cfg -> Stage db <> Local_StageNumber cfg ->
      Stage db = Remote_StageNumber cfg ->
      ((exists pre, Name db = pre ++ ".db") -> uri = "file:" ++ Name db ++ "?vfs=r2")
      /\ (~ (exists pre, Name db = pre ++ ".db") ->
          uri = "file:" ++ (Name db ++ ".db") ++ "?vfs=r2"))
  /\ (Stage db <> Memory_StageNumber cfg -> Stage db <> Local_StageNumber cfg ->
      Stage db <> Remote_StageNumber cfg ->
      uri = "file:" ++ Path db ++ "?vfs=disk").
Proof.
  unfold GetConnectionString.
  fold (remote_key (Name db)).
  replace (if negb (HasSuffix (Name db) ".db") then Name db ++ ".db" else Name db)
    with (remote_key (Name db))
    by (unfold remote_key; now destruct (HasSuffix (Name db) ".db")).
  destruct (remote_key_spec (Name db)) as [Hends Hnot].
  destruct (Z.eqb_spec (Stage db) (Memory_StageNumber cfg)) as [Hm|Hm];
    [|destruct (Z.eqb_spec (Stage db) (Local_StageNumber cfg)) as [Hl|Hl];
      [|destruct (Z.eqb_spec (Stage db) (Remote_StageNumber cfg)) as [Hr|Hr]]];
    simpl; repeat split; intros; try reflexivity; try contradiction.
  - now rewrite Hends.
  - now rewrite Hnot.
Qed.

Lemma GetConnectionString_never_fails_witness :
  snd (GetConnectionString default_config (mkDatabase "/p/u.db" "u" 9 0 0)) = None
  /\ fst (GetConnectionString default_config (mkDatabase "/p/u.db" "u" 9 0 0))
     = "file:/p/u.db?vfs=disk".
Proof.
  pose proof (GetConnectionString_never_fails default_config (mkDatabase "/p/u.db" "u" 9 0 0))
    as (Hnil & _ & _ & _ & Hfallback).
  split; [exact Hnil|].
  apply Hfallback; simpl; lia.
Defined.

(** C10, as it is worded, fails: a record of the remote tier whose name ends
    with [.db] does not get [.db] added again. *)
Lemma GetConnectionString_keeps_db_suffix :
  let db := mkDatabase "a.db" "a.db" 3 0 0 in
  Stage db = Remote_StageNumber default_config
  /\ GetConnectionString default_config db = ("file:a.db?vfs=r2", None)
  /\ fst (GetConnectionString default_config db) <> "file:" ++ Name db ++ ".db?vfs=r2".
Proof. simpl. repeat split. discriminate. Qed.

(** ** The log of calls only grows *)

Lemma extends_refl (w : World) : extends w w.
Proof. exists []. now rewrite app_nil_r. Qed.

Lemma extends_trans (w1 w2 w3 : World) : extends w1 w2 -> extends w2 w3 -> extends w1 w3.
Proof.
  intros [m1 H1] [m2 H2]. exists (m1 ++ m2)%list.
  now rewrite H2, H1, app_assoc.
Qed.

Lemma appending_ret {A : Type} (a : A) : appending (ret a).
Proof. intros w. apply extends_refl. Qed.

Lemma appending_bind {A B : Type} (m : M A) (k : A -> M B) :
  appending m -> (forall a, appending (k a)) -> appending (bind m k).
Proof.
  intros Hm Hk w. unfold bind.
  specialize (Hm w). destruct (m w) as [a w1]. simpl in Hm.
  eapply extends_trans; [exact Hm | apply Hk].
Qed.

Lemma appending_tell (c : call) : appending (tell c).
Proof. intros w. now exists [c]. Qed.

Lemma appending_ask (c : call) : appending (ask c).
Proof. intros w. unfold ask. destruct (script w); now exists [c]. Qed.

Ltac appending_step :=
  match goal with
  | |- appending (bind _ _) => apply appending_bind; [|intros ?]
  | |- appending (ret _) => apply appending_ret
  | |- appending (tell _) => apply appending_tell
  | |- appending (ask _) => apply appending_ask
  | |- appending (match ?x with _ => _ end) => destruct x
  | |- appending (if ?b then _ else _) => destruct b
  end.

Ltac appending_auto :=
  unfold deferring, mutex_Lock, mutex_Unlock, sql_Open, db_Ping, db_Exec, db_Query,
    db_QueryRowInt, db_QueryRowText, db_Close, memoryvfs_Delete, localvfs_Delete,
    remotevfs_Delete, time_Sleep;
  repeat appending_step.

Lemma executeDatabaseCopy_loop_appending (remaining : nat) (attempt : Z)
    (sourceDB targetConnection : string) (lastErr : option string) :
  appending (executeDatabaseCopy_loop remaining attempt sourceDB targetConnection lastErr).
Proof.
  revert attempt lastErr. induction remaining as [|remaining IH]; intros attempt lastErr; simpl.
  - apply appending_ret.
  - appending_auto. apply IH.
Qed.

Lemma copyDataBetweenStages_appending (cfg : Config) (U : StageUtils)
    (db : Database) (sourceStage targetStage : Z) :
  appending (copyDataBetweenStages cfg U db sourceStage targetStage).
Proof.
  unfold copyDataBetweenStages, deleteTargetFile, executeDatabaseCopy.
  appending_auto; apply executeDatabaseCopy_loop_appending.
Qed.

Lemma syncToStage_appending (cfg : Config) (U : StageUtils) (db : Database) (targetStage : Z) :
  appending (syncToStage cfg U db targetStage).
Proof.
  unfold syncToStage. appending_auto. apply copyDataBetweenStages_appending.
Qed.

(** ** The registry *)

Lemma FindByName_not_found (items : list Database) (name : string) :
  FindByName items name = (None, Some (Errorf "Database not found" []))
  <-> ~ In name (names items).
Proof.
  induction items as [|item items IH]; simpl.
  - split; [tauto | reflexivity].
  - destruct (String.eqb_spec (Name item) name) as [Heq|Hneq].
    + split; [discriminate | tauto].
    + rewrite IH. tauto.
Qed.

Lemma FindByName_found (items : list Database) (name : string) :
  In name (names items) ->
  exists db, FindByName items name = (Some db, None) /\ Name db = name /\ In db items.
Proof.
  induction items as [|item items IH]; simpl; [tauto|].
  intros Hin. destruct (String.eqb_spec (Name item) name) as [Heq|Hneq].
  - exists item. auto.
  - destruct Hin as [Hin|Hin]; [contradiction|].
    destruct (IH Hin) as (db & Hfind & Hname & Hdb). exists db. auto.
Qed.





(** What [CreateDatabaseAndInitialize] does to the registry: nothing when
    it fails, one more record with the requested name when it succeeds. *)
Lemma CreateDatabaseAndInitialize_items (cfg : Config) (items : list Database)
    (name : string) (stage : Z) (w : World) :
  let '(created, err, items', _) := CreateDatabaseAndInitialize cfg items name stage w in
  match err with
  | Some _ => created = None /\ items' = items
  | None => exists db, created = Some db /\ Name db = name /\ Stage db = stage
                       /\ items' = (items ++ [db])%list
  end.
Proof.
  unfold CreateDatabaseAndInitialize.
  set (path := if stage =? Memory_StageNumber cfg then _ else _).
  destruct path as [path|]; [|simpl; auto].
  unfold bind, time_Now, ret.
  destruct (initialize cfg _ w) as [[e|] w']; simpl; [auto|].
  eexists. repeat split.
Qed.



(** [CreateDatabaseAndInitialize] itself does not look the name up: it is
    the route that does.  Called for a name the registry has, it appends a
    second record of that name. *)
Example CreateDatabaseAndInitialize_appends_unchecked :
  exists created items' w',
    fst (FindByName [sample_database 3 0] "u") = Some (sample_database 3 0)
    /\ CreateDatabaseAndInitialize default_config [sample_database 3 0] "u" 3 (calm_world 7)
       = (Some created, None, items', w')
    /\ names items' = ["u"; "u"].
Proof.
  eexists _, _, _. split; [reflexivity|]. split; [vm_compute; reflexivity|]. reflexivity.
Qed.

(** ** Removal from a stage *)

(** C8.  [RemoveFromStage] called for the stage the record is at returns an
    error and leaves the world as it was: no call reaches the memory store,
    the local file system or the remote store.  The same holds for a stage
    outside the range the function accepts.  Both revisions of the function
    are covered: the one over the configured removable stages and the one
    over the fixed stages 1 to 3. *)
Theorem RemoveFromStage_refuses (cfg : Config) (U : StageUtils)
    (db : Database) (s : Z) (w : World) :
  ((s = Stage db \/ IsRemovableStage U s = false) ->
   exists e, RemoveFromStage U db s w = (Some e, w))
  /\ ((s = Stage db \/ s < 1 \/ 3 < s) ->
      exists e, FixedTiers.RemoveFromStage cfg db s w = (Some e, w)).
Proof.
  split.
  - intros H. unfold RemoveFromStage.
    destruct (IsRemovableStage U s) eqn:Hremovable; simpl.
    + destruct H as [->|H]; [|discriminate].
      rewrite Z.eqb_refl. eexists. reflexivity.
    + eexists. reflexivity.
  - intros H. unfold FixedTiers.RemoveFromStage.
    destruct ((s <? 1) || (s >? 3)) eqn:Hrange; [eexists; reflexivity|].
    apply orb_false_iff in Hrange as [Hlow Hhigh].
    apply Z.ltb_ge in Hlow. rewrite Z.gtb_ltb in Hhigh. apply Z.ltb_ge in Hhigh.
    destruct H as [->|H]; [|lia].
    rewrite Z.eqb_refl. eexists. reflexivity.
Qed.

Lemma RemoveFromStage_refuses_witness :
  (exists e, RemoveFromStage (config_utils default_config) (sample_database 2 0) 2 (calm_world 0)
             = (Some e, calm_world 0))
  /\ (exists e, FixedTiers.RemoveFromStage default_config (sample_database 2 0) 7 (calm_world 0)
                = (Some e, calm_world 0)).
Proof.
  split.
  - apply (RemoveFromStage_refuses default_config (config_utils default_config)
             (sample_database 2 0) 2 (calm_world 0)).
    left. reflexivity.
  - apply (RemoveFromStage_refuses default_config (config_utils default_config)
             (sample_database 2 0) 7 (calm_world 0)).
    right. right. reflexivity.
Defined.

(** ** Moving between stages *)

Lemma updateDatabasePath_fields (cfg : Config) (U : StageUtils) (db : Database) (s : Z) :
  Stage (updateDatabasePath cfg U db s) = Stage db
  /\ Name (updateDatabasePath cfg U db s) = Name db
  /\ LastAccessed (updateDatabasePath cfg U db s) = LastAccessed db
  /\ RequestCount (updateDatabasePath cfg U db s) = RequestCount db.
Proof.
  unfold updateDatabasePath.
  destruct (s =? GetLocalStage U); [|destruct (s =? GetRemoteStage U)]; repeat split.
Qed.

(** C1, as the code has it.  For a valid target tier [t]: when
    [MoveToStage] succeeds the record is at stage [t] and its request count
    is what it was before the call ([MoveToStage] never writes the counter;
    its callers reset it before they call); when [MoveToStage] fails the
    stage of the record is what it was before the call. *)
Theorem MoveToStage_stage_and_count (cfg : Config) (U : StageUtils)
    (db : Database) (t : Z) (w : World) :
  IsValidStage U t = true ->
  match MoveToStage cfg U db t w with
  | (None, db', _) => Stage db' = t /\ RequestCount db' = RequestCount db
  | (Some _, db', _) => Stage db' = Stage db
  end.
Proof.
  intros Hvalid. unfold MoveToStage. rewrite Hvalid. simpl.
  destruct (Z.eqb_spec (Stage db) t) as [Heq|Hneq]; [simpl; auto|].
  unfold bind. destruct (syncToStage cfg U db t w) as [[e|] w1]; [reflexivity|].
  destruct (updateDatabasePath_fields cfg U (SetStage db t) t) as (Hstage & _ & _ & Hcount).
  destruct (t <? Stage db); [|simpl; auto].
  destruct (GetConnectionString cfg _) as [conn [e|]].
  - simpl.
    now destruct (updateDatabasePath_fields cfg U
                    (SetStage (updateDatabasePath cfg U (SetStage db t) t) (Stage db))
                    (Stage db)) as (-> & _).
  - destruct (VerifyDatabaseIntegrity conn w1) as [verdict w2]. simpl. auto.
Qed.

Lemma MoveToStage_stage_and_count_witness :
  IsValidStage (config_utils default_config) 2 = true
  /\ exists db' w',
       MoveToStage default_config (config_utils default_config) (sample_database 3 5) 2
         (calm_world 0) = (None, db', w')
       /\ Stage db' = 2 /\ RequestCount db' = RequestCount (sample_database 3 5).
Proof.
  split; [reflexivity|].
  pose proof (MoveToStage_stage_and_count default_config (config_utils default_config)
                (sample_database 3 5) 2 (calm_world 0) eq_refl) as H.
  vm_compute in H.
  eexists _, _. split; [vm_compute; reflexivity | exact H].
Defined.

(** C1, as it is worded, fails: a successful move leaves the request count
    of the record at 5. *)
Lemma MoveToStage_keeps_request_count :
  IsValidStage (config_utils default_config) 2 = true
  /\ exists db' w',
       MoveToStage default_config (config_utils default_config) (sample_database 3 5) 2
         (calm_world 0) = (None, db', w')
       /\ Stage db' = 2 /\ RequestCount db' = 5 /\ RequestCount db' <> 0.
Proof.
  split; [reflexivity|].
  eexists _, _. split; [vm_compute; reflexivity|].
  simpl. repeat split. discriminate.
Qed.

(** ** Promotion *)

(** C3, as the code has it.  For a record that is not at the closest stage
    and has a closer stage to go to, when the connectivity probe of the
    source fails [PromoteToCloserStage] returns with the stage, the path and
    the time of last access of the record as they were, and with the request
    count at 0: the counter is reset before the probe.  Nothing is called
    but the mutex and the probe. *)
Theorem PromoteToCloserStage_failed_probe (cfg : Config) (U : StageUtils)
    (db : Database) (w : World) :
  IsClosestStage U (Stage db) = false ->
  GetNextCloserStage U (Stage db) <> 0 ->
  probe_fails w = true ->
  let db' := fst (PromoteToCloserStage cfg U db w) in
  let w' := snd (PromoteToCloserStage cfg U db w) in
  let conn := fst (GetConnectionString cfg db) in
  Stage db' = Stage db /\ Path db' = Path db /\ LastAccessed db' = LastAccessed db
  /\ RequestCount db' = 0
  /\ (calls w' = (calls w ++ [CallLock (Name db); CallOpen conn; CallUnlock (Name db)])%list
      \/ calls w' = (calls w ++ [CallLock (Name db); CallOpen conn; CallPing conn;
                                 CallUnlock (Name db)])%list).
Proof.
  intros Hclosest Htarget Hprobe.
  unfold PromoteToCloserStage, deferring, bind, mutex_Lock, mutex_Unlock, tell, log_call.
  simpl. rewrite Hclosest.
  destruct (Z.eqb_spec (GetNextCloserStage U (Stage db)) 0) as [|_]; [contradiction|].
  assert (Hconn : GetConnectionString cfg (SetRequestCount db 0)
                  = (fst (GetConnectionString cfg db), None)).
  { unfold GetConnectionString, SetRequestCount. simpl.
    repeat match goal with |- context [if ?b then _ else _] => destruct b end; reflexivity. }
  rewrite Hconn.
  unfold probe_fails in Hprobe.
  unfold sql_Open, db_Ping, bind, ask, ret, log_call. simpl.
  destruct (script w) as [|r1 [|r2 rs]]; try discriminate.
  - destruct r1; try discriminate. simpl.
    repeat split. left. now rewrite <- !app_assoc.
  - destruct r1; simpl; try (repeat split; left; now rewrite <- !app_assoc);
      destruct r2; try discriminate; simpl;
      repeat split; right; now rewrite <- !app_assoc.
Qed.

Lemma PromoteToCloserStage_failed_probe_witness :
  let w := scripted_world [ROk; RFail "unreachable"] 0 in
  let db' := fst (PromoteToCloserStage default_config (config_utils default_config)
                    (sample_database 3 5) w) in
  Stage db' = 3 /\ Path db' = "u" /\ LastAccessed db' = 0 /\ RequestCount db' = 0.
Proof.
  pose proof (PromoteToCloserStage_failed_probe default_config (config_utils default_config)
                (sample_database 3 5) (scripted_world [ROk; RFail "unreachable"] 0)
                eq_refl) as H.
  simpl. simpl in H.
  destruct H as (Hstage & Hpath & Haccess & Hcount & _); [discriminate | reflexivity |].
  auto.
Defined.

(** C3, as it is worded, fails: the probe fails and the request count of
    the record, 5 before the call, is 0 after it. *)
Lemma PromoteToCloserStage_resets_count_before_probe :
  let db := sample_database 3 5 in
  let w := scripted_world [ROk; RFail "unreachable"] 0 in
  let db' := fst (PromoteToCloserStage default_config (config_utils default_config) db w) in
  IsClosestStage (config_utils default_config) (Stage db) = false
  /\ probe_fails w = true
  /\ Stage db' = Stage db
  /\ RequestCount db = 5 /\ RequestCount db' = 0
  /\ RequestCount db' <> RequestCount db.
Proof. simpl. repeat split. discriminate. Qed.

(** ** Demotion *)

(** The comparison of [demoteToFartherStage], [timeSinceAccess <
    timeoutDuration], is the comparison of the two times as long as the
    timeout, in nanoseconds, is a [time.Duration]: the difference saturates
    at the ends of int64, and no multiple of 10^9 is one of these ends. *)
Lemma recent_access_check_exact (cfg : Config) (now last : Z) :
  int64_min <= StageTimeoutSeconds cfg * time_Second <= int64_max ->
  (time_Since now last <? timeoutDuration cfg)
  = (now - last <? StageTimeoutSeconds cfg * time_Second).
Proof.
  intros Hfits. unfold timeoutDuration. rewrite int64_wrap_exact by exact Hfits.
  unfold time_Since, int64_saturate, int64_min, int64_max, time_Second in *.
  destruct (Z.ltb_spec (now - last) (- 2 ^ 63)).
  - destruct (Z.ltb_spec (- 2 ^ 63) (StageTimeoutSeconds cfg * 1000000000));
      destruct (Z.ltb_spec (now - last) (StageTimeoutSeconds cfg * 1000000000)); lia.
  - destruct (Z.ltb_spec (2 ^ 63 - 1) (now - last)).
    + destruct (Z.ltb_spec (2 ^ 63 - 1) (StageTimeoutSeconds cfg * 1000000000));
        destruct (Z.ltb_spec (now - last) (StageTimeoutSeconds cfg * 1000000000)); lia.
    + reflexivity.
Qed.

(** C4, as the code has it.  With a timeout that a [time.Duration] can
    hold (the seconds of the configuration times 10^9 within int64), a
    record that was accessed within the timeout, [now - last_accessed <
    timeout] with the clock read under the write lock of the record, is not
    demoted: [demoteToFartherStage] returns with the record as it was, no
    change of stage, no reset of the request count.  It has called nothing
    but the lock and the unlock of the mutex, so no copy was made. *)
Theorem demoteToFartherStage_recent_access (cfg : Config) (U : StageUtils)
    (fuel : nat) (db : Database) (w : World) :
  int64_min <= StageTimeoutSeconds cfg * time_Second <= int64_max ->
  clock w - LastAccessed db < StageTimeoutSeconds cfg * time_Second ->
  demoteToFartherStage cfg U fuel db w
  = Some (db, mkWorld (script w)
                (calls w ++ [CallLock (Name db); CallUnlock (Name db)])%list (clock w)).
Proof.
  intros Hfits Hrecent. apply Z.ltb_lt in Hrecent.
  rewrite <- (recent_access_check_exact cfg _ _ Hfits) in Hrecent.
  unfold demoteToFartherStage, mutex_Lock, mutex_Unlock, tell, time_Now, log_call. simpl.
  rewrite Hrecent, <- app_assoc. simpl.
  now destruct (IsFarthestStage U (Stage db)).
Qed.

Lemma demoteToFartherStage_recent_access_witness :
  demoteToFartherStage default_config (config_utils default_config) 0
    (sample_database 2 4) (calm_world 100)
  = Some (sample_database 2 4, mkWorld [] [CallLock "u"; CallUnlock "u"] 100).
Proof.
  apply (demoteToFartherStage_recent_access default_config (config_utils default_config) 0
           (sample_database 2 4) (calm_world 100)).
  - vm_compute. split; discriminate.
  - vm_compute. reflexivity.
Defined.

(** C4, as it is worded, fails: with a timeout of 9223372037 seconds the
    product with 10^9 does not fit int64 and wraps to a negative duration.
    A record of the local stage that was accessed one second ago, well
    within the timeout, is then demoted to the remote stage and its request
    count is reset. *)
Lemma demoteToFartherStage_overflowing_timeout :
  let cfg := mkConfig 1 2 3 "./storage" 3 9223372037 true true 2 in
  let db := mkDatabase "./storage/u.db" "u" 2 0 4 in
  let w := calm_world 1000000000 in
  clock w - LastAccessed db < StageTimeoutSeconds cfg * time_Second
  /\ timeoutDuration cfg = -9223372036709551616
  /\ exists w',
       demoteToFartherStage cfg (config_utils cfg) 9 db w
       = Some (mkDatabase "u" "u" 3 0 0, w')
       /\ In (CallExec "file:./storage/u.db?vfs=disk" "VACUUM INTO ?" ["file:u.db?vfs=r2"])
             (calls w').
Proof.
  split; [vm_compute; reflexivity|]. split; [vm_compute; reflexivity|].
  eexists. split; [vm_compute; reflexivity|]. simpl. auto 30.
Qed.

(** ** Synchronisation to the upper stages *)

Lemma last_cons {A : Type} (a d : A) (l : list A) : last (a :: l) d = last l a.
Proof.
  revert a d. induction l as [|b l IH]; intros a d; [reflexivity|].
  change (last (a :: b :: l) d) with (last (b :: l) d).
  now rewrite (IH b d), (IH b a).
Qed.

Lemma chain_ascending (U : StageUtils) (from : Z) (stages : list Z) :
  next_farther_ascends U ->
  chain (GetNextFartherStage U) from stages ->
  Forall (fun s => s <> 0) stages ->
  StronglySorted Z.lt (from :: stages).
Proof.
  intros Hnext. revert from.
  induction stages as [|s stages IH]; intros from Hchain Hnonzero.
  - repeat constructor.
  - destruct Hchain as [Hs Hchain].
    inversion Hnonzero as [|? ? Hs0 Hrest]; subst.
    specialize (IH _ Hchain Hrest).
    assert (Hlt : from < GetNextFartherStage U from) by (destruct (Hnext from); [contradiction | assumption]).
    constructor; [exact IH|].
    constructor; [exact Hlt|].
    apply StronglySorted_inv in IH as [_ Hall].
    eapply Forall_impl; [|exact Hall]. simpl. intros. lia.
Qed.

(** The loop of [SyncToUpperStages], entered with [stage] the stage after
    [prev]: it returns once it has fuel for the stages up to the farthest
    one, and what it has done is to call [syncToStage] for the stages it
    reports, one after the other. *)
Lemma sync_upper_loop_spec (cfg : Config) (U : StageUtils) (db : Database) :
  next_farther_ascends U ->
  forall (n : nat) (prev : Z) (acc : list (Z * option error)) (w : World),
    (GetNextFartherStage U prev = 0
     \/ GetFarthestStage U - GetNextFartherStage U prev < Z.of_nat n) ->
    exists attempts w',
      (forall fuel, (n < fuel)%nat ->
         sync_upper_loop cfg U fuel db (GetNextFartherStage U prev) acc w
         = Some ((acc ++ attempts)%list, w'))
      /\ extends w w'
      /\ chain (GetNextFartherStage U) prev (map fst attempts)
      /\ Forall (fun s => s <> 0 /\ s <= GetFarthestStage U) (map fst attempts)
      /\ stops_at_first_failure attempts
      /\ (all_succeeded attempts ->
          let stop := GetNextFartherStage U (last (map fst attempts) prev) in
          stop = 0 \/ GetFarthestStage U < stop)
      /\ syncs_in_turn cfg U db (map fst attempts) w = (attempts, w').
Proof.
  intros Hnext. induction n as [|n IH]; intros prev acc w Hmeasure.
  - (* no stage is left *)
    exists [], w. rewrite app_nil_r.
    assert (Hout : negb (GetNextFartherStage U prev =? 0)
                   && (GetNextFartherStage U prev <=? GetFarthestStage U) = false).
    { destruct (Z.eqb_spec (GetNextFartherStage U prev) 0); [reflexivity|]. simpl.
      apply Z.leb_gt. simpl in Hmeasure. lia. }
    repeat split; simpl; auto using extends_refl.
    + intros [|fuel] Hfuel; [lia|]. simpl. now rewrite Hout.
    + intros _. destruct (Z.eqb_spec (GetNextFartherStage U prev) 0); [now left | right].
      simpl in Hout. apply Z.leb_gt in Hout. exact Hout.
  - set (stage := GetNextFartherStage U prev) in *.
    destruct (negb (stage =? 0) && (stage <=? GetFarthestStage U)) eqn:Hcond.
    + apply andb_true_iff in Hcond as [Hnonzero Hfar].
      apply negb_true_iff, Z.eqb_neq in Hnonzero. apply Z.leb_le in Hfar.
      assert (Hcond : negb (stage =? 0) && (stage <=? GetFarthestStage U) = true).
      { apply andb_true_iff. split; [now apply negb_true_iff, Z.eqb_neq | now apply Z.leb_le]. }
      pose proof (syncToStage_appending cfg U db stage w) as Hsync.
      destruct (syncToStage cfg U db stage w) as [[e|] w1] eqn:Hcall; simpl in Hsync.
      * (* the sync fails: the loop breaks *)
        exists [(stage, Some e)], w1.
        repeat split; simpl; auto.
        -- intros [|fuel] Hfuel; [lia|]. simpl. fold stage. now rewrite Hcond, Hcall.
        -- intros Hall. inversion Hall as [|? ? Hhead _]; subst. discriminate.
        -- now rewrite Hcall.
      * (* the sync succeeds: on to the next stage *)
        assert (Hnext_measure :
                  GetNextFartherStage U stage = 0
                  \/ GetFarthestStage U - GetNextFartherStage U stage < Z.of_nat n).
        { destruct (Hnext stage) as [Hzero|Hup]; [now left | right].
          destruct Hmeasure as [Hzero|Hmeasure]; [contradiction | lia]. }
        destruct (IH stage (acc ++ [(stage, None)])%list w1 Hnext_measure)
          as (attempts & w' & Hrun & Hext & Hchain & Hrange & Hstops & Hdone & Hturn).
        exists ((stage, None) :: attempts), w'.
        split; [|split; [|split; [|split; [|split; [|split]]]]].
        -- intros [|fuel] Hfuel; [lia|]. simpl. fold stage. rewrite Hcond, Hcall.
           rewrite (Hrun fuel) by lia. now rewrite <- app_assoc.
        -- eapply extends_trans; eassumption.
        -- simpl. auto.
        -- simpl. constructor; auto.
        -- destruct attempts as [|a attempts]; simpl; auto.
        -- intros Hall. inversion Hall as [|? ? _ Hrest]; subst.
           simpl map. rewrite last_cons. now apply Hdone.
        -- simpl. now rewrite Hcall, Hturn.
    + (* no stage is left *)
      exists [], w. rewrite app_nil_r.
      repeat split; simpl; auto using extends_refl.
      * intros [|fuel] Hfuel; [lia|]. simpl. fold stage. now rewrite Hcond.
      * intros _. fold stage.
        destruct (Z.eqb_spec stage 0); [now left | right].
        simpl in Hcond. apply Z.leb_gt in Hcond. exact Hcond.
Qed.

(** C6, as the code has it.  [SyncToUpperStages] does nothing when
    auto-sync is disabled.  Otherwise, between the lock and the unlock of the
    mutex of the record, it calls [syncToStage] (the connectivity checks and
    the copy from the current stage) for the next farther stage of the
    current one, then for the next farther stage of that one, and so on, in
    increasing order and strictly above the current stage, as long as the
    stage is at most the farthest stage [GetFarthestStage()]: the bound is
    the farthest stage, not the persistence stage.  It stops at the first
    stage whose sync fails, and otherwise goes through all of them.  The
    calls it has made are the lock, the calls of [syncToStage] for these
    stages one after the other, each started in the world the one before
    left, and the unlock; the result reported for a stage is what
    [syncToStage] returned for it.  The record is as it was when it
    returns. *)
Theorem SyncToUpperStages_walks_to_farthest (cfg : Config) (U : StageUtils)
    (db : Database) (w : World) :
  next_farther_ascends U ->
  (AutoSyncEnabled cfg = false ->
   forall fuel, SyncToUpperStages cfg U fuel db w = Some (db, [], w))
  /\ (AutoSyncEnabled cfg = true ->
      exists fuel attempts w',
        (forall fuel', (fuel <= fuel')%nat ->
           SyncToUpperStages cfg U fuel' db w = Some (db, attempts, w'))
        /\ chain (GetNextFartherStage U) (Stage db) (map fst attempts)
        /\ StronglySorted Z.lt (Stage db :: map fst attempts)
        /\ Forall (fun s => s <= GetFarthestStage U) (map fst attempts)
        /\ stops_at_first_failure attempts
        /\ (all_succeeded attempts ->
            let stop := GetNextFartherStage U (last (map fst attempts) (Stage db)) in
            stop = 0 \/ GetFarthestStage U < stop)
        /\ (exists inner,
              calls w' = (calls w ++ [CallLock (Name db)] ++ inner
                                  ++ [CallUnlock (Name db)])%list)
        /\ exists w1,
             syncs_in_turn cfg U db (map fst attempts) (log_call (CallLock (Name db)) w)
             = (attempts, w1)
             /\ w' = log_call (CallUnlock (Name db)) w1).
Proof.
  intros Hnext. split.
  - intros Hoff fuel. unfold SyncToUpperStages. now rewrite Hoff.
  - intros Hon.
    set (n := S (Z.to_nat (GetFarthestStage U - GetNextFartherStage U (Stage db)))).
    assert (Hmeasure : GetNextFartherStage U (Stage db) = 0
                       \/ GetFarthestStage U - GetNextFartherStage U (Stage db) < Z.of_nat n)
      by (right; unfold n; lia).
    destruct (sync_upper_loop_spec cfg U db Hnext n (Stage db) []
                (log_call (CallLock (Name db)) w) Hmeasure)
      as (attempts & w1 & Hrun & [inner Hinner] & Hchain & Hrange & Hstops & Hdone & Hturn).
    exists (S n), attempts, (log_call (CallUnlock (Name db)) w1).
    split; [|split; [|split; [|split; [|split; [|split; [|split]]]]]]; auto.
    + intros fuel Hfuel. unfold SyncToUpperStages, mutex_Lock, mutex_Unlock, tell.
      rewrite Hon. simpl. rewrite (Hrun fuel) by lia. reflexivity.
    + apply (chain_ascending U); [assumption | assumption |].
      eapply Forall_impl; [|exact Hrange]. simpl. tauto.
    + eapply Forall_impl; [|exact Hrange]. simpl. tauto.
    + exists inner. simpl. rewrite Hinner. simpl. now rewrite <- !app_assoc.
    + exists w1. split; [exact Hturn | reflexivity].
Qed.

Lemma config_utils_ascends (cfg : Config) : next_farther_ascends (config_utils cfg).
Proof.
  intros s.
  change (GetNextFartherStage (config_utils cfg) s) with (least_above s (tier_indices cfg)).
  generalize (tier_indices cfg). intros tiers.
  induction tiers as [|t tiers IH]; simpl; [now left|].
  destruct (Z.ltb_spec s t) as [Hlt|Hge]; [|exact IH].
  destruct ((least_above s tiers =? 0) || (t <? least_above s tiers)); [now right | exact IH].
Qed.

Lemma SyncToUpperStages_walks_to_farthest_witness :
  let db := mkDatabase "./storage/u.db" "u" 2 0 0 in
  exists fuel attempts w' w1,
    SyncToUpperStages default_config (config_utils default_config) fuel db (calm_world 0)
    = Some (db, attempts, w')
    /\ StronglySorted Z.lt (Stage db :: map fst attempts)
    /\ Forall (fun s => s <= GetFarthestStage (config_utils default_config)) (map fst attempts)
    /\ syncs_in_turn default_config (config_utils default_config) db (map fst attempts)
         (log_call (CallLock (Name db)) (calm_world 0)) = (attempts, w1)
    /\ w' = log_call (CallUnlock (Name db)) w1.
Proof.
  intros db.
  destruct (proj2 (SyncToUpperStages_walks_to_farthest default_config
                     (config_utils default_config) db (calm_world 0)
                     (config_utils_ascends default_config)) eq_refl)
    as (fuel & attempts & w' & Hrun & _ & Hsorted & Hrange & _ & _ & _ & w1 & Hturn & Hw).
  exists fuel, attempts, w', w1. repeat split; auto.
Defined.

(** On the sample record the walk is the one call for stage 3, and the
    world holds the calls of that [syncToStage] between the lock and the
    unlock. *)
Example SyncToUpperStages_sample_calls :
  let db := mkDatabase "./storage/u.db" "u" 2 0 0 in
  exists w',
    SyncToUpperStages default_config (config_utils default_config) 2 db (calm_world 0)
    = Some (db, [(3, None)], w')
    /\ hd_error (calls w') = Some (CallLock "u")
    /\ last (calls w') (CallSleep 0) = CallUnlock "u"
    /\ In (CallExec "file:./storage/u.db?vfs=disk" "VACUUM INTO ?" ["file:u.db?vfs=r2"])
          (calls w').
Proof.
  eexists. split; [vm_compute; reflexivity|].
  repeat split. simpl. auto 20.
Qed.

(** C6, as it is worded, fails: with the persistence stage set to 2, a
    record at stage 2 is still copied to stage 3. *)
Lemma SyncToUpperStages_passes_persistence_stage :
  let cfg := mkConfig 1 2 3 "./storage" 2 300 true true 2 in
  let db := mkDatabase "./storage/u.db" "u" 2 0 0 in
  exists w',
    SyncToUpperStages cfg (config_utils cfg) 2 db (calm_world 0) = Some (db, [(3, None)], w')
    /\ PersistenceStage cfg = 2
    /\ Stage db = 2
    /\ In (CallExec "file:./storage/u.db?vfs=disk" "VACUUM INTO ?" ["file:u.db?vfs=r2"])
          (calls w').
Proof.
  eexists. split; [vm_compute; reflexivity|].
  repeat split. simpl. auto 20.
Qed.

(** ** Deletion *)

Lemma countdown_range (count : nat) (high s : Z) :
  In s (countdown count high) -> high - Z.of_nat count < s <= high.
Proof.
  revert high. induction count as [|count IH]; intros high; simpl; [tauto|].
  intros [<-|Hin]; [lia|]. apply IH in Hin. lia.
Qed.

(** The loop of [Delete] entered at [stage] with [count] stages left above
    or at the stage of the record, which is at least 1: it calls
    [RemoveFromStage] for each of them, going down, and returns. *)
Lemma Delete_loop_counts_down (remove : Database -> Z -> M (option error)) (db : Database) :
  1 <= Stage db ->
  forall (count : nat) (stage : Z) (acc : list (Z * option error)) (w : World),
    stage < uint_modulus ->
    Z.of_nat count = stage - Stage db + 1 ->
    exists removals w',
      (forall fuel, (count < fuel)%nat ->
         Delete_loop remove fuel db stage acc w = Some ((acc ++ removals)%list, w'))
      /\ map fst removals = countdown count stage.
Proof.
  intros Hstage. induction count as [|count IH]; intros stage acc w Hmax Hcount.
  - exists [], w. rewrite app_nil_r. split; [|reflexivity].
    intros [|fuel] Hfuel; [lia|]. simpl.
    rewrite Z.geb_leb. destruct (Z.leb_spec (Stage db) stage); [lia | reflexivity].
  - destruct (remove db stage w) as [err w1] eqn:Hcall.
    destruct (IH (stage - 1) (acc ++ [(stage, err)])%list w1) as (removals & w' & Hrun & Hstages);
      [lia | lia |].
    exists ((stage, err) :: removals), w'. split.
    + intros [|fuel] Hfuel; [lia|]. simpl.
      rewrite Z.geb_leb. destruct (Z.leb_spec (Stage db) stage); [|lia].
      rewrite Hcall, uint_dec_exact by lia.
      rewrite (Hrun fuel) by lia. now rewrite <- app_assoc.
    + simpl. now rewrite Hstages.
Qed.

(** C9.  For a record whose stage is at least 1, the loop of [Delete] that
    counts the unsigned stage down from the persistence stage terminates:
    with enough fuel it returns.  Every stage it decrements is at least 1, so
    the decrement is the exact [stage - 1] and never wraps around. *)
Theorem Delete_loop_terminates (remove : Database -> Z -> M (option error))
    (db : Database) (persistentStage : Z) (w : World) :
  1 <= Stage db ->
  is_uint persistentStage ->
  exists fuel removals w',
    (forall fuel', (fuel <= fuel')%nat ->
       Delete_loop remove fuel' db persistentStage [] w = Some (removals, w'))
    /\ Forall (fun s => 1 <= s /\ uint_dec s = s - 1) (map fst removals).
Proof.
  intros Hstage [Hlow Hhigh].
  destruct (Z.lt_ge_cases persistentStage (Stage db)) as [Hbelow|Habove].
  - exists 1%nat, [], w. split; [|constructor].
    intros [|fuel] Hfuel; [lia|]. simpl.
    rewrite Z.geb_leb. destruct (Z.leb_spec (Stage db) persistentStage); [lia | reflexivity].
  - set (count := Z.to_nat (persistentStage - Stage db + 1)).
    destruct (Delete_loop_counts_down remove db Hstage count persistentStage [] w)
      as (removals & w' & Hrun & Hstages); [assumption | unfold count; lia |].
    exists (S count), removals, w'. split.
    + intros fuel Hfuel. apply Hrun. lia.
    + rewrite Hstages. apply Forall_forall. intros s Hin.
      apply countdown_range in Hin. unfold count in Hin.
      split; [lia|]. apply uint_dec_exact; lia.
Qed.

Lemma Delete_loop_terminates_witness :
  exists fuel removals w',
    Delete_loop (FixedTiers.RemoveFromStage default_config) fuel (sample_database 1 0) 3 []
      (calm_world 0) = Some (removals, w')
    /\ Forall (fun s => 1 <= s /\ uint_dec s = s - 1) (map fst removals).
Proof.
  destruct (Delete_loop_terminates (FixedTiers.RemoveFromStage default_config)
              (sample_database 1 0) 3 (calm_world 0))
    as (fuel & removals & w' & Hrun & Hexact).
  - simpl. lia.
  - unfold is_uint, uint_modulus. lia.
  - exists fuel, removals, w'. split; [apply Hrun; lia | exact Hexact].
Defined.

(** For a record whose stage is at least 1 and at most the persistence
    stage, [Delete] calls [RemoveFromStage] once for each stage from the
    persistence stage down to the stage of the record, whatever the calls
    return, then unlinks the record; its error is that of the unlinking
    alone. *)
Lemma Delete_removes_each_stage_once (cfg : Config)
    (remove : Database -> Z -> M (option error))
    (Dbs : option (list Database)) (db : Database) (w : World) :
  1 <= Stage db <= PersistenceStage cfg ->
  is_uint (PersistenceStage cfg) ->
  exists fuel err Dbs' removals w',
    (forall fuel', (fuel <= fuel')%nat ->
       Delete cfg remove fuel' Dbs db w = Some (err, Dbs', removals, w'))
    /\ map fst removals = stages_down (PersistenceStage cfg) (Stage db)
    /\ Dbs' = option_map (fun items => remove_first_named items (Name db)) Dbs
    /\ (err = None <-> Dbs <> None).
Proof.
  intros [Hlow Hhigh] [_ Hmax].
  set (count := Z.to_nat (PersistenceStage cfg - Stage db + 1)).
  destruct (Delete_loop_counts_down remove db Hlow count (PersistenceStage cfg) []
              (log_call (CallLock (Name db)) w))
    as (removals & w1 & Hrun & Hstages); [assumption | unfold count; lia |].
  destruct Dbs as [items|].
  - exists (S count), None, (Some (remove_first_named items (Name db))), removals,
      (log_call (CallUnlock (Name db)) w1).
    repeat split; try discriminate; auto.
    intros fuel Hfuel. unfold Delete, mutex_Lock, mutex_Unlock, tell. simpl.
    now rewrite (Hrun fuel) by lia.
  - eexists (S count), (Some _), None, removals, (log_call (CallUnlock (Name db)) w1).
    repeat split; try discriminate; auto; try congruence.
    intros fuel Hfuel. unfold Delete, mutex_Lock, mutex_Unlock, tell. simpl.
    now rewrite (Hrun fuel) by lia.
Qed.

(** At stage 0 the condition [stage >= database.Stage] holds for every
    unsigned [stage]: the loop of [Delete] never ends. *)
Lemma Delete_loop_stage_zero (remove : Database -> Z -> M (option error)) (db : Database) :
  Stage db = 0 ->
  forall (fuel : nat) (stage : Z) (acc : list (Z * option error)) (w : World),
    is_uint stage -> Delete_loop remove fuel db stage acc w = None.
Proof.
  intros Hzero. induction fuel as [|fuel IH]; intros stage acc w Hstage; [reflexivity|].
  simpl. rewrite Hzero, Z.geb_leb.
  destruct (Z.leb_spec 0 stage) as [_|Hneg]; [|unfold is_uint in Hstage; lia].
  destruct (remove db stage w) as [err w1].
  apply IH. apply uint_wrap_range.
Qed.

(** C7 at a record of stage 0, with the persistence stage 3: whatever the
    fuel, [Delete] does not return.  The unsigned [stage] goes 3, 2, 1, 0 and
    then wraps around to 2^64 - 1: after [RemoveFromStage] has been called
    for these four stages the loop goes on from stage 2^64 - 1, and the
    record is never unlinked. *)
Theorem Delete_stage_zero_never_returns (remove : Database -> Z -> M (option error))
    (Dbs : option (list Database)) (w : World) :
  (forall fuel, Delete default_config remove fuel Dbs (sample_database 0 0) w = None)
  /\ exists removals w',
       map fst removals = [3; 2; 1; 0]
       /\ forall fuel,
            Delete_loop remove (4 + fuel) (sample_database 0 0) 3 [] w
            = Delete_loop remove fuel (sample_database 0 0) (2 ^ 64 - 1) removals w'.
Proof.
  split.
  - intros fuel. unfold Delete, mutex_Lock, tell. simpl.
    rewrite (Delete_loop_stage_zero remove (sample_database 0 0) eq_refl); [reflexivity|].
    unfold is_uint, uint_modulus. lia.
  - destruct (remove (sample_database 0 0) 3 w) as [e3 w3] eqn:H3.
    destruct (remove (sample_database 0 0) 2 w3) as [e2 w2] eqn:H2.
    destruct (remove (sample_database 0 0) 1 w2) as [e1 w1] eqn:H1.
    destruct (remove (sample_database 0 0) 0 w1) as [e0 w0] eqn:H0.
    exists [(3, e3); (2, e2); (1, e1); (0, e0)], w0. split; [reflexivity|].
    intros fuel. change (4 + fuel)%nat with (S (S (S (S fuel)))).
    cbn [Delete_loop Stage sample_database Z.geb Z.compare].
    rewrite H3. change (uint_dec 3) with 2. cbn [Z.geb Z.compare].
    rewrite H2. change (uint_dec 2) with 1. cbn [Z.geb Z.compare].
    rewrite H1. change (uint_dec 1) with 0. cbn [Z.geb Z.compare].
    rewrite H0. reflexivity.
Qed.

(* ================================================================== *)
(** * Further properties of the registry *)

(** X1.  [FindByName] returns the first record of the registry that has the
    name, with a nil error, when there is one; it returns no record and the
    not-found error when there is none. *)
Theorem FindByName_first_match (items : list Database) (name : string) :
  (forall db, FindByName items name = (Some db, None) <->
              exists before after, items = (before ++ db :: after)%list
                                   /\ Name db = name /\ ~ In name (names before))
  /\ (FindByName items name = (None, Some (Errorf "Database not found" []))
      <-> ~ In name (names items))
  /\ (In name (names items) -> exists db, FindByName items name = (Some db, None)).
Proof.
  split; [|split].
  - induction items as [|item items IH]; intros db; simpl.
    + split; [discriminate|]. intros (before & after & H & _). now destruct before.
    + destruct (String.eqb_spec (Name item) name) as [Heq|Hneq].
      * split.
        -- intros H. injection H as <-. exists [], items. simpl. auto.
        -- intros (before & after & H & Hname & Hfresh).
           destruct before as [|b before]; simpl in H; injection H as -> ->; [reflexivity|].
           simpl in Hfresh. tauto.
      * rewrite IH. split.
        -- intros (before & after & -> & Hname & Hfresh).
           exists (item :: before), after. simpl. repeat split; auto. tauto.
        -- intros (before & after & H & Hname & Hfresh).
           destruct before as [|b before]; simpl in H; injection H as -> ->; [congruence|].
           exists before, after. simpl in Hfresh. repeat split; auto.
  - apply FindByName_not_found.
  - intros Hin. destruct (FindByName_found items name Hin) as (db & H & _). eauto.
Qed.

Lemma FindByName_app (items more : list Database) (name : string) :
  FindByName (items ++ more) name
  = if existsb (String.eqb name) (names items) then FindByName items name
    else FindByName more name.
Proof.
  induction items as [|item items IH]; simpl; [reflexivity|].
  rewrite (String.eqb_sym name).
  destruct (Name item =? name)%string; simpl; [reflexivity | exact IH].
Qed.

Lemma existsb_name_spec (name : string) (l : list string) :
  existsb (String.eqb name) l = true <-> In name l.
Proof.
  rewrite existsb_exists. split.
  - intros (x & Hin & Heq). apply String.eqb_eq in Heq. now subst.
  - intros Hin. exists name. split; [assumption | apply String.eqb_refl].
Qed.

(** X2.  After a successful [CreateDatabaseAndInitialize], looking the name
    up returns the record that was created when the name was new to the
    registry, and still the older record when the name was there already
    (the new record is then out of reach of [FindByName]); the lookup of
    every other name is as before. *)
Theorem Create_then_FindByName (cfg : Config) (items : list Database)
    (name : string) (stage : Z) (w : World)
    (created : Database) (items' : list Database) (w' : World) :
  CreateDatabaseAndInitialize cfg items name stage w = (Some created, None, items', w') ->
  (~ In name (names items) -> FindByName items' name = (Some created, None))
  /\ (In name (names items) -> FindByName items' name = FindByName items name)
  /\ (forall other, other <> name -> FindByName items' other = FindByName items other).
Proof.
  intros Hcreate.
  pose proof (CreateDatabaseAndInitialize_items cfg items name stage w) as H.
  rewrite Hcreate in H. destruct H as (db & Hdb & Hname & _ & ->).
  injection Hdb as ->.
  split; [|split].
  - intros Hfresh. rewrite FindByName_app.
    destruct (existsb (String.eqb name) (names items)) eqn:Hexists.
    + apply existsb_name_spec in Hexists. contradiction.
    + simpl. rewrite Hname, String.eqb_refl. reflexivity.
  - intros Hold. rewrite FindByName_app.
    apply existsb_name_spec in Hold. now rewrite Hold.
  - intros other Hother. rewrite FindByName_app.
    destruct (existsb (String.eqb other) (names items)) eqn:Hexists; [reflexivity|].
    simpl. rewrite Hname.
    destruct (String.eqb_spec name other) as [Heq|_]; [congruence|].
    symmetry. apply FindByName_not_found. intros Hin.
    apply existsb_name_spec in Hin. congruence.
Qed.

Lemma Create_then_FindByName_witness :
  exists created items' w',
    CreateDatabaseAndInitialize default_config [sample_database 3 0] "v" 3 (calm_world 7)
    = (Some created, None, items', w')
    /\ FindByName items' "v" = (Some created, None)
    /\ FindByName items' "u" = (Some (sample_database 3 0), None).
Proof.
  eexists _, _, _. split; [vm_compute; reflexivity|].
  destruct (Create_then_FindByName default_config [sample_database 3 0] "v" 3 (calm_world 7)
              _ _ _ eq_refl) as (Hnew & _ & Hother).
  split.
  - apply Hnew. simpl. intros [H|[]]. discriminate.
  - rewrite Hother by discriminate. reflexivity.
Defined.

Lemma remove_first_named_fresh (items : list Database) (name : string) :
  ~ In name (names items) -> remove_first_named items name = items.
Proof.
  induction items as [|item items IH]; simpl; intros H; [reflexivity|].
  destruct (String.eqb_spec (Name item) name) as [Heq|_]; [tauto|].
  rewrite IH; tauto.
Qed.

Lemma remove_first_named_app (items more : list Database) (name : string) :
  remove_first_named (items ++ more) name
  = if existsb (String.eqb name) (names items)
    then (remove_first_named items name ++ more)%list
    else (items ++ remove_first_named more name)%list.
Proof.
  induction items as [|item items IH]; simpl; [reflexivity|].
  rewrite (String.eqb_sym name).
  destruct (Name item =? name)%string; simpl; [reflexivity|].
  rewrite IH. now destruct (existsb (String.eqb name) (names items)).
Qed.

(** X3.  Creating a database and then removing the created record from the
    registry gives the registry back when the name was new.  When the name
    was in the registry already, the removal takes the older record of that
    name and leaves the created one. *)
Theorem Create_then_remove (cfg : Config) (items : list Database)
    (name : string) (stage : Z) (w : World)
    (created : Database) (items' : list Database) (w' : World) :
  CreateDatabaseAndInitialize cfg items name stage w = (Some created, None, items', w') ->
  (~ In name (names items) ->
   removeFromDatabasesList (Some items') created = (None, Some items))
  /\ (In name (names items) ->
      removeFromDatabasesList (Some items') created
      = (None, Some (remove_first_named items name ++ [created])%list)).
Proof.
  intros Hcreate.
  pose proof (CreateDatabaseAndInitialize_items cfg items name stage w) as H.
  rewrite Hcreate in H. destruct H as (db & Hdb & Hname & _ & ->).
  injection Hdb as ->. unfold removeFromDatabasesList.
  rewrite Hname, remove_first_named_app.
  split; intros Hin.
  - destruct (existsb (String.eqb name) (names items)) eqn:Hexists.
    + apply existsb_name_spec in Hexists. contradiction.
    + simpl. rewrite Hname, String.eqb_refl. now rewrite app_nil_r.
  - apply existsb_name_spec in Hin. now rewrite Hin.
Qed.

Lemma Create_then_remove_witness :
  exists created items' w',
    CreateDatabaseAndInitialize default_config [sample_database 3 0] "v" 3 (calm_world 7)
    = (Some created, None, items', w')
    /\ removeFromDatabasesList (Some items') created = (None, Some [sample_database 3 0]).
Proof.
  eexists _, _, _. split; [vm_compute; reflexivity|].
  apply (Create_then_remove default_config [sample_database 3 0] "v" 3 (calm_world 7)
           _ _ _ eq_refl).
  simpl. intros [H|[]]. discriminate.
Defined.

(** X4.  Removing a record from a registry whose names are unique makes its
    name not found, leaves the lookup of every other name as it was, and
    takes exactly one record out when the name was there (none when it was
    not). *)
Theorem remove_then_FindByName (items : list Database) (db : Database) :
  NoDup (names items) ->
  FindByName (remove_first_named items (Name db)) (Name db)
  = (None, Some (Errorf "Database not found" []))
  /\ (forall other, other <> Name db ->
        FindByName (remove_first_named items (Name db)) other = FindByName items other)
  /\ (In (Name db) (names items) ->
      S (List.length (remove_first_named items (Name db))) = List.length items)
  /\ (~ In (Name db) (names items) -> remove_first_named items (Name db) = items).
Proof.
  intros Hunique. split; [|split; [|split]].
  - apply FindByName_not_found.
    induction items as [|item items IH]; simpl; [tauto|].
    inversion Hunique as [|? ? Hfresh Hrest]; subst.
    destruct (String.eqb_spec (Name item) (Name db)) as [Heq|Hneq].
    + now rewrite <- Heq.
    + simpl. intros [H|H]; [contradiction | now apply IH].
  - intros other Hother. clear Hunique.
    induction items as [|item items IH]; simpl; [reflexivity|].
    destruct (String.eqb_spec (Name item) (Name db)) as [Heq|Hneq]; simpl.
    + destruct (String.eqb_spec (Name item) other) as [Heq'|_]; [congruence | reflexivity].
    + now rewrite IH.
  - clear Hunique. induction items as [|item items IH]; simpl; [tauto|].
    destruct (String.eqb_spec (Name item) (Name db)) as [Heq|Hneq]; [reflexivity|].
    intros [H|H]; [contradiction|]. simpl. now rewrite IH.
  - apply remove_first_named_fresh.
Qed.

Lemma remove_then_FindByName_witness :
  FindByName (remove_first_named [sample_database 3 0] "u") "u"
  = (None, Some (Errorf "Database not found" [])).
Proof.
  apply (remove_then_FindByName [sample_database 3 0] (sample_database 3 0)).
  repeat constructor. simpl. tauto.
Defined.

(** [CreateDatabaseAndInitialize] for a stage that is none of the three
    configured tiers returns no record and an error, leaves the registry as
    it was and calls nothing: the engine is not opened and no answer of the
    environment is used up. *)
Theorem Create_unconfigured_stage (cfg : Config) (items : list Database)
    (name : string) (stage : Z) (w : World) :
  stage <> Memory_StageNumber cfg ->
  stage <> Local_StageNumber cfg ->
  stage <> Remote_StageNumber cfg ->
  CreateDatabaseAndInitialize cfg items name stage w
  = (None, Some (Errorf "invalid stage: %d. Valid stages are 1-3" [ArgUint stage]), items, w).
Proof.
  intros Hm Hl Hr. unfold CreateDatabaseAndInitialize.
  apply Z.eqb_neq in Hm, Hl, Hr. now rewrite Hm, Hl, Hr.
Qed.

Lemma Create_unconfigured_stage_witness :
  CreateDatabaseAndInitialize default_config [] "u" 0 (calm_world 0)
  = (None, Some (Errorf "invalid stage: %d. Valid stages are 1-3" [ArgUint 0]), [],
     calm_world 0).
Proof.
  apply (Create_unconfigured_stage default_config [] "u" 0 (calm_world 0)); discriminate.
Defined.

(* ================================================================== *)
(** * What the stage manager calls *)

Lemma emits_ret {A : Type} (P : call -> bool) (a : A) : emits P (ret a).
Proof. intros w. exists []. simpl. now rewrite app_nil_r. Qed.

Lemma emits_bind {A B : Type} (P : call -> bool) (m : M A) (k : A -> M B) :
  emits P m -> (forall a, emits P (k a)) -> emits P (bind m k).
Proof.
  intros Hm Hk w. unfold bind.
  destruct (Hm w) as (more1 & H1 & HP1). destruct (m w) as [a w1]. simpl in H1.
  destruct (Hk a w1) as (more2 & H2 & HP2).
  exists (more1 ++ more2)%list. split.
  - rewrite H2, H1. now rewrite app_assoc.
  - apply Forall_app. auto.
Qed.

Lemma emits_tell (P : call -> bool) (c : call) : P c = true -> emits P (tell c).
Proof. intros H w. exists [c]. split; [reflexivity | now constructor]. Qed.

Lemma emits_ask (P : call -> bool) (c : call) : P c = true -> emits P (ask c).
Proof.
  intros H w. exists [c]. unfold ask.
  split; [now destruct (script w) | now constructor].
Qed.

Lemma emits_returned {A : Type} (P : call -> bool) (m : M A) (w w' : World) (a : A) :
  emits P m -> m w = (a, w') ->
  exists more, calls w' = (calls w ++ more)%list /\ Forall (fun c => P c = true) more.
Proof. intros Hm Hrun. specialize (Hm w). now rewrite Hrun in Hm. Qed.

(** A computation between the lock and the deferred unlock of a mutex. *)
Lemma bracketed_deferring {A : Type} (P : call -> bool) (record : string) (body : M A)
    (w : World) :
  emits P body ->
  bracketed record P w
    (snd (deferring (mutex_Unlock record) (mutex_Lock record ;; body) w)).
Proof.
  intros Hbody. unfold deferring, bind, mutex_Lock, mutex_Unlock, tell, ret. simpl.
  destruct (Hbody (log_call (CallLock record) w)) as (inner & Hcalls & HP).
  destruct (body (log_call (CallLock record) w)) as [a w1]. simpl in *.
  exists inner. split; [|exact HP].
  simpl. rewrite Hcalls. now rewrite <- !app_assoc.
Qed.

Ltac emits_step side :=
  match goal with
  | |- emits _ (bind _ _) => apply emits_bind; [|intros ?]
  | |- emits _ (ret _) => apply emits_ret
  | |- emits _ (tell _) => apply emits_tell; side
  | |- emits _ (ask _) => apply emits_ask; side
  | |- emits _ (match ?x with _ => _ end) => destruct x
  | |- emits _ (if ?b then _ else _) => destruct b
  end.

Ltac emits_auto side :=
  unfold deferring, mutex_Lock, mutex_Unlock, sql_Open, db_Ping, db_Exec, db_Query,
    db_QueryRowInt, db_QueryRowText, db_Close, memoryvfs_Delete, localvfs_Delete,
    remotevfs_Delete, time_Sleep;
  repeat emits_step side.

Section CallsOfTheStageManager.

Variable cfg : Config.
Variable U : StageUtils.
Variable P : call -> bool.

(** [P] holds of every call to the engine and to the clock. *)
Hypothesis P_engine :
  forall c, is_mutex_call c = false -> is_delete_call c = false -> P c = true.

Lemma VerifyDatabaseIntegrity_emits (conn : string) : emits P (VerifyDatabaseIntegrity conn).
Proof.
  unfold VerifyDatabaseIntegrity. emits_auto ltac:(now apply P_engine).
Qed.

Lemma executeDatabaseCopy_loop_emits (remaining : nat) (attempt : Z)
    (sourceDB targetConnection : string) (lastErr : option string) :
  emits P (executeDatabaseCopy_loop remaining attempt sourceDB targetConnection lastErr).
Proof.
  revert attempt lastErr. induction remaining as [|remaining IH]; intros attempt lastErr; simpl.
  - apply emits_ret.
  - emits_auto ltac:(now apply P_engine). apply IH.
Qed.

Lemma copyDataBetweenStages_emits (db : Database) (sourceStage targetStage : Z) :
  emits P (deleteTargetFile cfg U (Name db) targetStage) ->
  emits P (copyDataBetweenStages cfg U db sourceStage targetStage).
Proof.
  intros Hdelete. unfold copyDataBetweenStages, executeDatabaseCopy.
  destruct (GetConnectionStringForStage cfg U db sourceStage) as [src [e|]];
    [apply emits_ret|].
  destruct (GetConnectionStringForStage cfg U db targetStage) as [tgt [e|]];
    [apply emits_ret|].
  apply emits_bind; [exact Hdelete | intros _].
  emits_auto ltac:(now apply P_engine). apply executeDatabaseCopy_loop_emits.
Qed.

Lemma syncToStage_emits (db : Database) (targetStage : Z) :
  emits P (deleteTargetFile cfg U (Name db) targetStage) ->
  emits P (syncToStage cfg U db targetStage).
Proof.
  intros Hdelete. unfold syncToStage.
  emits_auto ltac:(now apply P_engine).
  now apply copyDataBetweenStages_emits.
Qed.

Lemma MoveToStage_emits (db : Database) (targetStage : Z) :
  (targetStage <> Stage db -> emits P (deleteTargetFile cfg U (Name db) targetStage)) ->
  emits P (MoveToStage cfg U db targetStage).
Proof.
  intros Hdelete. unfold MoveToStage.
  destruct (negb (IsValidStage U targetStage)).
  - destruct (GetValidStageRange U). apply emits_ret.
  - destruct (Z.eqb_spec (Stage db) targetStage) as [Heq|Hneq]; [apply emits_ret|].
    apply emits_bind; [apply syncToStage_emits; auto | intros err].
    emits_auto ltac:(now apply P_engine). apply VerifyDatabaseIntegrity_emits.
Qed.

Lemma verifyDatabaseAtStage_emits (db : Database) (stage : Z) :
  emits P (verifyDatabaseAtStage cfg U db stage).
Proof.
  unfold verifyDatabaseAtStage. emits_auto ltac:(now apply P_engine).
Qed.

End CallsOfTheStageManager.

(** [verifyDatabaseAtStage] sets the stage of the record for the time of the
    check and hands the record back as it was. *)
Lemma verifyDatabaseAtStage_restores (cfg : Config) (U : StageUtils)
    (db : Database) (stage : Z) (w : World) :
  snd (fst (verifyDatabaseAtStage cfg U db stage w)) = db.
Proof.
  unfold verifyDatabaseAtStage, bind, ret.
  match goal with |- context [?m w] =>
    match type of (m w) with (option error * World)%type => destruct (m w) as [err w1] end
  end.
  simpl. now destruct db.
Qed.

Lemma not_mutex_call_engine (c : call) :
  is_mutex_call c = false -> is_delete_call c = false -> not_mutex_call c = true.
Proof. unfold not_mutex_call. now intros ->. Qed.

Lemma spares_stage_engine (U : StageUtils) (current : Z) (c : call) :
  is_mutex_call c = false -> is_delete_call c = false -> spares_stage U current c = true.
Proof. destruct c; simpl; intros; congruence. Qed.

Lemma deleteTargetFile_not_mutex (cfg : Config) (U : StageUtils) (name : string) (t : Z) :
  emits not_mutex_call (deleteTargetFile cfg U name t).
Proof. unfold deleteTargetFile. emits_auto reflexivity. Qed.

(** [deleteTargetFile] deletes in the store of the target stage only. *)
Lemma deleteTargetFile_spares (cfg : Config) (U : StageUtils) (current : Z)
    (name : string) (t : Z) :
  t <> current -> emits (spares_stage U current) (deleteTargetFile cfg U name t).
Proof.
  intros Hother. unfold deleteTargetFile.
  destruct (Z.eqb_spec t (GetLocalStage U)) as [Hlocal|_].
  - emits_auto ltac:(simpl; apply negb_true_iff, Z.eqb_neq; congruence).
  - destruct (Z.eqb_spec t (GetRemoteStage U)) as [Hremote|_].
    + emits_auto ltac:(simpl; apply negb_true_iff, Z.eqb_neq; congruence).
    + apply emits_ret.
Qed.

Lemma RemoveFromStage_not_mutex (U : StageUtils) (db : Database) (s : Z) :
  emits not_mutex_call (RemoveFromStage U db s).
Proof.
  unfold RemoveFromStage, removeFromLocalStage, removeFromR2Stage.
  emits_auto reflexivity.
Qed.

Lemma FixedTiers_RemoveFromStage_not_mutex (cfg : Config) (db : Database) (s : Z) :
  emits not_mutex_call (FixedTiers.RemoveFromStage cfg db s).
Proof.
  unfold FixedTiers.RemoveFromStage, removeFromMemoryStage, removeFromLocalStage,
    removeFromR2Stage.
  emits_auto reflexivity.
Qed.

Section CallsOfTheLoops.

Variable cfg : Config.
Variable U : StageUtils.
Variable P : call -> bool.
Variable db : Database.

Hypothesis P_engine :
  forall c, is_mutex_call c = false -> is_delete_call c = false -> P c = true.

(** The stages the loops may be at, and what holds there. *)
Variable reachable : Z -> Prop.

Hypothesis reachable_next :
  forall s, reachable s -> s <> 0 -> reachable (GetNextFartherStage U s).

Hypothesis reachable_delete :
  forall s, reachable s -> s <> 0 -> emits P (deleteTargetFile cfg U (Name db) s).

Lemma sync_upper_loop_emits (fuel : nat) :
  forall (stage : Z) (acc : list (Z * option error)) (w : World)
         (attempts : list (Z * option error)) (w' : World),
    reachable stage ->
    sync_upper_loop cfg U fuel db stage acc w = Some (attempts, w') ->
    exists more, calls w' = (calls w ++ more)%list /\ Forall (fun c => P c = true) more.
Proof.
  induction fuel as [|fuel IH]; intros stage acc w attempts w' Hreach Hrun; [discriminate|].
  simpl in Hrun.
  destruct (Z.eqb_spec stage 0) as [Hzero|Hnonzero]; simpl in Hrun.
  - injection Hrun as _ <-. exists []. now rewrite app_nil_r.
  - destruct (stage <=? GetFarthestStage U).
    + destruct (syncToStage cfg U db stage w) as [err w1] eqn:Hsync.
      destruct (emits_returned P _ w w1 err
                  (syncToStage_emits cfg U P P_engine db stage
                     (reachable_delete stage Hreach Hnonzero)) Hsync)
        as (more1 & Hcalls1 & HP1).
      destruct err as [e|].
      * injection Hrun as _ <-. now exists more1.
      * destruct (IH _ _ _ _ _ (reachable_next stage Hreach Hnonzero) Hrun)
          as (more2 & Hcalls2 & HP2).
        exists (more1 ++ more2)%list. split.
        -- rewrite Hcalls2, Hcalls1. now rewrite app_assoc.
        -- apply Forall_app. auto.
    + injection Hrun as _ <-. exists []. now rewrite app_nil_r.
Qed.

Lemma demote_sync_loop_emits (fuel : nat) :
  forall (stage : Z) (w : World) (db' : Database) (w' : World),
    reachable stage ->
    demote_sync_loop cfg U fuel db stage w = Some (db', w') ->
    db' = db
    /\ exists more, calls w' = (calls w ++ more)%list /\ Forall (fun c => P c = true) more.
Proof.
  induction fuel as [|fuel IH]; intros stage w db' w' Hreach Hrun; [discriminate|].
  simpl in Hrun.
  destruct (Z.eqb_spec stage 0) as [Hzero|Hnonzero]; simpl in Hrun.
  - injection Hrun as <- <-. split; [reflexivity|]. exists []. now rewrite app_nil_r.
  - destruct (stage <=? GetFarthestStage U).
    + destruct (syncToStage cfg U db stage w) as [err w1] eqn:Hsync.
      destruct (emits_returned P _ w w1 err
                  (syncToStage_emits cfg U P P_engine db stage
                     (reachable_delete stage Hreach Hnonzero)) Hsync)
        as (more1 & Hcalls1 & HP1).
      destruct err as [e|].
      * destruct (IH _ _ _ _ (reachable_next stage Hreach Hnonzero) Hrun)
          as (-> & more2 & Hcalls2 & HP2).
        split; [reflexivity|]. exists (more1 ++ more2)%list. split.
        -- rewrite Hcalls2, Hcalls1. now rewrite app_assoc.
        -- apply Forall_app. auto.
      * pose proof (verifyDatabaseAtStage_restores cfg U db stage w1) as Hsame.
        destruct (verifyDatabaseAtStage cfg U db stage w1) as [[verdict db1] w2] eqn:Hverify.
        simpl in Hsame. subst db1.
        destruct (emits_returned P _ w1 w2 _
                    (verifyDatabaseAtStage_emits cfg U P P_engine db stage) Hverify)
          as (more2 & Hcalls2 & HP2).
        destruct (IH _ _ _ _ (reachable_next stage Hreach Hnonzero) Hrun)
          as (-> & more3 & Hcalls3 & HP3).
        split; [reflexivity|]. exists (more1 ++ more2 ++ more3)%list. split.
        -- rewrite Hcalls3, Hcalls2, Hcalls1. now rewrite <- !app_assoc.
        -- apply Forall_app. split; [assumption|]. apply Forall_app. auto.
    + injection Hrun as <- <-. split; [reflexivity|]. exists []. now rewrite app_nil_r.
Qed.

End CallsOfTheLoops.

Section CallsUnderTheMutex.

Variable cfg : Config.
Variable U : StageUtils.
Variable P : call -> bool.
Variable db : Database.

Hypothesis P_engine :
  forall c, is_mutex_call c = false -> is_delete_call c = false -> P c = true.

Variable reachable : Z -> Prop.

Hypothesis reachable_start : reachable (GetNextFartherStage U (Stage db)).

Hypothesis reachable_next :
  forall s, reachable s -> s <> 0 -> reachable (GetNextFartherStage U s).

Hypothesis reachable_delete :
  forall s, reachable s -> s <> 0 -> emits P (deleteTargetFile cfg U (Name db) s).

Lemma SyncToUpperStages_bracketed (fuel : nat) (w : World)
    (db' : Database) (attempts : list (Z * option error)) (w' : World) :
  AutoSyncEnabled cfg = true ->
  SyncToUpperStages cfg U fuel db w = Some (db', attempts, w') ->
  bracketed (Name db) P w w'.
Proof.
  intros Hon Hrun. unfold SyncToUpperStages, mutex_Lock, mutex_Unlock, tell in Hrun.
  rewrite Hon in Hrun. simpl in Hrun.
  destruct (sync_upper_loop cfg U fuel db _ [] _) as [[attempts1 w1]|] eqn:Hloop;
    [|discriminate].
  injection Hrun as _ _ <-.
  destruct (sync_upper_loop_emits cfg U P db P_engine reachable reachable_next
              reachable_delete fuel _ _ _ _ _ reachable_start Hloop)
    as (inner & Hcalls & HP).
  exists inner. split; [|exact HP].
  simpl. rewrite Hcalls. simpl. now rewrite <- !app_assoc.
Qed.

Lemma demoteToFartherStage_bracketed (fuel : nat) (w : World) (db' : Database) (w' : World) :
  demoteToFartherStage cfg U fuel db w = Some (db', w') ->
  bracketed (Name db) P w w'.
Proof.
  assert (Hempty : bracketed (Name db) P w
                     (log_call (CallUnlock (Name db)) (log_call (CallLock (Name db)) w))).
  { exists []. split; [|constructor]. simpl. now rewrite <- !app_assoc. }
  intros Hrun. unfold demoteToFartherStage, mutex_Lock, mutex_Unlock, tell, time_Now in Hrun.
  simpl in Hrun.
  destruct (IsFarthestStage U (Stage db)); [now injection Hrun as <- <-|].
  destruct (_ <? timeoutDuration cfg); [now injection Hrun as <- <-|].
  destruct (Z.eqb_spec (GetNextFartherStage U (Stage db)) 0) as [|Htarget];
    [now injection Hrun as <- <-|].
  assert (Hsynced : forall synced,
             synced = Some (db, log_call (CallLock (Name db)) w)
             \/ synced = demote_sync_loop cfg U fuel db (GetNextFartherStage U (Stage db))
                           (log_call (CallLock (Name db)) w) ->
             forall db1 w1, synced = Some (db1, w1) ->
             db1 = db
             /\ exists more, calls w1 = (calls w ++ [CallLock (Name db)] ++ more)%list
                             /\ Forall (fun c => P c = true) more).
  { intros synced [->| ->] db1 w1 H.
    - injection H as <- <-. split; [reflexivity|]. exists []. split; [reflexivity | constructor].
    - destruct (demote_sync_loop_emits cfg U P db P_engine reachable reachable_next
                  reachable_delete fuel _ _ _ _ reachable_start H)
        as (-> & more & Hcalls & HP).
      split; [reflexivity|]. exists more. split; [|exact HP].
      rewrite Hcalls. simpl. now rewrite <- !app_assoc. }
  match type of Hrun with
  | match ?synced with _ => _ end = _ =>
      specialize (Hsynced synced); destruct synced as [[db1 w1]|] eqn:Hloop; [|discriminate]
  end.
  destruct (Hsynced (ltac:(destruct (AutoSyncEnabled cfg && negb false); auto)) db1 w1 eq_refl)
    as (-> & more1 & Hcalls1 & HP1).
  destruct (MoveToStage cfg U (SetRequestCount db 0) _ w1) as [[err db2] w2] eqn:Hmove.
  injection Hrun as _ <-.
  destruct (emits_returned P _ w1 w2 _
              (MoveToStage_emits cfg U P P_engine (SetRequestCount db 0) _
                 (fun _ => reachable_delete _ reachable_start Htarget)) Hmove)
    as (more2 & Hcalls2 & HP2).
  exists (more1 ++ more2)%list. split.
  - simpl. rewrite Hcalls2, Hcalls1. now rewrite <- !app_assoc.
  - apply Forall_app. auto.
Qed.

End CallsUnderTheMutex.

Lemma PromoteToCloserStage_bracketed (cfg : Config) (U : StageUtils) (P : call -> bool)
    (db : Database) (w : World) :
  (forall c, is_mutex_call c = false -> is_delete_call c = false -> P c = true) ->
  (forall t, t <> Stage db -> emits P (deleteTargetFile cfg U (Name db) t)) ->
  bracketed (Name db) P w (snd (PromoteToCloserStage cfg U db w)).
Proof.
  intros P_engine Hdelete. unfold PromoteToCloserStage.
  apply bracketed_deferring.
  emits_auto ltac:(now apply P_engine).
  apply MoveToStage_emits; [exact P_engine|].
  intros Hother. apply Hdelete. exact Hother.
Qed.

Lemma Delete_loop_emits (remove : Database -> Z -> M (option error)) (P : call -> bool)
    (db : Database) (fuel : nat) :
  (forall s, emits P (remove db s)) ->
  forall (stage : Z) (acc : list (Z * option error)) (w : World)
         (removals : list (Z * option error)) (w' : World),
    Delete_loop remove fuel db stage acc w = Some (removals, w') ->
    exists more, calls w' = (calls w ++ more)%list /\ Forall (fun c => P c = true) more.
Proof.
  intros Hremove. induction fuel as [|fuel IH]; intros stage acc w removals w' Hrun;
    [discriminate|].
  simpl in Hrun. destruct (stage >=? Stage db).
  - destruct (remove db stage w) as [err w1] eqn:Hcall.
    destruct (emits_returned P _ w w1 err (Hremove stage) Hcall) as (more1 & Hcalls1 & HP1).
    destruct (IH _ _ _ _ _ Hrun) as (more2 & Hcalls2 & HP2).
    exists (more1 ++ more2)%list. split.
    + rewrite Hcalls2, Hcalls1. now rewrite app_assoc.
    + apply Forall_app. auto.
  - injection Hrun as _ <-. exists []. now rewrite app_nil_r.
Qed.

Lemma Delete_bracketed (cfg : Config) (remove : Database -> Z -> M (option error))
    (P : call -> bool) (db : Database) (fuel : nat) (Dbs : option (list Database)) (w : World)
    (err : option error) (Dbs' : option (list Database))
    (removals : list (Z * option error)) (w' : World) :
  (forall s, emits P (remove db s)) ->
  Delete cfg remove fuel Dbs db w = Some (err, Dbs', removals, w') ->
  bracketed (Name db) P w w'.
Proof.
  intros Hremove Hrun. unfold Delete, mutex_Lock, mutex_Unlock, tell in Hrun.
  destruct (Delete_loop remove fuel db (PersistenceStage cfg) [] _) as [[removals1 w1]|] eqn:Hloop;
    [|discriminate].
  destruct (Delete_loop_emits remove P db fuel Hremove _ _ _ _ _ Hloop)
    as (inner & Hcalls & HP).
  assert (Hw : w' = log_call (CallUnlock (Name db)) w1).
  { destruct (removeFromDatabasesList Dbs db) as [[e|] Dbs1]; now injection Hrun as _ _ _ <-. }
  subst w'. exists inner. split; [|exact HP].
  simpl. rewrite Hcalls. simpl. now rewrite <- !app_assoc.
Qed.

(** X6.  Each operation on a record takes the mutex of the record once, as
    its first call, and releases it once, as its last call; no call in
    between touches a mutex.  This holds on every path by which
    [PromoteToCloserStage], [handleAccess], [demoteToFartherStage],
    [SyncToUpperStages] (with auto-sync enabled) and [Delete] (with either
    revision of [RemoveFromStage]) return. *)
Theorem record_mutex_bracket (cfg : Config) (U : StageUtils) (db : Database) (w : World) :
  bracketed (Name db) not_mutex_call w (snd (PromoteToCloserStage cfg U db w))
  /\ bracketed (Name db) not_mutex_call w (snd (handleAccess db w))
  /\ (forall fuel db' w',
        demoteToFartherStage cfg U fuel db w = Some (db', w') ->
        bracketed (Name db) not_mutex_call w w')
  /\ (forall fuel db' attempts w',
        AutoSyncEnabled cfg = true ->
        SyncToUpperStages cfg U fuel db w = Some (db', attempts, w') ->
        bracketed (Name db) not_mutex_call w w')
  /\ (forall fuel Dbs err Dbs' removals w',
        Delete cfg (RemoveFromStage U) fuel Dbs db w = Some (err, Dbs', removals, w') ->
        bracketed (Name db) not_mutex_call w w')
  /\ (forall fuel Dbs err Dbs' removals w',
        Delete cfg (FixedTiers.RemoveFromStage cfg) fuel Dbs db w
        = Some (err, Dbs', removals, w') ->
        bracketed (Name db) not_mutex_call w w').
Proof.
  split; [|split; [|split; [|split; [|split]]]].
  - apply PromoteToCloserStage_bracketed.
    + apply not_mutex_call_engine.
    + intros t _. apply deleteTargetFile_not_mutex.
  - exists []. split; [|constructor].
    unfold handleAccess, bind, mutex_Lock, mutex_Unlock, tell, time_Now, ret. simpl.
    now rewrite <- !app_assoc.
  - intros fuel db' w' Hrun.
    apply (demoteToFartherStage_bracketed cfg U not_mutex_call db not_mutex_call_engine
             (fun _ => True) I (fun _ _ _ => I)
             (fun s _ _ => deleteTargetFile_not_mutex cfg U (Name db) s) fuel w db' w' Hrun).
  - intros fuel db' attempts w' Hon Hrun.
    apply (SyncToUpperStages_bracketed cfg U not_mutex_call db not_mutex_call_engine
             (fun _ => True) I (fun _ _ _ => I)
             (fun s _ _ => deleteTargetFile_not_mutex cfg U (Name db) s)
             fuel w db' attempts w' Hon Hrun).
  - intros fuel Dbs err Dbs' removals w' Hrun.
    eapply Delete_bracketed; [|exact Hrun].
    intros s. apply RemoveFromStage_not_mutex.
  - intros fuel Dbs err Dbs' removals w' Hrun.
    eapply Delete_bracketed; [|exact Hrun].
    intros s. apply FixedTiers_RemoveFromStage_not_mutex.
Qed.

Lemma ascends_reachable_next (U : StageUtils) (current : Z) :
  next_farther_ascends U ->
  forall s, (s = 0 \/ current < s) -> s <> 0 ->
            (GetNextFartherStage U s = 0 \/ current < GetNextFartherStage U s).
Proof.
  intros Hnext s [Hzero|Habove] Hnonzero; [contradiction|].
  destruct (Hnext s) as [H|H]; [now left | right; lia].
Qed.

(** X7.  The stage manager never deletes the copy the record is at.  Among
    the calls of [MoveToStage], [PromoteToCloserStage],
    [demoteToFartherStage] and [SyncToUpperStages] there is no deletion in
    the memory store, none in the local file system when the record is at the
    local stage, and none in the remote store when it is at the remote stage
    (for the last two, with a helper for the next farther stage that answers
    0 or a stage above its argument). *)
Theorem stage_manager_spares_live_copy (cfg : Config) (U : StageUtils)
    (db : Database) (w : World) :
  next_farther_ascends U ->
  (forall t, emits (spares_stage U (Stage db)) (MoveToStage cfg U db t))
  /\ bracketed (Name db) (spares_stage U (Stage db)) w
       (snd (PromoteToCloserStage cfg U db w))
  /\ (forall fuel db' w',
        demoteToFartherStage cfg U fuel db w = Some (db', w') ->
        bracketed (Name db) (spares_stage U (Stage db)) w w')
  /\ (forall fuel db' attempts w',
        AutoSyncEnabled cfg = true ->
        SyncToUpperStages cfg U fuel db w = Some (db', attempts, w') ->
        bracketed (Name db) (spares_stage U (Stage db)) w w').
Proof.
  intros Hnext.
  assert (Hdelete : forall s, (s = 0 \/ Stage db < s) -> s <> 0 ->
                              emits (spares_stage U (Stage db))
                                (deleteTargetFile cfg U (Name db) s)).
  { intros s [Hzero|Habove] Hnonzero; [contradiction|].
    apply deleteTargetFile_spares. lia. }
  assert (Hstart : GetNextFartherStage U (Stage db) = 0
                   \/ Stage db < GetNextFartherStage U (Stage db)) by apply Hnext.
  split; [|split; [|split]].
  - intros t. apply MoveToStage_emits.
    + apply spares_stage_engine.
    + intros Hother. now apply deleteTargetFile_spares.
  - apply PromoteToCloserStage_bracketed.
    + apply spares_stage_engine.
    + intros t Hother. now apply deleteTargetFile_spares.
  - intros fuel db' w' Hrun.
    apply (demoteToFartherStage_bracketed cfg U (spares_stage U (Stage db)) db
             (spares_stage_engine U (Stage db))
             (fun s => s = 0 \/ Stage db < s) Hstart
             (ascends_reachable_next U (Stage db) Hnext) Hdelete fuel w db' w' Hrun).
  - intros fuel db' attempts w' Hon Hrun.
    apply (SyncToUpperStages_bracketed cfg U (spares_stage U (Stage db)) db
             (spares_stage_engine U (Stage db))
             (fun s => s = 0 \/ Stage db < s) Hstart
             (ascends_reachable_next U (Stage db) Hnext) Hdelete
             fuel w db' attempts w' Hon Hrun).
Qed.

Lemma stage_manager_spares_live_copy_witness :
  let db := mkDatabase "./storage/u.db" "u" 2 0 0 in
  exists more,
    calls (snd (MoveToStage default_config (config_utils default_config) db 3 (calm_world 0)))
    = more
    /\ Forall (fun c => spares_stage (config_utils default_config) 2 c = true) more
    /\ In (CallRemoteDelete "u.db") more.
Proof.
  intros db.
  destruct (proj1 (stage_manager_spares_live_copy default_config (config_utils default_config)
                     db (calm_world 0) (config_utils_ascends default_config))
              3 (calm_world 0)) as (more & Hcalls & Hspares).
  exists more. split; [exact Hcalls|]. split; [exact Hspares|].
  change (calls (calm_world 0) ++ more)%list with more in Hcalls.
  rewrite <- Hcalls. vm_compute. auto 10.
Defined.

(* ================================================================== *)
(** * Outcomes of a move *)

Lemma GetConnectionString_total (cfg : Config) (db : Database) :
  GetConnectionString cfg db = (fst (GetConnectionString cfg db), None).
Proof.
  unfold GetConnectionString.
  repeat match goal with |- context [if ?b then _ else _] => destruct b end; reflexivity.
Qed.

(** [MoveToStage] to a stage that is not valid fails without a call
    and without a change; to the stage the record is at it succeeds without
    a call and without a change.  Otherwise it fails exactly when
    [syncToStage] fails, and then hands the record back untouched; when the
    sync succeeds the record gets the target stage and the path of that
    stage, whatever the integrity check of a promotion answers. *)
Lemma MoveToStage_outcome (cfg : Config) (U : StageUtils) (db : Database) (t : Z) (w : World) :
  let '(err, db', w') := MoveToStage cfg U db t w in
  if negb (IsValidStage U t) then err <> None /\ db' = db /\ w' = w
  else if Stage db =? t then err = None /\ db' = db /\ w' = w
  else
    match syncToStage cfg U db t w with
    | (Some e, w1) =>
        err = Some (Errorf "failed to sync database to target stage: %v" [ArgError e])
        /\ db' = db /\ w' = w1
    | (None, w1) =>
        err = None /\ db' = updateDatabasePath cfg U (SetStage db t) t /\ extends w1 w'
    end.
Proof.
  unfold MoveToStage.
  destruct (negb (IsValidStage U t)).
  - destruct (GetValidStageRange U). simpl. repeat split. discriminate.
  - destruct (Stage db =? t); [simpl; auto|].
    unfold bind. destruct (syncToStage cfg U db t w) as [[e|] w1]; [simpl; auto|].
    destruct (t <? Stage db); [|simpl; auto using extends_refl].
    rewrite GetConnectionString_total.
    pose proof (VerifyDatabaseIntegrity_emits (fun _ => true) (fun _ _ _ => eq_refl)
                  (fst (GetConnectionString cfg (updateDatabasePath cfg U (SetStage db t) t)))
                  w1) as (more & Hcalls & _).
    destruct (VerifyDatabaseIntegrity _ w1) as [verdict w2]. simpl in *.
    repeat split. now exists more.
Qed.

(** A sync that succeeds had a connection string for the target stage. *)
Lemma syncToStage_needs_target (cfg : Config) (U : StageUtils) (db : Database) (t : Z)
    (w w' : World) :
  syncToStage cfg U db t w = (None, w') ->
  snd (GetConnectionStringForStage cfg U db t) = None.
Proof.
  unfold syncToStage. rewrite GetConnectionString_total.
  destruct (GetConnectionStringForStage cfg U db t) as [conn [e|]]; [|reflexivity].
  cbv [bind deferring sql_Open db_Ping db_Close tell ret].
  match goal with |- context [ask ?c w] => destruct (ask c w) as [r1 w1] end.
  destruct (reply_error r1); [discriminate|].
  match goal with |- context [ask ?c w1] => destruct (ask c w1) as [r2 w2] end.
  destruct (reply_error r2); discriminate.
Qed.

Lemma GetConnectionStringForStage_supported (cfg : Config) (U : StageUtils)
    (db : Database) (t : Z) :
  snd (GetConnectionStringForStage cfg U db t) = None
  <-> (t = GetLocalStage U \/ t = GetRemoteStage U).
Proof.
  unfold GetConnectionStringForStage.
  destruct (Z.eqb_spec t (GetLocalStage U)); [simpl; tauto|].
  destruct (Z.eqb_spec t (GetRemoteStage U)); simpl; [tauto|].
  split; [discriminate | tauto].
Qed.

(** X8.  A move to a stage other than the one the record is at, and that is
    neither the local nor the remote stage, always fails and hands the
    record back untouched: this revision of the stage manager has no copy
    into the memory tier.  (A move to the stage the record is at returns nil
    without doing anything, whatever the stage.) *)
Theorem MoveToStage_unsupported_target (cfg : Config) (U : StageUtils)
    (db : Database) (t : Z) (w : World) :
  t <> GetLocalStage U -> t <> GetRemoteStage U -> t <> Stage db ->
  fst (fst (MoveToStage cfg U db t w)) <> None
  /\ snd (fst (MoveToStage cfg U db t w)) = db.
Proof.
  intros Hlocal Hremote Hother.
  pose proof (MoveToStage_outcome cfg U db t w) as H.
  destruct (MoveToStage cfg U db t w) as [[err db'] w']. simpl.
  destruct (negb (IsValidStage U t)); [tauto|].
  destruct (Z.eqb_spec (Stage db) t) as [Heq|_]; [congruence|].
  destruct (syncToStage cfg U db t w) as [[e|] w1] eqn:Hsync.
  - destruct H as (-> & -> & _). split; [discriminate | reflexivity].
  - apply syncToStage_needs_target, GetConnectionStringForStage_supported in Hsync. tauto.
Qed.

Lemma MoveToStage_unsupported_target_witness :
  fst (fst (MoveToStage default_config (config_utils default_config)
              (mkDatabase "./storage/u.db" "u" 2 0 0) 1 (calm_world 0))) <> None
  /\ snd (fst (MoveToStage default_config (config_utils default_config)
                 (mkDatabase "./storage/u.db" "u" 2 0 0) 1 (calm_world 0)))
     = mkDatabase "./storage/u.db" "u" 2 0 0.
Proof.
  apply (MoveToStage_unsupported_target default_config (config_utils default_config)
           (mkDatabase "./storage/u.db" "u" 2 0 0) 1 (calm_world 0)); discriminate.
Defined.

(** X9.  After a move that succeeded, the record names the copy that was
    made: its connection string is the connection string of the target stage
    the data was copied to.  This needs the stage helpers to agree with the
    configured numbers of the local and the remote tier, and the target not
    to be the number of the memory tier. *)
Theorem MoveToStage_points_at_copy (cfg : Config) (U : StageUtils)
    (db db' : Database) (t : Z) (w w' : World) :
  GetLocalStage U = Local_StageNumber cfg ->
  GetRemoteStage U = Remote_StageNumber cfg ->
  t <> Memory_StageNumber cfg ->
  t <> Stage db ->
  MoveToStage cfg U db t w = (None, db', w') ->
  GetConnectionString cfg db' = GetConnectionStringForStage cfg U db t.
Proof.
  intros Hlocal Hremote Hmemory Hother Hmove.
  pose proof (MoveToStage_outcome cfg U db t w) as H. rewrite Hmove in H.
  destruct (negb (IsValidStage U t)); [now destruct H|].
  destruct (Z.eqb_spec (Stage db) t) as [Heq|_]; [congruence|].
  destruct (syncToStage cfg U db t w) as [[e|] w1] eqn:Hsync; [now destruct H|].
  destruct H as (_ & -> & _).
  apply syncToStage_needs_target, GetConnectionStringForStage_supported in Hsync.
  unfold GetConnectionString, GetConnectionStringForStage, updateDatabasePath.
  rewrite Hlocal, Hremote.
  apply Z.eqb_neq in Hmemory.
  destruct (t =? Local_StageNumber cfg) eqn:Hlb; simpl; rewrite ?Hmemory, ?Hlb;
    [reflexivity|].
  destruct (t =? Remote_StageNumber cfg) eqn:Hrb; simpl; rewrite ?Hmemory, ?Hlb, ?Hrb;
    [reflexivity|].
  apply Z.eqb_neq in Hlb, Hrb. destruct Hsync; congruence.
Qed.

Lemma MoveToStage_points_at_copy_witness :
  exists db' w',
    MoveToStage default_config (config_utils default_config) (sample_database 3 5) 2
      (calm_world 0) = (None, db', w')
    /\ GetConnectionString default_config db'
       = GetConnectionStringForStage default_config (config_utils default_config)
           (sample_database 3 5) 2.
Proof.
  eexists _, _. split; [vm_compute; reflexivity|].
  eapply (MoveToStage_points_at_copy default_config (config_utils default_config)
            (sample_database 3 5) _ 2 (calm_world 0));
    [reflexivity | reflexivity | discriminate | discriminate | vm_compute; reflexivity].
Defined.

(* ================================================================== *)
(** * Outcomes of a promotion and of a demotion *)

Lemma MoveToStage_fields (cfg : Config) (U : StageUtils) (db : Database) (t : Z) (w : World) :
  let db' := snd (fst (MoveToStage cfg U db t w)) in
  Name db' = Name db /\ LastAccessed db' = LastAccessed db
  /\ RequestCount db' = RequestCount db
  /\ (Stage db' = Stage db \/ Stage db' = t).
Proof.
  pose proof (MoveToStage_outcome cfg U db t w) as H.
  destruct (MoveToStage cfg U db t w) as [[err db'] w']. simpl.
  destruct (negb (IsValidStage U t)); [destruct H as (_ & -> & _); auto|].
  destruct (Stage db =? t); [destruct H as (_ & -> & _); auto|].
  destruct (syncToStage cfg U db t w) as [[e|] w1]; destruct H as (_ & -> & _); auto.
  destruct (updateDatabasePath_fields cfg U (SetStage db t) t) as (-> & -> & -> & ->).
  simpl. auto.
Qed.

(** X10.  [PromoteToCloserStage] never changes the name or the time of last
    access of the record, and leaves the record at its stage or puts it at
    the next closer one.  At the closest stage, or without a closer stage, it
    changes nothing at all and calls nothing but the mutex; in every other
    case the request count is 0 afterwards, whether the promotion went
    through or not. *)
Theorem PromoteToCloserStage_outcome (cfg : Config) (U : StageUtils) (db : Database) (w : World) :
  let db' := fst (PromoteToCloserStage cfg U db w) in
  let w' := snd (PromoteToCloserStage cfg U db w) in
  let idle := IsClosestStage U (Stage db) || (GetNextCloserStage U (Stage db) =? 0) in
  Name db' = Name db /\ LastAccessed db' = LastAccessed db
  /\ (Stage db' = Stage db \/ Stage db' = GetNextCloserStage U (Stage db))
  /\ (if idle
      then db' = db
           /\ calls w' = (calls w ++ [CallLock (Name db); CallUnlock (Name db)])%list
      else RequestCount db' = 0).
Proof.
  unfold PromoteToCloserStage.
  cbv [deferring bind mutex_Lock mutex_Unlock tell ret].
  destruct (IsClosestStage U (Stage db)); simpl.
  { repeat split; auto. now rewrite <- app_assoc. }
  destruct (GetNextCloserStage U (Stage db) =? 0) eqn:Htarget; simpl.
  { repeat split; auto. now rewrite <- app_assoc. }
  rewrite GetConnectionString_total.
  cbv [sql_Open db_Ping db_Close bind tell ret].
  match goal with |- context [ask ?c ?w0] => destruct (ask c w0) as [r1 w1] end.
  destruct (reply_error r1); [simpl; auto|].
  match goal with |- context [ask ?c w1] => destruct (ask c w1) as [r2 w2] end.
  destruct (reply_error r2); [simpl; auto|].
  pose proof (MoveToStage_fields cfg U (SetRequestCount db 0)
                (GetNextCloserStage U (Stage db))
                (log_call (CallClose (fst (GetConnectionString cfg (SetRequestCount db 0)))) w2))
    as H.
  destruct (MoveToStage cfg U (SetRequestCount db 0) _ _) as [[err db2] w3].
  simpl in *. tauto.
Qed.

(** The pre-demotion loop returns once it has fuel for the stages up to the
    farthest one. *)
Lemma demote_sync_loop_returns (cfg : Config) (U : StageUtils) (db : Database) :
  next_farther_ascends U ->
  forall (n : nat) (stage : Z) (w : World),
    (stage = 0 \/ GetFarthestStage U - stage < Z.of_nat n) ->
    exists w', forall fuel, (n < fuel)%nat ->
                            demote_sync_loop cfg U fuel db stage w = Some (db, w').
Proof.
  intros Hnext. induction n as [|n IH]; intros stage w Hmeasure.
  - exists w. intros [|fuel] Hfuel; [lia|]. simpl.
    destruct (Z.eqb_spec stage 0); [reflexivity|]. simpl.
    destruct (Z.leb_spec stage (GetFarthestStage U)); [simpl in Hmeasure; lia | reflexivity].
  - destruct (negb (stage =? 0) && (stage <=? GetFarthestStage U)) eqn:Hcond.
    + assert (Hnext_measure : GetNextFartherStage U stage = 0
                              \/ GetFarthestStage U - GetNextFartherStage U stage < Z.of_nat n).
      { apply andb_true_iff in Hcond as [Hnonzero _].
        apply negb_true_iff, Z.eqb_neq in Hnonzero.
        destruct (Hnext stage) as [Hzero|Hup]; [now left | right].
        destruct Hmeasure as [Hzero|Hmeasure]; [contradiction | lia]. }
      destruct (syncToStage cfg U db stage w) as [[e|] w1] eqn:Hsync.
      * destruct (IH _ w1 Hnext_measure) as [w' Hrun].
        exists w'. intros [|fuel] Hfuel; [lia|]. simpl.
        rewrite Hcond, Hsync. apply Hrun. lia.
      * pose proof (verifyDatabaseAtStage_restores cfg U db stage w1) as Hsame.
        destruct (verifyDatabaseAtStage cfg U db stage w1) as [[verdict db1] w2] eqn:Hverify.
        simpl in Hsame. subst db1.
        destruct (IH _ w2 Hnext_measure) as [w' Hrun].
        exists w'. intros [|fuel] Hfuel; [lia|]. simpl.
        rewrite Hcond, Hsync, Hverify. apply Hrun. lia.
    + exists w. intros [|fuel] Hfuel; [lia|]. simpl. now rewrite Hcond.
Qed.

(** X11.  With a helper for the next farther stage that answers 0 or a
    stage above its argument, [demoteToFartherStage] returns.  It never
    changes the name or the time of last access of the record, and leaves the
    record at its stage or puts it at the next farther one.  Nothing is
    changed when the record is at the farthest stage, when the time since
    its last access is below the timeout as the code computes the two (the
    difference saturated to int64 by [time.Since], the seconds of the
    configuration times 10^9 wrapped to int64), or when there is no farther
    stage; in every other case the request count is 0 afterwards, whether the
    syncs and the move went through or not.  For a timeout whose nanoseconds
    fit int64 the comparison is [now - last_accessed < timeout]; a larger
    timeout wraps, and a record accessed within it can be demoted. *)
Theorem demoteToFartherStage_outcome (cfg : Config) (U : StageUtils) (db : Database) (w : World) :
  next_farther_ascends U ->
  let idle := IsFarthestStage U (Stage db)
              || (time_Since (clock w) (LastAccessed db) <? timeoutDuration cfg)
              || (GetNextFartherStage U (Stage db) =? 0) in
  exists fuel db' w',
    (forall fuel', (fuel <= fuel')%nat ->
                   demoteToFartherStage cfg U fuel' db w = Some (db', w'))
    /\ Name db' = Name db /\ LastAccessed db' = LastAccessed db
    /\ (Stage db' = Stage db \/ Stage db' = GetNextFartherStage U (Stage db))
    /\ (if idle then db' = db else RequestCount db' = 0)
    /\ (int64_min <= StageTimeoutSeconds cfg * time_Second <= int64_max ->
        (time_Since (clock w) (LastAccessed db) <? timeoutDuration cfg)
        = (clock w - LastAccessed db <? StageTimeoutSeconds cfg * time_Second)).
Proof.
  intros Hnext. simpl.
  pose proof (recent_access_check_exact cfg (clock w) (LastAccessed db)) as Hexact.
  set (n := S (Z.to_nat (GetFarthestStage U - GetNextFartherStage U (Stage db)))).
  destruct (demote_sync_loop_returns cfg U db Hnext n (GetNextFartherStage U (Stage db))
              (log_call (CallLock (Name db)) w)) as [w1 Hloop];
    [right; unfold n; lia|].
  unfold demoteToFartherStage. cbv [mutex_Lock mutex_Unlock tell time_Now]. simpl.
  destruct (IsFarthestStage U (Stage db)); simpl.
  { exists 0%nat, db, (log_call (CallUnlock (Name db)) (log_call (CallLock (Name db)) w)).
    repeat split; auto. }
  destruct (_ <? timeoutDuration cfg); simpl.
  { exists 0%nat, db, (log_call (CallUnlock (Name db)) (log_call (CallLock (Name db)) w)).
    repeat split; auto. }
  destruct (GetNextFartherStage U (Stage db) =? 0); simpl.
  { exists 0%nat, db, (log_call (CallUnlock (Name db)) (log_call (CallLock (Name db)) w)).
    repeat split; auto. }
  destruct (AutoSyncEnabled cfg); simpl.
  - pose proof (MoveToStage_fields cfg U (SetRequestCount db 0)
                  (GetNextFartherStage U (Stage db)) w1) as H.
    destruct (MoveToStage cfg U (SetRequestCount db 0) _ w1) as [[err db2] w2] eqn:Hmove.
    exists (S n), db2, (log_call (CallUnlock (Name db)) w2).
    split; [|simpl in H; tauto].
    intros fuel Hfuel. rewrite Hloop by lia. now rewrite Hmove.
  - pose proof (MoveToStage_fields cfg U (SetRequestCount db 0)
                  (GetNextFartherStage U (Stage db)) (log_call (CallLock (Name db)) w)) as H.
    destruct (MoveToStage cfg U (SetRequestCount db 0) _ _) as [[err db2] w2] eqn:Hmove.
    exists 0%nat, db2, (log_call (CallUnlock (Name db)) w2).
    split; [|simpl in H; tauto].
    intros fuel _. reflexivity.
Qed.

Lemma demoteToFartherStage_outcome_witness :
  exists fuel db' w',
    demoteToFartherStage default_config (config_utils default_config) fuel
      (mkDatabase "./storage/u.db" "u" 2 0 4) (calm_world 400000000000) = Some (db', w')
    /\ RequestCount db' = 0.
Proof.
  destruct (demoteToFartherStage_outcome default_config (config_utils default_config)
              (mkDatabase "./storage/u.db" "u" 2 0 4) (calm_world 400000000000)
              (config_utils_ascends default_config))
    as (fuel & db' & w' & Hrun & _ & _ & _ & Hcount & _).
  exists fuel, db', w'. split; [apply Hrun; lia | exact Hcount].
Defined.

(* ================================================================== *)
(** * The copy and its retries *)

(** One turn of the retry loop. *)
Lemma executeDatabaseCopy_loop_step (remaining : nat) (attempt : Z)
    (sourceDB targetConnection : string) (lastErr : option string) (w : World) :
  executeDatabaseCopy_loop (S remaining) attempt sourceDB targetConnection lastErr w
  = let w1 := mkWorld (skipn 1 (script w))
                (calls w ++ [CallExec sourceDB "VACUUM INTO ?" [targetConnection]])%list
                (clock w) in
    match reply_failure (nth 0 (script w) ROk) with
    | None => (None, w1)
    | Some msg =>
        if Contains msg "output file already exists" && (attempt <? maxRetries - 1) then
          executeDatabaseCopy_loop remaining (attempt + 1) sourceDB targetConnection (Some msg)
            (log_call (CallSleep 100) w1)
        else (Some (Errorf "failed to copy database: %v" [ArgError (ExtError msg)]), w1)
    end.
Proof.
  destruct w as [replies log now]. simpl executeDatabaseCopy_loop.
  unfold bind, db_Exec, ask, time_Sleep, tell, ret, log_call. simpl.
  destruct replies as [|r replies]; simpl; [reflexivity|].
  destruct (reply_failure r) as [msg|]; [|reflexivity].
  now destruct (Contains msg "output file already exists" && _).
Qed.

(** X12.  [executeDatabaseCopy] runs the copy statement at least once and
    at most three times.  It tries again, after a pause of 100 ms, only when
    the attempt failed with a message that contains "output file already
    exists", and never after the third attempt; any other failure ends it at
    once.  Its result is the result of the last attempt it made. *)
Theorem executeDatabaseCopy_attempts (sourceDB targetConnection : string) (w : World) :
  let n := copy_attempts (script w) in
  let last := nth (n - 1) (script w) ROk in
  (1 <= n <= 3)%nat
  /\ executeDatabaseCopy sourceDB targetConnection w
     = (match reply_failure last with
        | Some msg => Some (Errorf "failed to copy database: %v" [ArgError (ExtError msg)])
        | None => None
        end,
        mkWorld (skipn n (script w))
          (calls w ++ retry_calls sourceDB targetConnection n)%list (clock w)).
Proof.
  destruct w as [replies log now].
  unfold copy_attempts, executeDatabaseCopy, retryable.
  change (Z.to_nat maxRetries) with 3%nat.
  destruct replies as [|r1 [|r2 [|r3 rest]]]; cbn [script calls clock nth].
  all: repeat first
         [ rewrite executeDatabaseCopy_loop_step; cbn [script calls clock nth skipn log_call]
         | match goal with
           | |- context [?a <? maxRetries - 1] =>
               let b := eval vm_compute in (a <? maxRetries - 1) in
               change (a <? maxRetries - 1) with b
           | |- context [reply_failure ?r] =>
               is_var r; destruct (reply_failure r) as [?msg|] eqn:?
           | |- context [Contains ?m _] =>
               is_var m; destruct (Contains m "output file already exists") eqn:?
           end
         | progress cbn [andb Nat.sub retry_calls nth skipn reply_failure] ].
  all: repeat match goal with
              | H : Some _ = Some _ |- _ => injection H as H; subst
              end.
  all: try congruence.
  all: split; [lia | rewrite <- ?app_assoc; reflexivity].
Qed.

(* ================================================================== *)
(** * What a deletion removes *)

Lemma RemoveFromStage_spares (U : StageUtils) (db : Database) (s : Z) :
  emits (spares_stage U (Stage db)) (RemoveFromStage U db s).
Proof.
  unfold RemoveFromStage.
  destruct (negb (IsRemovableStage U s)); [apply emits_ret|].
  destruct (Z.eqb_spec s (Stage db)) as [Hcurrent|Hother]; [apply emits_ret|].
  destruct (Z.eqb_spec s (GetLocalStage U)) as [Hlocal|_].
  { unfold removeFromLocalStage.
    emits_auto ltac:(simpl; apply negb_true_iff, Z.eqb_neq; congruence). }
  destruct (Z.eqb_spec s (GetRemoteStage U)) as [Hremote|_].
  { unfold removeFromR2Stage.
    emits_auto ltac:(simpl; apply negb_true_iff, Z.eqb_neq; congruence). }
  apply emits_ret.
Qed.

Lemma FixedTiers_RemoveFromStage_spares (cfg : Config) (db : Database) (s : Z) :
  emits (spares_tier cfg (Stage db)) (FixedTiers.RemoveFromStage cfg db s).
Proof.
  unfold FixedTiers.RemoveFromStage.
  destruct ((s <? 1) || (s >? 3)); [apply emits_ret|].
  destruct (Z.eqb_spec s (Stage db)) as [Hcurrent|Hother]; [apply emits_ret|].
  destruct (Z.eqb_spec s (Memory_StageNumber cfg)) as [Hmemory|_].
  { unfold removeFromMemoryStage.
    emits_auto ltac:(simpl; apply negb_true_iff, Z.eqb_neq; congruence). }
  destruct (Z.eqb_spec s (Local_StageNumber cfg)) as [Hlocal|_].
  { unfold removeFromLocalStage.
    emits_auto ltac:(simpl; apply negb_true_iff, Z.eqb_neq; congruence). }
  destruct (Z.eqb_spec s (Remote_StageNumber cfg)) as [Hremote|_].
  { unfold removeFromR2Stage.
    emits_auto ltac:(simpl; apply negb_true_iff, Z.eqb_neq; congruence). }
  apply emits_ret.
Qed.

(** X13.  [Delete] never deletes the copy at the stage the record is at.
    Whatever the fuel, the registry and the answers of the stores, the calls
    of a [Delete] that returns hold no deletion in the store of the current
    stage of the record: the removal of that stage is the one
    [RemoveFromStage] refuses.  This holds with either revision of
    [RemoveFromStage]. *)
Theorem Delete_spares_current_stage (cfg : Config) (U : StageUtils) (db : Database)
    (fuel : nat) (Dbs : option (list Database)) (w : World)
    (err : option error) (Dbs' : option (list Database))
    (removals : list (Z * option error)) (w' : World) :
  (Delete cfg (RemoveFromStage U) fuel Dbs db w = Some (err, Dbs', removals, w') ->
   bracketed (Name db) (spares_stage U (Stage db)) w w')
  /\ (Delete cfg (FixedTiers.RemoveFromStage cfg) fuel Dbs db w
      = Some (err, Dbs', removals, w') ->
      bracketed (Name db) (spares_tier cfg (Stage db)) w w').
Proof.
  split; intros Hrun.
  - eapply Delete_bracketed; [|exact Hrun]. intros s. apply RemoveFromStage_spares.
  - eapply Delete_bracketed; [|exact Hrun]. intros s. apply FixedTiers_RemoveFromStage_spares.
Qed.

Lemma Delete_spares_current_stage_witness :
  exists err Dbs' removals w',
    Delete default_config (FixedTiers.RemoveFromStage default_config) 9
      (Some [sample_database 1 0]) (sample_database 1 0) (calm_world 0)
    = Some (err, Dbs', removals, w')
    /\ bracketed "u" (spares_tier default_config 1) (calm_world 0) w'.
Proof.
  eexists _, _, _, _. split; [vm_compute; reflexivity|].
  eapply (proj2 (Delete_spares_current_stage default_config (config_utils default_config)
                   (sample_database 1 0) 9 (Some [sample_database 1 0]) (calm_world 0)
                   _ _ _ _)).
  vm_compute. reflexivity.
Defined.



(* ================================================================== *)
(** * Running a statement *)

(** A call that asks takes the next answer of the script. *)
Lemma ask_spec (c : call) (w : World) :
  ask c w = (hd ROk (script w), mkWorld (tl (script w)) (calls w ++ [c])%list (clock w)).
Proof. unfold ask, log_call. now destruct (script w). Qed.

(** X15.  [Execute] counts the access and stamps the time of access on
    every path, also when the statement fails.  It starts goroutines only
    when the open and the statement both went through: the promotion when
    automatic stage movement is on and the request count, the access just
    made included, has reached the threshold; the sync to the upper stages
    when auto-sync is on and the statement is a write.  A statement that
    fails returns the empty map with the error; an error of [LastInsertId]
    alone is not an error of [Execute]. *)
Theorem Execute_triggers (cfg : Config) (T : CaseTables)
    (driver_result : reply -> sql_Result) (db : Database) (query : string) (w : World) :
  let '(output, err, db', tasks) := fst (Execute cfg T driver_result db query w) in
  let opened := is_nil (reply_error (nth 0 (script w) ROk)) in
  let ran := opened && is_nil (reply_error (nth 1 (script w) ROk)) in
  let count := uint_inc (RequestCount db) in
  db' = SetRequestCount (SetLastAccessed db (clock w)) count
  /\ tasks
     = ((if ran && AutoStageMovement cfg && (count >=? RequestCountThreshold cfg)
         then [GoPromoteToCloserStage (Name db)] else [])
        ++ (if ran && AutoSyncEnabled cfg && IsWriteOperation T query
            then [GoSyncToUpperStages (Name db)] else []))%list
  /\ (ran = false -> output = EmptyResult /\ err <> None)
  /\ (ran = true ->
      (err = None <-> snd (RowsAffected (driver_result (nth 1 (script w) ROk))) = None)).
Proof.
  unfold Execute, handleAccess.
  cbv [bind deferring mutex_Lock mutex_Unlock tell time_Now ret sql_Open db_Close].
  rewrite GetConnectionString_total. rewrite ask_spec. simpl.
  replace (hd ROk (script w)) with (nth 0 (script w) ROk) by now destruct (script w).
  destruct (reply_error (nth 0 (script w) ROk)) as [e0|]; simpl.
  { repeat split; try discriminate. }
  rewrite ask_spec. simpl.
  replace (hd ROk (tl (script w))) with (nth 1 (script w) ROk)
    by now destruct (script w) as [|? [|? ?]].
  destruct (reply_error (nth 1 (script w) ROk)) as [e1|]; simpl.
  { repeat split; try discriminate. }
  unfold ExecResultToMap.
  destruct (RowsAffected (driver_result _)) as [rows [e|]]; simpl.
  { repeat split; try discriminate; try (intros; discriminate). }
  destruct (LastInsertId (driver_result _)) as [last lasterr]. simpl.
  repeat split; try discriminate.
Qed.

(* ================================================================== *)
(** * Connection strings and paths *)

Lemma before_char_app (sep : ascii) (a b : string) :
  has_char sep a = false -> before_char sep (a ++ String sep b) = a.
Proof.
  induction a as [|c a IH]; simpl; intros H.
  - now rewrite Ascii.eqb_refl.
  - apply orb_false_iff in H as [Hc Ha]. rewrite Hc. now rewrite IH.
Qed.

Lemma has_char_app (sep : ascii) (a b : string) :
  has_char sep (a ++ b) = has_char sep a || has_char sep b.
Proof. induction a as [|c a IH]; simpl; [reflexivity | now rewrite IH, orb_assoc]. Qed.

(** X16.  In the revision with the memory tier, the path
    [extractPathFromConnectionString] reads out of the connection string of
    a stage is the target path of that stage, for every database whose name
    holds no question mark: [/<name>] in memory, [./storage/<name>.db] on
    disk, and the name with [.db] in the remote store. *)
Theorem extractPath_of_connection_string (cfg : Config) (db : Database) (stage : Z)
    (conn : string) :
  has_char "?"%char (Name db) = false ->
  FixedTiersCopy.GetConnectionStringForStage cfg db stage = (conn, None) ->
  FixedTiersCopy.extractPathFromConnectionString conn
  = FixedTiersCopy.getTargetPath cfg (Name db) stage.
Proof.
  intros Hname.
  unfold FixedTiersCopy.GetConnectionStringForStage, FixedTiersCopy.getTargetPath,
    FixedTiersCopy.extractPathFromConnectionString, FixedTiersCopy.getLocalPath.
  assert (Hextract : forall path rest,
             has_char "?"%char path = false ->
             (if HasPrefix ("file:" ++ path ++ String "?"%char rest) "file:"
              then TrimPrefix (before_char "?"%char ("file:" ++ path ++ String "?"%char rest))
                     "file:"
              else "file:" ++ path ++ String "?"%char rest) = path).
  { intros path rest Hpath.
    change ("file:" ++ path ++ String "?"%char rest)
      with (String "f" (String "i" (String "l" (String "e" (String ":"
              (path ++ String "?"%char rest)))))).
    cbn [HasPrefix Ascii.eqb Bool.eqb andb before_char].
    rewrite before_char_app by exact Hpath.
    unfold TrimPrefix. cbn [HasPrefix Ascii.eqb Bool.eqb andb String.length drop].
    reflexivity. }
  destruct (stage =? Memory_StageNumber cfg).
  - intros H. injection H as <-.
    exact (Hextract ("/" ++ Name db) "vfs=memory" Hname).
  - destruct (stage =? Local_StageNumber cfg).
    + intros H. injection H as <-.
      refine (Hextract ("./storage/" ++ Name db ++ ".db") "vfs=disk" _).
      simpl. rewrite has_char_app, Hname. reflexivity.
    + destruct (stage =? Remote_StageNumber cfg); [|discriminate].
      intros H. injection H as <-.
      destruct (HasSuffix (Name db) ".db"); simpl negb; cbv iota.
      * exact (Hextract (Name db) "vfs=r2" Hname).
      * refine (Hextract (Name db ++ ".db") "vfs=r2" _).
        rewrite has_char_app, Hname. reflexivity.
Qed.

Lemma extractPath_of_connection_string_witness :
  FixedTiersCopy.extractPathFromConnectionString "file:./storage/u.db?vfs=disk"
  = "./storage/u.db".
Proof.
  apply (extractPath_of_connection_string default_config (sample_database 2 0) 2
           "file:./storage/u.db?vfs=disk"); reflexivity.
Defined.

(* ================================================================== *)
(** * Creation and verification against the answers of the engine *)

(** [initialize] returns the first failure among the answers to its open,
    its ping and its statements. *)
Lemma initialize_first_failure (cfg : Config) (db : Database) (w : World) :
  fst (initialize cfg db w)
  = first_failure (firstn (initialize_asks cfg (Stage db)) (script w)).
Proof.
  unfold initialize, initialize_asks. rewrite GetConnectionString_total.
  cbv [bind deferring sql_Open db_Ping db_Exec db_Close tell ret].
  destruct w as [replies log now].
  destruct (Stage db =? Remote_StageNumber cfg);
    destruct replies as [|[] [|[] [|[] [|[] rest]]]]; reflexivity.
Qed.

(** X5.  [CreateDatabaseAndInitialize] succeeds exactly when the stage is
    one of the three configured tiers and none of the answers to the open,
    the ping and the initial statements is a failure.  It then appends one
    record with the requested name and stage, a request count of 0, the time
    of creation as time of last access, and the path of the tier: [/<name>]
    in memory, [./storage/<name>.db] on disk, [<name>] in the remote store.
    When an answer fails, its error is returned and the registry is left as
    it was. *)
Theorem Create_outcome (cfg : Config) (items : list Database)
    (name : string) (stage : Z) (w : World) :
  let '(created, err, items', _) := CreateDatabaseAndInitialize cfg items name stage w in
  let failure := first_failure (firstn (initialize_asks cfg stage) (script w)) in
  let database := mkDatabase (creation_path cfg name stage) name stage (clock w) 0 in
  (err = None <-> is_configured_tier cfg stage = true /\ failure = None)
  /\ (is_configured_tier cfg stage = true -> err = failure)
  /\ match err with
     | None => created = Some database /\ items' = (items ++ [database])%list
     | Some _ => created = None /\ items' = items
     end.
Proof.
  unfold CreateDatabaseAndInitialize, is_configured_tier, creation_path.
  destruct (stage =? Memory_StageNumber cfg) eqn:Hm;
    [|destruct (stage =? Local_StageNumber cfg) eqn:Hl;
      [|destruct (stage =? Remote_StageNumber cfg) eqn:Hr]].
  4: { simpl. repeat split; try discriminate; intros; intuition discriminate. }
  all: cbv [bind time_Now ret];
    match goal with |- context [initialize ?c ?d ?w0] =>
      pose proof (initialize_first_failure c d w0) as Hinit;
      destruct (initialize c d w0) as [[e|] w']
    end; simpl in Hinit; simpl orb; rewrite <- Hinit;
    repeat split; try discriminate; auto; intros; intuition discriminate.
Qed.

(** X17.  [VerifyDatabaseIntegrity] reports no error exactly when the open,
    the ping and the query of the schema go through and the integrity pragma
    answers the text [ok]. *)
Theorem VerifyDatabaseIntegrity_passes_iff (conn : string) (w : World) :
  fst (VerifyDatabaseIntegrity conn w) = None
  <-> first_failure (firstn 3 (script w)) = None /\ nth 3 (script w) ROk = RText "ok".
Proof.
  unfold VerifyDatabaseIntegrity.
  cbv [bind deferring sql_Open db_Ping db_Query db_QueryRowText db_Close tell ret].
  destruct w as [replies log now].
  destruct replies as [|[] [|[] [|[] [|[| | |text] rest]]]]; simpl;
    try (split; [discriminate | intros [? ?]; discriminate]).
  all: destruct (String.eqb_spec text "ok") as [->|Hne]; simpl;
    [split; auto | split; [discriminate | intros [_ H]; congruence]].
Qed.

(* ================================================================== *)
(** * Database handles *)

Lemma closes_ret {A : Type} (a : A) : closes_its_handles (ret a).
Proof. intros w held. exists []. simpl. now rewrite app_nil_r. Qed.

Lemma closes_bind {A B : Type} (m : M A) (k : A -> M B) :
  closes_its_handles m -> (forall a, closes_its_handles (k a)) ->
  closes_its_handles (bind m k).
Proof.
  intros Hm Hk w held. unfold bind.
  destruct (Hm w held) as (more1 & Hcalls1 & Hstate1).
  destruct (m w) as [a w1]. simpl in Hcalls1, Hstate1.
  destruct (Hk a w1 held) as (more2 & Hcalls2 & Hstate2).
  exists (more1 ++ more2)%list. split.
  - rewrite Hcalls2, Hcalls1. now rewrite app_assoc.
  - unfold handles_after in *. now rewrite fold_left_app, Hstate1.
Qed.

Lemma closes_tell (c : call) :
  asks_reply c = false -> is_handle_call c = false -> closes_its_handles (tell c).
Proof.
  intros Hask Hhandle w held. exists [c]. split; [reflexivity|].
  unfold handles_after. simpl. destruct c; simpl in *; congruence.
Qed.

Lemma closes_ask (c : call) :
  asks_reply c = true -> is_handle_call c = false -> closes_its_handles (ask c).
Proof.
  intros Hask Hhandle w held. exists [c]. rewrite ask_spec. split; [reflexivity|].
  unfold handles_after. simpl. destruct c; simpl in *; congruence.
Qed.

(** A handle that is opened, used by a body that closes its own handles,
    and closed by the deferred call. *)
Lemma closes_open {A : Type} (conn : string) (fail : error -> M A) (body : M A) :
  (forall e, closes_its_handles (fail e)) ->
  closes_its_handles body ->
  closes_its_handles
    (err <- sql_Open conn ;;
     match err with
     | Some e => fail e
     | None => deferring (db_Close conn) body
     end).
Proof.
  intros Hfail Hbody w held.
  cbv [bind sql_Open deferring db_Close tell ret]. rewrite ask_spec.
  destruct (reply_error (hd ROk (script w))) as [e|] eqn:Hopen.
  - destruct (Hfail e (mkWorld (tl (script w)) (calls w ++ [CallOpen conn]) (clock w)) held)
      as (more & Hcalls & Hstate).
    exists (CallOpen conn :: more). split.
    + rewrite Hcalls. simpl. now rewrite <- app_assoc.
    + unfold handles_after in *. simpl. rewrite Hopen. simpl. exact Hstate.
  - destruct (Hbody (mkWorld (tl (script w)) (calls w ++ [CallOpen conn]) (clock w))
                (conn :: held)) as (more & Hcalls & Hstate).
    destruct (body _) as [a w1]. simpl in *.
    exists (CallOpen conn :: more ++ [CallClose conn])%list. split.
    + rewrite Hcalls. now rewrite <- !app_assoc.
    + unfold handles_after in *. simpl. rewrite Hopen. simpl.
      rewrite fold_left_app, Hstate. simpl. now rewrite String.eqb_refl.
Qed.

Ltac closes_step :=
  match goal with
  | |- closes_its_handles (bind (sql_Open _) _) => apply closes_open; [intros ?|]
  | |- closes_its_handles (bind _ _) => apply closes_bind; [|intros ?]
  | |- closes_its_handles (ret _) => apply closes_ret
  | |- closes_its_handles (tell _) => apply closes_tell; reflexivity
  | |- closes_its_handles (ask _) => apply closes_ask; reflexivity
  | |- closes_its_handles (match ?x with _ => _ end) => destruct x
  | |- closes_its_handles (if ?b then _ else _) => destruct b
  end.

Ltac closes_auto :=
  unfold mutex_Lock, mutex_Unlock, db_Ping, db_Exec, db_Query, db_QueryRowInt,
    db_QueryRowText, memoryvfs_Delete, localvfs_Delete, remotevfs_Delete, time_Sleep;
  repeat closes_step.

Lemma executeDatabaseCopy_loop_closes (remaining : nat) (attempt : Z)
    (sourceDB targetConnection : string) (lastErr : option string) :
  closes_its_handles
    (executeDatabaseCopy_loop remaining attempt sourceDB targetConnection lastErr).
Proof.
  revert attempt lastErr. induction remaining as [|remaining IH]; intros attempt lastErr; simpl.
  - apply closes_ret.
  - closes_auto. apply IH.
Qed.

Lemma copyDataBetweenStages_closes (cfg : Config) (U : StageUtils) (db : Database)
    (sourceStage targetStage : Z) :
  closes_its_handles (copyDataBetweenStages cfg U db sourceStage targetStage).
Proof.
  unfold copyDataBetweenStages, deleteTargetFile, executeDatabaseCopy.
  closes_auto; apply executeDatabaseCopy_loop_closes.
Qed.

Lemma syncToStage_closes (cfg : Config) (U : StageUtils) (db : Database) (t : Z) :
  closes_its_handles (syncToStage cfg U db t).
Proof.
  unfold syncToStage. closes_auto. apply copyDataBetweenStages_closes.
Qed.

Lemma VerifyDatabaseIntegrity_closes (conn : string) :
  closes_its_handles (VerifyDatabaseIntegrity conn).
Proof. unfold VerifyDatabaseIntegrity. closes_auto. Qed.

(** X18.  No database handle is left open by the copy, the checks and the
    move: on every path, [syncToStage], [copyDataBetweenStages],
    [VerifyDatabaseIntegrity], [verifyDatabaseAtStage], [initialize] and
    [MoveToStage] have closed, when they return, each handle whose open was
    answered without a failure, and they close no other. *)
Theorem handles_are_closed (cfg : Config) (U : StageUtils) (db : Database) (s t : Z)
    (conn : string) :
  closes_its_handles (syncToStage cfg U db t)
  /\ closes_its_handles (copyDataBetweenStages cfg U db s t)
  /\ closes_its_handles (VerifyDatabaseIntegrity conn)
  /\ closes_its_handles (verifyDatabaseAtStage cfg U db t)
  /\ closes_its_handles (initialize cfg db)
  /\ closes_its_handles (MoveToStage cfg U db t).
Proof.
  split; [apply syncToStage_closes|].
  split; [apply copyDataBetweenStages_closes|].
  split; [apply VerifyDatabaseIntegrity_closes|].
  split; [unfold verifyDatabaseAtStage; closes_auto|].
  split; [unfold initialize; closes_auto|].
  unfold MoveToStage. closes_auto;
    first [apply syncToStage_closes | apply VerifyDatabaseIntegrity_closes].
Qed.

(** X19.  [PromoteToCloserStage] leaves the handle of its connectivity
    probe open when the open goes through and the ping fails: the handle is
    closed only after a ping that succeeds. *)
Theorem PromoteToCloserStage_leaks_probe_handle (cfg : Config) (U : StageUtils)
    (db : Database) (w : World) (held : list string) :
  IsClosestStage U (Stage db) = false ->
  GetNextCloserStage U (Stage db) <> 0 ->
  reply_error (nth 0 (script w) ROk) = None ->
  reply_error (nth 1 (script w) ROk) <> None ->
  let w' := snd (PromoteToCloserStage cfg U db w) in
  exists more,
    calls w' = (calls w ++ more)%list
    /\ handles_after (script w) held more
       = (script w', fst (GetConnectionString cfg db) :: held).
Proof.
  intros Hclosest Htarget Hopen Hping.
  unfold PromoteToCloserStage.
  cbv [deferring bind mutex_Lock mutex_Unlock tell ret sql_Open db_Ping].
  simpl. rewrite Hclosest.
  destruct (Z.eqb_spec (GetNextCloserStage U (Stage db)) 0) as [|_]; [contradiction|].
  assert (Hconn : GetConnectionString cfg (SetRequestCount db 0)
                  = (fst (GetConnectionString cfg db), None)).
  { unfold GetConnectionString, SetRequestCount. simpl.
    repeat match goal with |- context [if ?b then _ else _] => destruct b end; reflexivity. }
  rewrite Hconn. rewrite ask_spec. simpl.
  replace (hd ROk (script w)) with (nth 0 (script w) ROk) by now destruct (script w).
  rewrite Hopen. rewrite ask_spec. simpl.
  replace (hd ROk (tl (script w))) with (nth 1 (script w) ROk)
    by now destruct (script w) as [|? [|? ?]].
  destruct (reply_error (nth 1 (script w) ROk)) as [e|]; [|contradiction].
  simpl.
  exists [CallLock (Name db); CallOpen (fst (GetConnectionString cfg db));
          CallPing (fst (GetConnectionString cfg db)); CallUnlock (Name db)].
  split; [now rewrite <- !app_assoc|].
  unfold handles_after. simpl.
  replace (hd ROk (script w)) with (nth 0 (script w) ROk) by now destruct (script w).
  now rewrite Hopen.
Qed.

Lemma PromoteToCloserStage_leaks_probe_handle_witness :
  exists more,
    calls (snd (PromoteToCloserStage default_config (config_utils default_config)
                  (sample_database 3 5) (scripted_world [ROk; RFail "unreachable"] 0)))
    = more
    /\ snd (handles_after [ROk; RFail "unreachable"] [] more) = ["file:u.db?vfs=r2"].
Proof.
  destruct (PromoteToCloserStage_leaks_probe_handle default_config
              (config_utils default_config) (sample_database 3 5)
              (scripted_world [ROk; RFail "unreachable"] 0) [])
    as (more & Hcalls & Hstate); try reflexivity; try discriminate.
  exists more. split; [exact Hcalls|].
  simpl in Hstate. now rewrite Hstate.
Defined.

(* ================================================================== *)
(** * The moves of the revision with the memory tier *)

Section FixedTierMoves.

Variable cfg : Config.
Variable copy : Database -> Z -> Z -> M (option error).

Lemma SetStage_restores (db : Database) (t : Z) : SetStage (SetStage db t) (Stage db) = db.
Proof. now destruct db. Qed.

Lemma FixedTiers_updateDatabasePath_restaged (db : Database) (t : Z) :
  SetStage (FixedTiersStages.updateDatabasePath cfg (SetStage db t) t) (Stage db)
  = FixedTiersStages.updateDatabasePath cfg db t.
Proof.
  unfold FixedTiersStages.updateDatabasePath. destruct db. simpl.
  repeat match goal with |- context [if ?b then _ else _] => destruct b end; reflexivity.
Qed.

Lemma FixedTiers_target_configured (db : Database) (t : Z) :
  snd (FixedTiersCopy.GetConnectionStringForStage cfg db t) = None ->
  is_configured_tier cfg t = true.
Proof.
  unfold FixedTiersCopy.GetConnectionStringForStage, is_configured_tier.
  destruct (t =? Memory_StageNumber cfg); [reflexivity|].
  destruct (t =? Local_StageNumber cfg); [reflexivity|].
  destruct (t =? Remote_StageNumber cfg); [reflexivity|]. discriminate.
Qed.

Lemma FixedTiers_updateDatabasePath_twice (db : Database) (s t : Z) :
  is_configured_tier cfg t = true ->
  FixedTiersStages.updateDatabasePath cfg (FixedTiersStages.updateDatabasePath cfg db s) t
  = FixedTiersStages.updateDatabasePath cfg db t.
Proof.
  unfold FixedTiersStages.updateDatabasePath, is_configured_tier. destruct db. simpl.
  destruct (t =? Memory_StageNumber cfg), (t =? Local_StageNumber cfg),
    (t =? Remote_StageNumber cfg); try discriminate; intros _;
    repeat match goal with |- context [if ?b then _ else _] => destruct b end; reflexivity.
Qed.

Lemma syncDown_outcome (db : Database) (t : Z) (w : World) :
  moved_or_restored cfg db t (fst (fst (FixedTiersStages.syncDown cfg copy db t w)))
    (snd (fst (FixedTiersStages.syncDown cfg copy db t w))).
Proof.
  unfold FixedTiersStages.syncDown, FixedTiersStages.copyDatabaseData.
  rewrite GetConnectionString_total.
  rewrite (GetConnectionString_total cfg
             (FixedTiersStages.updateDatabasePath cfg (SetStage db t) t)).
  pose proof (FixedTiers_target_configured (SetStage db t) t) as Hconf.
  destruct (FixedTiersCopy.GetConnectionStringForStage cfg (SetStage db t) t)
    as [tgt [e|]].
  - cbv [bind deferring sql_Open db_Ping db_Close tell ret].
    match goal with |- context [ask ?c w] => destruct (ask c w) as [r1 w1] end.
    destruct (reply_error r1); simpl; [reflexivity|].
    match goal with |- context [ask ?c w1] => destruct (ask c w1) as [r2 w2] end.
    destruct (reply_error r2); simpl; [reflexivity | apply SetStage_restores].
  - specialize (Hconf eq_refl).
    cbv [bind deferring sql_Open db_Ping db_Close tell ret].
    match goal with |- context [ask ?c w] => destruct (ask c w) as [r1 w1] end.
    destruct (reply_error r1); simpl; [reflexivity|].
    match goal with |- context [ask ?c w1] => destruct (ask c w1) as [r2 w2] end.
    destruct (reply_error r2); simpl; [reflexivity|].
    match goal with |- context [ask ?c w2] => destruct (ask c w2) as [r3 w3] end.
    destruct (reply_error r3); simpl; [apply SetStage_restores|].
    match goal with |- context [ask ?c w3] => destruct (ask c w3) as [r4 w4] end.
    destruct (reply_error r4); simpl; [apply SetStage_restores|].
    destruct (copy (SetStage db t) (Stage db) t w4) as [[e|] w5]; simpl;
      [apply SetStage_restores|].
    match goal with |- context [VerifyDatabaseIntegrity ?c w5] =>
      destruct (VerifyDatabaseIntegrity c w5) as [v w6] end.
    simpl. split; [reflexivity | exact Hconf].
Qed.

Lemma syncUp_outcome (db : Database) (t : Z) (w : World) :
  moved_or_restored cfg db t (fst (fst (FixedTiersStages.syncUp cfg copy db t w)))
    (snd (fst (FixedTiersStages.syncUp cfg copy db t w))).
Proof.
  unfold FixedTiersStages.syncUp, FixedTiersStages.copyDatabaseData.
  rewrite GetConnectionString_total.
  pose proof (FixedTiers_target_configured (SetStage db t) t) as Hconf.
  destruct (FixedTiersCopy.GetConnectionStringForStage cfg (SetStage db t) t)
    as [tgt [e|]].
  - cbv [bind deferring sql_Open db_Ping db_Close tell ret].
    match goal with |- context [ask ?c w] => destruct (ask c w) as [r1 w1] end.
    destruct (reply_error r1); simpl; [reflexivity | apply SetStage_restores].
  - specialize (Hconf eq_refl).
    cbv [bind deferring sql_Open db_Ping db_Close tell ret].
    match goal with |- context [ask ?c w] => destruct (ask c w) as [r1 w1] end.
    destruct (reply_error r1); simpl; [reflexivity|].
    match goal with |- context [ask ?c w1] => destruct (ask c w1) as [r2 w2] end.
    destruct (reply_error r2); simpl; [apply SetStage_restores|].
    destruct (copy (SetStage db t) (Stage db) t w2) as [[e|] w3]; simpl;
      [apply SetStage_restores|].
    split; [reflexivity | exact Hconf].
Qed.

(** X20.  In the revision with the memory tier a move is all or nothing
    for the record: a move that returns an error, whichever step failed,
    hands the record back as it was, the stage it had set in advance
    restored; a move that succeeds to another stage went to a stage between
    1 and 3 that is a configured tier, and leaves the record at that stage
    with the path of that tier; a move to the stage the record is at changes
    nothing.  This holds whatever the copy between the tiers does. *)
Theorem MoveToStage_all_or_nothing (db : Database) (t : Z) (w : World) :
  match fst (fst (FixedTiersStages.MoveToStage cfg copy db t w)) with
  | Some _ => snd (fst (FixedTiersStages.MoveToStage cfg copy db t w)) = db
  | None =>
      1 <= t <= 3
      /\ ((t = Stage db /\ snd (fst (FixedTiersStages.MoveToStage cfg copy db t w)) = db)
          \/ (t <> Stage db /\ is_configured_tier cfg t = true
              /\ snd (fst (FixedTiersStages.MoveToStage cfg copy db t w))
                 = FixedTiersStages.updateDatabasePath cfg (SetStage db t) t))
  end.
Proof.
  unfold FixedTiersStages.MoveToStage.
  destruct (Z.ltb_spec t 1) as [Hlow|Hlow]; simpl; [reflexivity|].
  destruct (Z.gtb_spec t 3) as [Hhigh|Hhigh]; simpl; [reflexivity|].
  destruct (Z.eqb_spec (Stage db) t) as [Heq|Hne]; simpl.
  - split; [lia|]. left. split; [congruence | reflexivity].
  - assert (Hother : t <> Stage db) by congruence.
    destruct (t <? Stage db).
    + pose proof (syncDown_outcome db t w) as H. unfold moved_or_restored in H.
      destruct (fst (fst (FixedTiersStages.syncDown cfg copy db t w))); [exact H|].
      destruct H as [H1 H2]. split; [lia|]. right. auto.
    + pose proof (syncUp_outcome db t w) as H. unfold moved_or_restored in H.
      destruct (fst (fst (FixedTiersStages.syncUp cfg copy db t w))); [exact H|].
      destruct H as [H1 H2]. split; [lia|]. right. auto.
Qed.

Lemma sync_lower_loop_outcome (orig : Z) (fuel : nat) :
  forall (dbi : Database) (stage : Z) (w : World),
    0 <= stage < 2 ^ 64 -> (Z.to_nat stage < fuel)%nat -> Stage dbi = orig ->
    exists err db' w',
      FixedTiersStages.sync_lower_loop cfg copy fuel orig dbi stage w = Some (err, db', w')
      /\ Stage db' = orig
      /\ (err = None -> 1 <= stage ->
          is_configured_tier cfg 1 = true
          /\ db' = FixedTiersStages.updateDatabasePath cfg dbi 1).
Proof.
  induction fuel as [|fuel IH]; intros dbi stage w Hrange Hfuel Hstage; [lia|].
  simpl. destruct (Z.geb_spec stage 1) as [Hpos|Hzero].
  - pose proof (syncDown_outcome dbi stage w) as Hdown. unfold moved_or_restored in Hdown.
    destruct (FixedTiersStages.syncDown cfg copy dbi stage w) as [[[e|] d1] w1];
      simpl in Hdown.
    + subst d1. eexists _, _, _. split; [reflexivity|]. split; [exact Hstage|]. discriminate.
    + destruct Hdown as [-> Hconf]. rewrite <- Hstage.
      rewrite FixedTiers_updateDatabasePath_restaged. rewrite Hstage.
      assert (Hdec : uint_dec stage = stage - 1).
      { apply uint_dec_exact; unfold uint_modulus; lia. }
      rewrite Hdec.
      destruct (IH (FixedTiersStages.updateDatabasePath cfg dbi stage) (stage - 1) w1)
        as (err & db' & w' & Hloop & Hst & Hpath); [lia | lia | |].
      { unfold FixedTiersStages.updateDatabasePath.
        repeat match goal with |- context [if ?b then _ else _] => destruct b end;
          destruct dbi; exact Hstage. }
      exists err, db', w'. split; [exact Hloop|]. split; [exact Hst|].
      intros Herr _. destruct (Z.eq_dec stage 1) as [->|Hmore].
      * split; [exact Hconf|].
        destruct fuel as [|fuel']; [lia|]. simpl in Hloop.
        injection Hloop as _ <- _. reflexivity.
      * destruct (Hpath Herr) as [Hone ->]; [lia|]. split; [exact Hone|].
        now apply FixedTiers_updateDatabasePath_twice.
  - eexists _, _, _. split; [reflexivity|]. split; [exact Hstage|]. intros _ Hge. lia.
Qed.

(** X21.  [SyncToAllLowerStages] on a record at a stage of at least 1
    returns, and always leaves the record at the stage it had.  When it
    returns no error from a stage of at least 2, stage 1 is a configured
    tier and the path of the record is the path of that tier: the path that
    each [syncDown] sets is kept when the stage is set back, so the record
    ends at its own stage with the path of stage 1. *)
Theorem SyncToAllLowerStages_keeps_stage_not_path (db : Database) (fuel : nat) (w : World) :
  1 <= Stage db < 2 ^ 64 -> (Z.to_nat (Stage db) <= fuel)%nat ->
  exists err db' w',
    FixedTiersStages.SyncToAllLowerStages cfg copy fuel db w = Some (err, db', w')
    /\ Stage db' = Stage db
    /\ (err = None -> 2 <= Stage db ->
        is_configured_tier cfg 1 = true
        /\ db' = FixedTiersStages.updateDatabasePath cfg db 1).
Proof.
  intros Hrange Hfuel. unfold FixedTiersStages.SyncToAllLowerStages.
  assert (Hdec : uint_dec (Stage db) = Stage db - 1).
  { apply uint_dec_exact; unfold uint_modulus; lia. }
  rewrite Hdec.
  destruct (sync_lower_loop_outcome (Stage db) fuel db (Stage db - 1) w)
    as (err & db' & w' & Hloop & Hst & Hpath); [lia | lia | reflexivity |].
  exists err, db', w'. split; [exact Hloop|]. split; [exact Hst|].
  intros Herr Htwo. apply Hpath; [exact Herr | lia].
Qed.

End FixedTierMoves.

(** A record of the remote tier, synced to the two lower tiers without an
    error, is still at stage 3 and has the path of the memory tier. *)
Example SyncToAllLowerStages_sample_run :
  exists w',
    FixedTiersStages.SyncToAllLowerStages default_config (fun _ _ _ => ret None) 3
      (sample_database 3 0) (calm_world 0)
    = Some (None, mkDatabase "/u" "u" 3 0 0, w').
Proof. eexists. vm_compute. reflexivity. Qed.

Lemma SyncToAllLowerStages_keeps_stage_not_path_witness :
  exists err db' w',
    FixedTiersStages.SyncToAllLowerStages default_config (fun _ _ _ => ret None) 3
      (sample_database 3 0) (calm_world 0) = Some (err, db', w')
    /\ Stage db' = 3
    /\ (err = None -> 2 <= 3 ->
        is_configured_tier default_config 1 = true
        /\ db' = FixedTiersStages.updateDatabasePath default_config (sample_database 3 0) 1).
Proof.
  apply (SyncToAllLowerStages_keeps_stage_not_path default_config (fun _ _ _ => ret None)
           (sample_database 3 0) 3 (calm_world 0)).
  - simpl. lia.
  - simpl. lia.
Defined.

(* ================================================================== *)
(** * Listing a tier *)

(** [TrimSuffix] takes off what [HasSuffix] found. *)
Lemma TrimSuffix_restores (s suf : string) :
  HasSuffix s suf = true -> TrimSuffix s suf ++ suf = s.
Proof.
  intros H. unfold TrimSuffix. rewrite H. unfold HasSuffix in H.
  apply andb_prop in H. destruct H as [_ H]. apply String.eqb_eq in H.
  rewrite <- H at 2. apply take_drop.
Qed.

Lemma NoDup_map_filter {A B : Type} (f : A -> B) (p : A -> bool) (l : list A) :
  NoDup (map f l) -> NoDup (map f (filter p l)).
Proof.
  induction l as [|a l IH]; simpl; intros H; [constructor|].
  inversion H as [|x xs Hnotin Hrest]; subst.
  destruct (p a); simpl; [|auto].
  constructor; [|auto].
  intros Hin. apply Hnotin. apply in_map_iff in Hin. destruct Hin as (b & Hb & Hin).
  apply filter_In in Hin. apply in_map_iff. exists b. tauto.
Qed.

Section ListingProperties.

Variable cfg : Config.
Variable memoryvfs_ListDatabases : list string.
Variable localvfs_ListFiles : string -> list FileInfo * option error.
Variable remotevfs_ListDatabases : list Database * option error.

Lemma list_local_spec (files : list FileInfo) :
  forall (databases : list Database) (w : World),
    list_local cfg files databases w
    = ((databases
        ++ map (fun file =>
                  mkDatabase (file_FullPath file) (TrimSuffix (file_Name file) ".db")
                    (Local_StageNumber cfg) (clock w) 0)
             (filter is_database_file files))%list, w).
Proof.
  induction files as [|file files IH]; intros databases w; simpl.
  - now rewrite app_nil_r.
  - unfold is_database_file at 1. destruct (file_IsDir file); simpl; [apply IH|].
    destruct (HasSuffix (file_Name file) ".db"); simpl; [|apply IH].
    unfold bind, time_Now. rewrite IH. now rewrite <- app_assoc.
Qed.

Lemma list_remote_spec (entries : list Database) :
  forall databases : list Database,
    list_remote entries databases = (databases ++ entries)%list.
Proof.
  induction entries as [|r2Db entries IH]; intros databases; simpl.
  - now rewrite app_nil_r.
  - rewrite IH, <- app_assoc. now destruct r2Db.
Qed.

(** X22.  Listing the local tier, when its stage number is not also the
    one of the memory tier and the directory could be read, makes no call
    and returns one record for each entry of the directory that is not a
    directory and whose name ends in [.db], in the order of the listing: the
    name of the record followed by [.db] is the name of the file, its path
    the full path of the file, its stage the local stage, its request count
    0 and its time of access the time of the listing.  Files with distinct
    names give records with distinct names. *)
Theorem ListDatabases_local_files (files : list FileInfo) (w : World) :
  Local_StageNumber cfg <> Memory_StageNumber cfg ->
  localvfs_ListFiles DEFAULT_DATABASE_PATH = (files, None) ->
  exists items,
    ListDatabases cfg memoryvfs_ListDatabases localvfs_ListFiles remotevfs_ListDatabases
      (Local_StageNumber cfg) w = ((Some items, None), w)
    /\ map (fun d => (Name d ++ ".db", Path d)) items
       = map (fun file => (file_Name file, file_FullPath file))
           (filter is_database_file files)
    /\ Forall (fun d => Stage d = Local_StageNumber cfg /\ RequestCount d = 0
                        /\ LastAccessed d = clock w) items
    /\ (NoDup (map file_Name files) -> NoDup (map Name items)).
Proof.
  intros Hdistinct Hfiles. unfold ListDatabases.
  destruct (Z.eqb_spec (Local_StageNumber cfg) (Memory_StageNumber cfg)); [contradiction|].
  rewrite Z.eqb_refl, Hfiles. unfold bind, ret. rewrite list_local_spec. simpl.
  eexists. split; [reflexivity|].
  assert (Hnames :
    map (fun d => (Name d ++ ".db", Path d))
      (map (fun file =>
              mkDatabase (file_FullPath file) (TrimSuffix (file_Name file) ".db")
                (Local_StageNumber cfg) (clock w) 0) (filter is_database_file files))
    = map (fun file => (file_Name file, file_FullPath file))
        (filter is_database_file files)).
  { rewrite map_map. apply map_ext_in. intros file Hin. simpl.
    apply filter_In in Hin. destruct Hin as [_ Hfile]. unfold is_database_file in Hfile.
    apply andb_prop in Hfile. destruct Hfile as [_ Hsuffix].
    now rewrite TrimSuffix_restores. }
  split; [exact Hnames|]. split.
  - apply Forall_forall. intros d Hin. apply in_map_iff in Hin.
    destruct Hin as (file & <- & _). simpl. auto.
  - intros Hnodup.
    apply (NoDup_map_inv (fun name => name ++ ".db")). rewrite map_map.
    apply (f_equal (map fst)) in Hnames. rewrite !map_map in Hnames. simpl in Hnames.
    rewrite map_map. simpl. rewrite Hnames. now apply NoDup_map_filter.
Qed.

(** X23.  With the stage number of the remote tier distinct from the two
    others, the registry that [SetupDatabases] builds is the listing of the
    remote store as it is, in its order: no name is checked against another
    and every record keeps the stage, the count and the time of access the
    store reports.  When the store fails to list, the error of the store is
    dropped and the setup error is the text about an invalid stage index,
    with the remote stage number. *)
Theorem SetupDatabases_registry (w : World) :
  Remote_StageNumber cfg <> Memory_StageNumber cfg ->
  Remote_StageNumber cfg <> Local_StageNumber cfg ->
  SetupDatabases cfg memoryvfs_ListDatabases localvfs_ListFiles remotevfs_ListDatabases w
  = (match snd remotevfs_ListDatabases with
     | None => (Some (fst remotevfs_ListDatabases), None)
     | Some _ =>
         (None, Some (Errorf "invalid stage index= %d. Valid stages are 1-3"
                        [ArgUint (Remote_StageNumber cfg)]))
     end, w).
Proof.
  intros Hmemory Hlocal. unfold SetupDatabases, ListDatabases.
  destruct (Z.eqb_spec (Remote_StageNumber cfg) (Memory_StageNumber cfg)); [contradiction|].
  destruct (Z.eqb_spec (Remote_StageNumber cfg) (Local_StageNumber cfg)); [contradiction|].
  rewrite Z.eqb_refl. destruct remotevfs_ListDatabases as [entries [e|]]; simpl.
  - reflexivity.
  - unfold bind, ret. simpl. now rewrite list_remote_spec.
Qed.

End ListingProperties.

Lemma ListDatabases_local_files_witness :
  exists items,
    ListDatabases default_config [] (fun _ => ([mkFileInfo "u.db" "./storage/u.db" false], None))
      ([], None) (Local_StageNumber default_config) (calm_world 0) = ((Some items, None), calm_world 0)
    /\ map (fun d => (Name d ++ ".db", Path d)) items
       = map (fun file => (file_Name file, file_FullPath file))
           (filter is_database_file [mkFileInfo "u.db" "./storage/u.db" false])
    /\ Forall (fun d => Stage d = Local_StageNumber default_config /\ RequestCount d = 0
                        /\ LastAccessed d = clock (calm_world 0)) items
    /\ (NoDup (map file_Name [mkFileInfo "u.db" "./storage/u.db" false])
        -> NoDup (map Name items)).
Proof.
  apply (ListDatabases_local_files default_config []
           (fun _ => ([mkFileInfo "u.db" "./storage/u.db" false], None)) ([], None)
           [mkFileInfo "u.db" "./storage/u.db" false] (calm_world 0)).
  - simpl. discriminate.
  - reflexivity.
Defined.

Lemma SetupDatabases_registry_witness :
  SetupDatabases default_config [] (fun _ => ([], None))
    ([sample_database 3 0; sample_database 1 7], None) (calm_world 0)
  = ((Some [sample_database 3 0; sample_database 1 7], None), calm_world 0).
Proof.
  apply (SetupDatabases_registry default_config [] (fun _ => ([], None))
           ([sample_database 3 0; sample_database 1 7], None) (calm_world 0)).
  - simpl. discriminate.
  - simpl. discriminate.
Defined.

(* ================================================================== *)
(** * The local copy and [Delete] *)

Lemma RemoveFromStage_keeps_file (U : StageUtils) (db : Database) (path : string) (s : Z) :
  Stage db = GetLocalStage U \/ Path db <> path ->
  emits (keeps_file path) (RemoveFromStage U db s).
Proof.
  intros Hpath. unfold RemoveFromStage.
  destruct (negb (IsRemovableStage U s)); [apply emits_ret|].
  destruct (Z.eqb_spec s (Stage db)) as [Hcurrent|Hother]; [apply emits_ret|].
  destruct (Z.eqb_spec s (GetLocalStage U)) as [Hlocal|_].
  { unfold removeFromLocalStage.
    emits_auto ltac:(simpl; apply negb_true_iff, String.eqb_neq;
                     destruct Hpath as [Hat|Hpath]; [congruence | exact Hpath]). }
  destruct (Z.eqb_spec s (GetRemoteStage U)) as [Hremote|_].
  { unfold removeFromR2Stage. emits_auto ltac:(reflexivity). }
  apply emits_ret.
Qed.

Lemma FixedTiers_RemoveFromStage_keeps_file (cfg : Config) (db : Database) (path : string)
    (s : Z) :
  Stage db = Local_StageNumber cfg \/ Path db <> path ->
  emits (keeps_file path) (FixedTiers.RemoveFromStage cfg db s).
Proof.
  intros Hpath. unfold FixedTiers.RemoveFromStage.
  destruct ((s <? 1) || (s >? 3)); [apply emits_ret|].
  destruct (Z.eqb_spec s (Stage db)) as [Hcurrent|Hother]; [apply emits_ret|].
  destruct (Z.eqb_spec s (Memory_StageNumber cfg)) as [Hmemory|_].
  { unfold removeFromMemoryStage. emits_auto ltac:(reflexivity). }
  destruct (Z.eqb_spec s (Local_StageNumber cfg)) as [Hlocal|_].
  { unfold removeFromLocalStage.
    emits_auto ltac:(simpl; apply negb_true_iff, String.eqb_neq;
                     destruct Hpath as [Hat|Hpath]; [congruence | exact Hpath]). }
  destruct (Z.eqb_spec s (Remote_StageNumber cfg)) as [Hremote|_].
  { unfold removeFromR2Stage. emits_auto ltac:(reflexivity). }
  apply emits_ret.
Qed.

(** X24.  [Delete] never deletes the local copy of a record whose path is
    the path of its tier, as the creation and the moves set it.  At the
    local stage the removal is the one [RemoveFromStage] refuses; at any
    other stage the removal from the local stage deletes the file at the
    path of the record, which is then the path of the memory tier or of the
    remote tier and not the file the local tier keeps the database in.  This
    holds with either revision of [RemoveFromStage], each with the path its
    stage manager gives the local copy. *)
Theorem Delete_never_deletes_local_copy (cfg : Config) (U : StageUtils) (db : Database)
    (fuel : nat) (Dbs : option (list Database)) (w : World)
    (err : option error) (Dbs' : option (list Database))
    (removals : list (Z * option error)) (w' : World) :
  (is_configured_tier cfg (Stage db) = true ->
   FixedTiersStages.updateDatabasePath cfg db (Stage db) = db ->
   Delete cfg (FixedTiers.RemoveFromStage cfg) fuel Dbs db w
   = Some (err, Dbs', removals, w') ->
   bracketed (Name db) (keeps_file (FixedTiersCopy.getLocalPath (Name db))) w w')
  /\ (Stage db = GetLocalStage U \/ Stage db = GetRemoteStage U ->
      updateDatabasePath cfg U db (Stage db) = db ->
      Delete cfg (RemoveFromStage U) fuel Dbs db w = Some (err, Dbs', removals, w') ->
      bracketed (Name db)
        (keeps_file (Local_DirectoryPath cfg ++ "/" ++ Name db ++ ".db")) w w').
Proof.
  split.
  - intros Htier Hpath Hrun. eapply Delete_bracketed; [|exact Hrun]. intros s.
    apply FixedTiers_RemoveFromStage_keeps_file.
    unfold is_configured_tier in Htier. unfold FixedTiersStages.updateDatabasePath in Hpath.
    unfold FixedTiersCopy.getLocalPath.
    destruct (Z.eqb_spec (Stage db) (Memory_StageNumber cfg)) as [Hmemory|_].
    { right. rewrite <- Hpath. simpl. discriminate. }
    destruct (Z.eqb_spec (Stage db) (Local_StageNumber cfg)) as [Hlocal|_]; [now left|].
    destruct (Z.eqb_spec (Stage db) (Remote_StageNumber cfg)) as [Hremote|_];
      [|discriminate].
    right. rewrite <- Hpath. simpl. intros Heq.
    apply (f_equal String.length) in Heq. simpl in Heq.
    rewrite append_length in Heq. simpl in Heq. lia.
  - intros Hstage Hpath Hrun. eapply Delete_bracketed; [|exact Hrun]. intros s.
    apply RemoveFromStage_keeps_file.
    unfold updateDatabasePath in Hpath.
    destruct (Z.eqb_spec (Stage db) (GetLocalStage U)) as [Hlocal|Hnot]; [now left|].
    destruct (Z.eqb_spec (Stage db) (GetRemoteStage U)) as [Hremote|Hnot']; [|tauto].
    right. rewrite <- Hpath. simpl. intros Heq.
    apply (f_equal String.length) in Heq.
    rewrite append_length in Heq. simpl in Heq. rewrite append_length in Heq. lia.
Qed.

(** A record of the memory tier, as [CreateDatabaseAndInitialize] makes it:
    [Delete] removes the remote object and asks the local file system for
    the path of the memory tier. *)
Example Delete_memory_record_sample :
  exists w',
    Delete default_config (FixedTiers.RemoveFromStage default_config) 9
      (Some [mkDatabase "/u" "u" 1 0 0]) (mkDatabase "/u" "u" 1 0 0) (calm_world 0)
    = Some (None, Some [], [(3, None); (2, None); (1, Some (Errorf
              "cannot remove database from its current active stage %d" [ArgUint 1]))], w')
    /\ calls w' = [CallLock "u"; CallRemoteDelete "u.db"; CallLocalDelete "/u";
                   CallUnlock "u"].
Proof. eexists. vm_compute. split; reflexivity. Qed.

Lemma Delete_never_deletes_local_copy_witness :
  exists err Dbs' removals w',
    Delete default_config (FixedTiers.RemoveFromStage default_config) 9
      (Some [mkDatabase "/u" "u" 1 0 0]) (mkDatabase "/u" "u" 1 0 0) (calm_world 0)
    = Some (err, Dbs', removals, w')
    /\ bracketed "u" (keeps_file "./storage/u.db") (calm_world 0) w'.
Proof.
  eexists _, _, _, _. split; [vm_compute; reflexivity|].
  eapply (proj1 (Delete_never_deletes_local_copy default_config (config_utils default_config)
                   (mkDatabase "/u" "u" 1 0 0) 9 (Some [mkDatabase "/u" "u" 1 0 0])
                   (calm_world 0) _ _ _ _)).
  - reflexivity.
  - reflexivity.
  - vm_compute. reflexivity.
Defined.
